(** * Shipping-quote aggregation of the checkout router

    A shallow embedding of the shipping part of the checkout router
    (the three carrier clients and [getShippingServices]) and the
    properties its specification states about it.

    Conventions of the embedding.
    - A JavaScript [number] is an IEEE-754 binary64 value, taken from the
      Standard Library's [SpecFloat] with [prec = 53] and [emax = 1024];
      [*], [+], [/] and the comparisons are the correctly rounded
      operations of that specification.
    - An [async] function is a computation in the monad [M]: it yields the
      list of effects it performed (HTTP requests issued, lines written
      with [console.error]) together with either the value it resolved to
      or the error it rejected with.
    - The outside world (what each HTTP endpoint answers) is the record
      [World]; the code is a function of it. *)

From Stdlib Require Import ZArith List String Ascii Bool Lia.
From Stdlib Require Import Floats.SpecFloat.
From Stdlib Require Import Sorting.Permutation Sorting.Sorted.
Import ListNotations.
Open Scope string_scope.
Open Scope list_scope.
Open Scope Z_scope.

(** ** JavaScript numbers *)

Module JS.

Definition number : Type := spec_float.

Definition prec : Z := 53.
Definition emax : Z := 1024.

(** The number denoted by an integer literal. *)
Definition num (z : Z) : number := binary_normalize prec emax z 0 false.

Definition NaN : number := S754_nan.

Definition mul : number -> number -> number := SFmul prec emax.
Definition add : number -> number -> number := SFadd prec emax.
Definition div : number -> number -> number := SFdiv prec emax.

(** [x < y], [x > y] and [x >= y]: false as soon as an operand is NaN. *)
Definition lt (x y : number) : bool :=
  match SFcompare x y with Some Lt => true | _ => false end.
Definition gt (x y : number) : bool :=
  match SFcompare x y with Some Gt => true | _ => false end.
Definition ge (x y : number) : bool :=
  match SFcompare x y with Some (Gt | Eq) => true | _ => false end.

(** [Math.ceil]: the least integer not below [x], as a number; NaN, the
    infinities and the zeros are returned unchanged, and a negative
    argument above [-1] gives [-0]. *)
Definition Math_ceil (x : number) : number :=
  match x with
  | S754_finite s m e =>
      if 0 <=? e then x
      else
        let d := 2 ^ (- e) in
        let q := Z.pos m / d in
        let r := Z.pos m mod d in
        if s then binary_normalize prec emax (- q) 0 true
        else binary_normalize prec emax (if r =? 0 then q else q + 1) 0 false
  | _ => x
  end.

(** *** Decimal numerals

    [Number(s)] on a string.  The grammar covered is the one the carriers
    use for prices: the empty string (which is [0]) and unsigned decimal
    numerals [ddd], [ddd.ddd], [.ddd]; every other string is NaN here.
    The numeral [m / 10^k] is converted by one correctly rounded division,
    which is the nearest binary64 value as long as [m < 2^53] and
    [k <= 22]. *)

Definition digit_of (c : ascii) : option Z :=
  let n := Z.of_nat (nat_of_ascii c) in
  if (48 <=? n) && (n <=? 57) then Some (n - 48) else None.

(** State of the scan: mantissa so far, number of digits after the dot
    ([None] before the dot), and whether a digit was seen. *)
Fixpoint scan_decimal (s : string) (m : Z) (frac : option nat) (seen : bool)
  : option (Z * nat) :=
  match s with
  | EmptyString =>
      if seen then Some (m, match frac with Some k => k | None => O end)
      else None
  | String c rest =>
      match digit_of c with
      | Some d =>
          scan_decimal rest (10 * m + d) (option_map S frac) true
      | None =>
          if Ascii.eqb c "."%char then
            match frac with
            | None => scan_decimal rest m (Some O) seen
            | Some _ => None
            end
          else None
      end
  end.

Definition Number_ofString (s : string) : number :=
  match s with
  | EmptyString => S754_zero false
  | _ =>
      match scan_decimal s 0 None false with
      | Some (m, k) => div (num m) (num (10 ^ Z.of_nat k))
      | None => NaN
      end
  end.

(** *** Strings and truthiness *)

(** [!!s] for a string: only the empty string is falsy. *)
Definition truthy (s : string) : bool :=
  match s with EmptyString => false | _ => true end.

(** [s.includes(sub)]. *)
Fixpoint includes (s sub : string) : bool :=
  String.prefix sub s ||
  match s with
  | EmptyString => false
  | String _ rest => includes rest sub
  end.

(** [s.toLowerCase()], on the ASCII letters. *)
Definition lower_ascii (c : ascii) : ascii :=
  let n := nat_of_ascii c in
  if (65 <=? n)%nat && (n <=? 90)%nat then ascii_of_nat (n + 32) else c.

Fixpoint toLowerCase (s : string) : string :=
  match s with
  | EmptyString => EmptyString
  | String c rest => String (lower_ascii c) (toLowerCase rest)
  end.

(** [xs.join(sep)]. *)
Fixpoint join (sep : string) (xs : list string) : string :=
  match xs with
  | [] => ""
  | [x] => x
  | x :: rest => (x ++ sep ++ join sep rest)%string
  end.

(** [xs.includes(x)] on an array of strings. *)
Definition array_includes (xs : list string) (x : string) : bool :=
  existsb (String.eqb x) xs.

(** [a ?? b] where [undefined] is [None]. *)
Definition nullish {A} (a : option A) (b : A) : A :=
  match a with Some x => x | None => b end.

Definition nullish_opt {A} (a b : option A) : option A :=
  match a with Some _ => a | None => b end.

(** A piece of text built from literals and rendered numbers: what
    [n.toString()] and template strings produce.  The decimal rendering of
    a number is kept symbolic. *)
Inductive piece : Type :=
| Lit (s : string)
| Num (n : number).

Definition text : Type := list piece.

Definition str (s : string) : text := [Lit s].
Definition toString (n : number) : text := [Num n].

End JS.

Import JS.

(** ** Data model *)

(** [AusPostShippingService]: one entry of the postal provider's answer. *)
Record AusPostShippingService : Type := {
  aps_code : string;
  aps_name : string;
  aps_price : string;
  aps_max_extra_cover : number
}.

(** [AvailableShippingServicesResponse]; the field below is
    [data.services.service]. *)
Record AvailableShippingServicesResponse : Type := {
  services_service : list AusPostShippingService
}.

(** [StripeShippingOption], nested as in the source. *)
Record FixedAmount : Type := {
  amount : number;
  currency : string
}.

Record ShippingRateData : Type := {
  type_ : string;
  fixed_amount : FixedAmount;
  display_name : string
}.

Record StripeShippingOption : Type := {
  shipping_rate_data : ShippingRateData
}.

(** [InterparcelShippingService]: an entry of the availability answer. *)
Record InterparcelShippingService : Type := {
  ips_id : string;
  ips_service : string;
  ips_type : string
}.

Record InterparcelShippingServicesResponse : Type := {
  isr_status : number;
  isr_errorMessage : string;
  isr_services : list InterparcelShippingService
}.

(** An entry of [InterparcelShippingQuote.services]; the fields the code
    reads. *)
Record InterparcelQuotedService : Type := {
  iqs_carrier : string;
  iqs_name : string;
  iqs_sellPrice : number
}.

(** [InterparcelShippingQuote]; [services] may be missing from the
    answer, which the code guards with [data.services?.length]. *)
Record InterparcelShippingQuote : Type := {
  isq_status : number;
  isq_services : option (list InterparcelQuotedService)
}.

(** [ShippingServicesInput], the validated input of the procedure. *)
Record ShippingServicesInput : Type := {
  weight : number;
  length : number;
  width : number;
  height : number;
  destinationCountry : string;
  destinationPostcode : option string;
  destinationCity : option string;
  destinationState : option string;
  b2b : bool
}.

(** The request context: [ctx.session?.user?.isAdmin]. *)
Record User : Type := { isAdmin : option bool }.
Record Session : Type := { user : option User }.
Record Ctx : Type := { session : option Session }.

(** ** Constants *)

Definition supportedShippingMethods : list string := ["Standard"; "Express"].

Record Address : Type := {
  addrOne : string;
  addrTwo : string;
  postcode : string;
  city : string;
  state : string;
  country : string
}.

Definition partedEuroAddress : Address := {|
  addrOne := "26 Rushdale Street";
  addrTwo := "2";
  postcode := "3180";
  city := "Knoxfield";
  state := "VIC";
  country := "AU"
|}.

Definition mkOption (amt : number) (cur name : string) : StripeShippingOption :=
  {| shipping_rate_data :=
       {| type_ := "fixed_amount";
          fixed_amount := {| amount := amt; currency := cur |};
          display_name := name |} |}.

Definition pickupShippingOption : StripeShippingOption :=
  mkOption (num 0) "aud" "Pickup from Parted Euro".

Definition adminShippingOption : StripeShippingOption :=
  mkOption (num 1) "aud" "Admin Shipping".

(** ** Effects *)

(** URL search parameters, in insertion order. *)
Definition Params : Type := list (string * text).

(** The HTTP requests the module issues.  [InterparcelQuotePageReq] is
    the request for the quote page that opens the session; it stands for
    that request together with the redirects it is led through (up to
    five page requests in all), which [Bootstrap] below models one by
    one.  So a list of requests tells which requests are issued and in
    which order, and counts the page requests as one. *)
Inductive Request : Type :=
| AusPostDomesticReq
    (length_ width_ height_ weight_ : number)
    (from_postcode : string) (to_postcode : option string)
| AusPostInternationalReq (country_code : string) (weight_ : number)
| InterparcelAvailabilityReq (searchParams : Params)
| InterparcelQuotePageReq (quotePageParams : Params)
| InterparcelQuoteReq (searchParams : Params) (cookie csrf : string).

Inductive Carrier : Type := DomesticPostal | InternationalPostal | FreightBroker.

Definition carrierOf (r : Request) : Carrier :=
  match r with
  | AusPostDomesticReq _ _ _ _ _ _ => DomesticPostal
  | AusPostInternationalReq _ _ => InternationalPostal
  | InterparcelAvailabilityReq _
  | InterparcelQuotePageReq _
  | InterparcelQuoteReq _ _ _ => FreightBroker
  end.

(** An [Error] value, by its message. *)
Record JsError : Type := { message : string }.

Inductive Effect : Type :=
| Fetch (r : Request)
| ConsoleError (label detail : string).

Inductive outcome (A : Type) : Type :=
| Returned (a : A)
| Threw (e : JsError).
Arguments Returned {A} a.
Arguments Threw {A} e.

(** An asynchronous computation: its effects in order, and how it
    settled. *)
Definition M (A : Type) : Type := (list Effect * outcome A)%type.

Definition ret {A} (a : A) : M A := ([], Returned a).
Definition throw {A} (e : JsError) : M A := ([], Threw e).

Definition bind {A B} (m : M A) (k : A -> M B) : M B :=
  match m with
  | (l, Returned a) => let (l', r) := k a in (l ++ l', r)
  | (l, Threw e) => (l, Threw e)
  end.

(** [try { m } catch (error) { h error }]. *)
Definition try_catch {A} (m : M A) (h : JsError -> M A) : M A :=
  match m with
  | (l, Threw e) => let (l', r) := h e in (l ++ l', r)
  | (l, Returned a) => (l, Returned a)
  end.

(** [await fetch(...)] followed by reading the body: the request is
    recorded and the answer of the world is how the await settles. *)
Definition fetch {A} (r : Request) (answer : outcome A) : M A :=
  ([Fetch r], answer).

Definition console_error (label detail : string) : M unit :=
  ([ConsoleError label detail], Returned tt).

Declare Scope m_scope.
Delimit Scope m_scope with M.
Notation "x <- m ;; k" := (bind m (fun x => k))
  (at level 61, m at next level, right associativity) : m_scope.
Notation "' pat <- m ;; k" :=
  (bind m (fun x => match x with pat => k end))
  (at level 61, pat pattern, m at next level, right associativity) : m_scope.
Notation "m ;;; k" := (bind m (fun _ => k))
  (at level 61, right associativity) : m_scope.
Open Scope m_scope.

(** [Promise.allSettled]: every computation is started in array order and
    none of them makes the whole fail. *)
Inductive PromiseSettledResult (A : Type) : Type :=
| fulfilled (value : A)
| rejected (reason : JsError).
Arguments fulfilled {A} value.
Arguments rejected {A} reason.

Fixpoint settleAll {A} (ps : list (M A))
  : list Effect * list (PromiseSettledResult A) :=
  match ps with
  | [] => ([], [])
  | (l, r) :: rest =>
      let (l', rs) := settleAll rest in
      (l ++ l',
       match r with
       | Returned a => fulfilled a
       | Threw e => rejected e
       end :: rs)
  end.

Definition Promise_allSettled {A} (ps : list (M A))
  : M (list (PromiseSettledResult A)) :=
  let (l, rs) := settleAll ps in (l, Returned rs).

(** ** The world *)

(** The answer to a per-service quote request: [response.ok] and what
    [response.json()] settles to. *)
Record QuoteResponse : Type := {
  ok : bool;
  json : outcome InterparcelShippingQuote
}.

(** What the session bootstrap of the freight broker ends with.  The
    loop over at most five redirect hops, the parsing of the
    [Set-Cookie] headers and the regular-expression match on the page
    are summarised by their results: the cookie jar after the last hop
    (its entries in [Object.entries] order) and the captured group of
    the [csrf-token] meta tag, if the page matched. *)
Record QuotePage : Type := {
  cookieJar : list (string * string);
  metaMatch : option string
}.

(** What the endpoints answer.  An answer is the parsed body, of the
    shape its TypeScript type declares; a call that rejects, a body that
    cannot be parsed and a body of another shape are all [Threw]. *)
Record World : Type := {
  auspostDomestic :
    number -> number -> number -> number -> string -> option string ->
    outcome AvailableShippingServicesResponse;
  auspostInternational :
    string -> number -> outcome AvailableShippingServicesResponse;
  interparcelAvailability :
    Params -> outcome InterparcelShippingServicesResponse;
  interparcelQuotePage : Params -> outcome QuotePage;
  interparcelQuote : Params -> string -> string -> outcome QuoteResponse
}.

(** ** Helpers standing for JavaScript built-ins *)

(** [await p] for a promise that is already determined by the world. *)
Definition await {A} (o : outcome A) : M A := ([], o).

(** [Number(x)] where [x] is a string or [undefined], and where it is
    already a number. *)
Definition Number_ofOptString (s : option string) : number :=
  match s with
  | Some s' => Number_ofString s'
  | None => NaN
  end.

Definition Number_ofNumber (n : number) : number := n.

(** [!x] for [x : string | undefined]. *)
Definition falsy (s : option string) : bool :=
  match s with
  | Some s' => negb (truthy s')
  | None => true
  end.

(** [obj[key]] on an object used as a string map. *)
Fixpoint lookup {V} (key : string) (obj : list (string * V)) : option V :=
  match obj with
  | [] => None
  | (k, v) :: rest => if String.eqb k key then Some v else lookup key rest
  end.

(** [xs.slice(0, n)]. *)
Definition slice0 {A} (n : nat) (xs : list A) : list A := firstn n xs.

(** ** Carrier client: domestic postal *)

Definition getDomesticShippingServices (w : World) (input : ShippingServicesInput)
  : M (list StripeShippingOption) :=
  data <- fetch
            (AusPostDomesticReq (length input) (width input) (height input)
               (weight input) (postcode partedEuroAddress)
               (destinationPostcode input))
            (auspostDomestic w (length input) (width input) (height input)
               (weight input) (postcode partedEuroAddress)
               (destinationPostcode input)) ;;
  let express :=
    option_map aps_price
      (find (fun service => String.eqb (aps_code service) "AUS_PARCEL_EXPRESS")
            (services_service data)) in
  let regular :=
    option_map aps_price
      (find (fun service => String.eqb (aps_code service) "AUS_PARCEL_REGULAR")
            (services_service data)) in
  if falsy express || falsy regular
  then throw {| message := "Shipping not available" |}
  else
    ret [ mkOption (Math_ceil (mul (Number_ofOptString regular) (num 100)))
            "AUD" "AusPost Regular";
          mkOption (Math_ceil (mul (Number_ofOptString express) (num 100)))
            "AUD" "AusPost Express" ].

(** ** Carrier client: international postal *)

Definition getAusPostInternationalShippingServices
    (w : World) (input : ShippingServicesInput) : M (list StripeShippingOption) :=
  data <- fetch
            (AusPostInternationalReq (destinationCountry input) (weight input))
            (auspostInternational w (destinationCountry input) (weight input)) ;;
  ret (filter
         (fun service =>
            array_includes supportedShippingMethods
              (display_name (shipping_rate_data service)))
         (map
            (fun service =>
               mkOption
                 (Math_ceil (mul (Number_ofString (aps_price service)) (num 100)))
                 "AUD" (aps_name service))
            (services_service data))).

(** ** Carrier client: freight broker *)

Definition interparcelParams (input : ShippingServicesInput) : Params :=
  if gt (weight input) (num 35)
  then
    [ ("pkg[0][0]", toString (weight input));
      ("pkg[0][1]", toString (add (length input) (num 30)));
      ("pkg[0][2]", toString (add (width input) (num 30)));
      ("pkg[0][3]", toString (add (height input) (num 10)));
      ("source", str "booking");
      ("coll_country", str "Australia");
      ("coll_state", str (state partedEuroAddress));
      ("coll_city", str (city partedEuroAddress));
      ("coll_postcode", str (postcode partedEuroAddress));
      ("del_postcode", str (nullish (destinationPostcode input) ""));
      ("del_city", str (nullish (destinationCity input) ""));
      ("del_state", str (nullish (destinationState input) ""));
      ("del_country", str (destinationCountry input)) ]
  else
    [ ("source", str "booking");
      ("coll_country", str "Australia");
      ("coll_state", str (state partedEuroAddress));
      ("coll_city", str (city partedEuroAddress));
      ("coll_postcode", str (postcode partedEuroAddress));
      ("del_postcode", str (nullish (destinationPostcode input) ""));
      ("del_city", str (nullish (destinationCity input) ""));
      ("del_state", str (nullish (destinationState input) ""));
      ("del_country", str (destinationCountry input));
      ("pkg[0][0]", toString (weight input));
      ("pkg[0][1]", toString (length input));
      ("pkg[0][2]", toString (width input));
      ("pkg[0][3]", toString (height input)) ].

(** The parameters of the availability request:
    [{ ...interparcelParams, type: weight >= 35 ? "pallet" : "parcel" }]. *)
Definition availabilitySearchParams (input : ShippingServicesInput) : Params :=
  interparcelParams input ++
  [ ("type", str (if ge (weight input) (num 35) then "pallet" else "parcel")) ].

Definition quotePageParams (input : ShippingServicesInput) : Params :=
  [ ("p", [ Num (weight input); Lit "|"; Num (length input); Lit "|";
            Num (width input); Lit "|"; Num (height input) ]);
    ("t", str (if ge (weight input) (num 35) then "pallet" else "parcel"));
    ("ct", str (city partedEuroAddress));
    ("cs", str (state partedEuroAddress));
    ("cp", str (postcode partedEuroAddress));
    ("cc", str "Australia");
    ("dt", str (nullish (destinationCity input) ""));
    ("ds", str (nullish (destinationState input) ""));
    ("dp", str (nullish (destinationPostcode input) ""));
    ("dc", str (destinationCountry input)) ].

(** The candidate services that are quoted: no "Hunter" service, and no
    service named b2b unless the request is. *)
Definition candidateServices (input : ShippingServicesInput)
    (data : InterparcelShippingServicesResponse) : list InterparcelShippingService :=
  filter
    (fun service =>
       if b2b input then true
       else negb (includes (toLowerCase (ips_service service)) "b2b"))
    (filter (fun service => negb (includes (ips_service service) "Hunter"))
            (isr_services data)).

(** The body of the [async (service) => { try ... catch ... }] callback:
    one quote request, [null] on every failure. *)
Definition quoteService (w : World) (input : ShippingServicesInput)
    (cookieHeader csrfToken : string) (service : InterparcelShippingService)
  : M (option StripeShippingOption) :=
  try_catch
    (let searchParams :=
       interparcelParams input ++ [ ("service", str (ips_id service)) ] in
     response <- fetch (InterparcelQuoteReq searchParams cookieHeader csrfToken)
                   (interparcelQuote w searchParams cookieHeader csrfToken) ;;
     if negb (ok response) then ret None
     else
       data <- await (json response) ;;
       match isq_services data with
       | None => ret None
       | Some [] => ret None
       | Some (first :: _) =>
           ret (Some
                  (mkOption
                     (Math_ceil
                        (mul (Number_ofNumber (iqs_sellPrice first)) (num 100)))
                     "AUD"
                     (iqs_carrier first ++ " - " ++ iqs_name first)%string))
       end)
    (fun _ => ret None).

(** [availableServices.filter(fulfilled and not null).map(value)]. *)
Fixpoint validServicesOf (availableServices : list (PromiseSettledResult (option StripeShippingOption)))
  : list StripeShippingOption :=
  match availableServices with
  | [] => []
  | fulfilled (Some v) :: rest => v :: validServicesOf rest
  | _ :: rest => validServicesOf rest
  end.

(** [cookieJar.PHPSESSID ?? cookieJar.phpsessid ?? cookieJar.PhpSessId ??
    cookieJar["phpsessionid"]]. *)
Definition phpSessIdOf (jar : list (string * string)) : option string :=
  nullish_opt
    (nullish_opt
       (nullish_opt (lookup "PHPSESSID" jar) (lookup "phpsessid" jar))
       (lookup "PhpSessId" jar))
    (lookup "phpsessionid" jar).

(** [Object.entries(cookieJar).map(([k, v]) => k=v).join("; ")]. *)
Definition cookieHeaderOf (jar : list (string * string)) : string :=
  join "; " (map (fun '(k, v) => (k ++ "=" ++ v)%string) jar).

Definition getInterparcelShippingServices (w : World) (input : ShippingServicesInput)
  : M (list StripeShippingOption) :=
  let searchParams := availabilitySearchParams input in
  shippingServicesAvailableData <-
    fetch (InterparcelAvailabilityReq searchParams)
          (interparcelAvailability w searchParams) ;;
  if truthy (isr_errorMessage shippingServicesAvailableData)
  then throw {| message := isr_errorMessage shippingServicesAvailableData |}
  else
    page <- fetch (InterparcelQuotePageReq (quotePageParams input))
                  (interparcelQuotePage w (quotePageParams input)) ;;
    let phpSessId := phpSessIdOf (cookieJar page) in
    if falsy phpSessId
    then throw {| message := "PHPSESSID not found in Interparcel response" |}
    else
      let cookieHeader := cookieHeaderOf (cookieJar page) in
      let csrfToken := metaMatch page in
      if falsy csrfToken
      then throw {| message := "Failed to obtain CSRF token from Interparcel" |}
      else
        let requests :=
          map (quoteService w input cookieHeader (nullish csrfToken ""))
              (candidateServices input shippingServicesAvailableData) in
        availableServices <- Promise_allSettled requests ;;
        let validServices := validServicesOf availableServices in
        match validServices with
        | [] => throw {| message :=
                   "Unable to ship this item to the destination country" |}
        | _ => ret (slice0 4 validServices)
        end.

(** ** The procedure [getShippingServices] *)

Definition isAdminOf (ctx : Ctx) : bool :=
  nullish
    (match session ctx with
     | Some s => match user s with
                 | Some u => isAdmin u
                 | None => None
                 end
     | None => None
     end)
    false.

Definition fitsPostal (input : ShippingServicesInput) : bool :=
  forallb (fun dimension => lt dimension (num 105))
          [width input; length input; height input].

Definition getShippingServices (w : World) (ctx : Ctx) (input : ShippingServicesInput)
  : M (list StripeShippingOption) :=
  let isAdmin := isAdminOf ctx in
  if ge (weight input) (num 20) then
    shippingServices <-
      try_catch (getInterparcelShippingServices w input)
        (fun error =>
           if negb (String.eqb (destinationCountry input) "AU") then throw error
           else
             console_error
               "Failed to fetch Interparcel services for heavy AU shipping:"
               (message error) ;;;
             ret []) ;;
    let shippingServices :=
      if String.eqb (destinationCountry input) "AU"
      then shippingServices ++ [pickupShippingOption]
      else shippingServices in
    let shippingServices :=
      if isAdmin then adminShippingOption :: shippingServices
      else shippingServices in
    ret shippingServices
  else if negb (String.eqb (destinationCountry input) "AU") then
    shippingServices <-
      (if fitsPostal input
       then getAusPostInternationalShippingServices w input
       else getInterparcelShippingServices w input) ;;
    let shippingServices :=
      if isAdmin then adminShippingOption :: shippingServices
      else shippingServices in
    ret shippingServices
  else
    '(shippingServices, interparcelServices) <-
      (if fitsPostal input then
         shippingServices <-
           try_catch (getDomesticShippingServices w input)
             (fun error =>
                console_error "Failed to fetch AusPost domestic services:"
                  (message error) ;;;
                ret []) ;;
         interparcelServices <-
           try_catch (getInterparcelShippingServices w input)
             (fun error =>
                console_error
                  "Failed to fetch Interparcel services for domestic AU shipping:"
                  (message error) ;;;
                ret []) ;;
         ret (shippingServices, interparcelServices)
       else
         shippingServices <-
           try_catch (getInterparcelShippingServices w input)
             (fun error =>
                console_error
                  "Failed to fetch Interparcel services for oversized AU shipping:"
                  (message error) ;;;
                ret []) ;;
         ret (shippingServices, [])) ;;
    let allShippingServices :=
      pickupShippingOption :: shippingServices ++ interparcelServices in
    let allShippingServices :=
      if isAdmin then adminShippingOption :: allShippingServices
      else allShippingServices in
    ret (slice0 4 allShippingServices).

(** ** Concrete requests and worlds

    Used to run the code on examples. *)

Module Examples.

Definition mkInput (w l wd h : Z) (dest : string) (isB2B : bool)
  : ShippingServicesInput :=
  {| weight := num w; length := num l; width := num wd; height := num h;
     destinationCountry := dest;
     destinationPostcode := Some "3000";
     destinationCity := Some "Melbourne";
     destinationState := Some "VIC";
     b2b := isB2B |}.

Definition anonymous : Ctx := {| session := None |}.

Definition staff : Ctx :=
  {| session := Some {| user := Some {| isAdmin := Some true |} |} |}.

Definition unreachable {A} : outcome A :=
  Threw {| message := "fetch failed" |}.

(** Every endpoint is unreachable. *)
Definition world_down : World :=
  {| auspostDomestic := fun _ _ _ _ _ _ => unreachable;
     auspostInternational := fun _ _ => unreachable;
     interparcelAvailability := fun _ => unreachable;
     interparcelQuotePage := fun _ => unreachable;
     interparcelQuote := fun _ _ _ => unreachable |}.

Definition postalService (code name price : string) : AusPostShippingService :=
  {| aps_code := code; aps_name := name; aps_price := price;
     aps_max_extra_cover := num 5000 |}.

Definition domesticAnswer : AvailableShippingServicesResponse :=
  {| services_service :=
       [ postalService "AUS_PARCEL_REGULAR" "Parcel Post" "10.95";
         postalService "AUS_PARCEL_EXPRESS" "Express Post" "14.45";
         postalService "AUS_PARCEL_COURIER" "Courier Post" "25.00" ] |}.

Definition internationalAnswer : AvailableShippingServicesResponse :=
  {| services_service :=
       [ postalService "INT_PARCEL_COR_OWN_PACKAGING" "Courier" "95.30";
         postalService "INT_PARCEL_EXP_OWN_PACKAGING" "Express" "50.30";
         postalService "INT_PARCEL_STD_OWN_PACKAGING" "Standard" "35.30";
         postalService "INT_PARCEL_AIR_OWN_PACKAGING" "Economy Air" "30.00" ] |}.

Definition freightService (id name : string) : InterparcelShippingService :=
  {| ips_id := id; ips_service := name; ips_type := "parcel" |}.

Definition availabilityAnswer : InterparcelShippingServicesResponse :=
  {| isr_status := num 0;
     isr_errorMessage := "";
     isr_services :=
       [ freightService "s1" "TNT Road Express";
         freightService "s2" "Hunter Road Freight";
         freightService "s3" "Toll B2B Priority";
         freightService "s4" "Couriers Please";
         freightService "s5" "Aramex";
         freightService "s6" "Northline";
         freightService "s7" "Allied Express";
         freightService "s8" "Direct Freight" ] |}.

Definition sessionPage : QuotePage :=
  {| cookieJar := [ ("PHPSESSID", "k3v9"); ("region", "au") ];
     metaMatch := Some "tok-1" |}.

Definition quoted (carrier name : string) (cents : Z) : outcome QuoteResponse :=
  Returned
    {| ok := true;
       json := Returned
         {| isq_status := num 0;
            isq_services :=
              Some [ {| iqs_carrier := carrier; iqs_name := name;
                        iqs_sellPrice := div (num cents) (num 100) |} ] |} |}.

(** The [service] parameter of a per-service quote request. *)
Definition serviceParam (p : Params) : string :=
  match find (fun kv => String.eqb (fst kv) "service") p with
  | Some (_, [Lit id]) => id
  | _ => ""
  end.

(** Per-service answers: s1 is quoted, s3 answers with HTTP 500, s4 and
    s6 to s8 are quoted, s5 answers with an empty service list, the body
    of any other answer cannot be read. *)
Definition quoteAnswer (p : Params) : outcome QuoteResponse :=
  let id := serviceParam p in
  if String.eqb id "s1" then quoted "TNT" "Road Express" 4550
  else if String.eqb id "s3" then
    Returned {| ok := false; json := unreachable |}
  else if String.eqb id "s4" then quoted "Couriers Please" "Standard" 3120
  else if String.eqb id "s5" then
    Returned {| ok := true;
                json := Returned {| isq_status := num 0;
                                    isq_services := Some [] |} |}
  else if String.eqb id "s6" then quoted "Northline" "General" 8800
  else if String.eqb id "s7" then quoted "Allied" "Overnight" 2995
  else if String.eqb id "s8" then quoted "Direct Freight" "Express" 2750
  else Returned {| ok := true; json := unreachable |}.

(** Every endpoint answers. *)
Definition world_up : World :=
  {| auspostDomestic := fun _ _ _ _ _ _ => Returned domesticAnswer;
     auspostInternational := fun _ _ => Returned internationalAnswer;
     interparcelAvailability := fun _ => Returned availabilityAnswer;
     interparcelQuotePage := fun _ => Returned sessionPage;
     interparcelQuote := fun p _ _ => quoteAnswer p |}.

(** A domestic answer that lists both tiers, the regular one without a
    price. *)
Definition domesticAnswerUnpriced : AvailableShippingServicesResponse :=
  {| services_service :=
       [ postalService "AUS_PARCEL_REGULAR" "Parcel Post" "";
         postalService "AUS_PARCEL_EXPRESS" "Express Post" "14.45" ] |}.

Definition world_unpriced : World :=
  {| auspostDomestic := fun _ _ _ _ _ _ => Returned domesticAnswerUnpriced;
     auspostInternational := fun _ _ => unreachable;
     interparcelAvailability := fun _ => unreachable;
     interparcelQuotePage := fun _ => unreachable;
     interparcelQuote := fun _ _ _ => unreachable |}.

End Examples.

(** ** Definitions used to state the properties *)

(** How a computation settled, and the requests it issued. *)
Definition settled {A} (m : M A) : outcome A := snd m.

Definition requestsOf (log : list Effect) : list Request :=
  flat_map (fun ev => match ev with Fetch r => [r] | ConsoleError _ _ => [] end)
           log.

Definition requests {A} (m : M A) : list Request := requestsOf (fst m).

(** The parameters of the quote request for one candidate service. *)
Definition quoteSearchParams (input : ShippingServicesInput)
    (service : InterparcelShippingService) : Params :=
  interparcelParams input ++ [ ("service", str (ips_id service)) ].

(** The option made from the first entry of a quote. *)
Definition freightOption (first : InterparcelQuotedService) : StripeShippingOption :=
  mkOption (Math_ceil (mul (Number_ofNumber (iqs_sellPrice first)) (num 100)))
           "AUD" (iqs_carrier first ++ " - " ++ iqs_name first)%string.

(** The usable quote in the answer to one per-service request, as the
    specification words it: none when the call threw, when the status is
    not a success, when the body cannot be read, and when the service
    array is missing or empty. *)
Definition usableQuote (answer : outcome QuoteResponse) : option StripeShippingOption :=
  match answer with
  | Threw _ => None
  | Returned response =>
      if ok response then
        match json response with
        | Threw _ => None
        | Returned data =>
            match isq_services data with
            | Some (first :: _) => Some (freightOption first)
            | Some [] => None
            | None => None
            end
        end
      else None
  end.

(** The usable quotes of a list of candidates, in the order of the
    candidates. *)
Definition survivingQuotes (w : World) (input : ShippingServicesInput)
    (cookieHeader csrfToken : string)
    (candidates : list InterparcelShippingService) : list StripeShippingOption :=
  flat_map
    (fun service =>
       match usableQuote
               (interparcelQuote w (quoteSearchParams input service)
                  cookieHeader csrfToken) with
       | Some o => [o]
       | None => []
       end)
    candidates.

(** The option the international client makes of one provider entry. *)
Definition postalOption (service : AusPostShippingService) : StripeShippingOption :=
  mkOption (Math_ceil (mul (Number_ofString (aps_price service)) (num 100)))
           "AUD" (aps_name service).

(** The first entry of the domestic answer that carries a service code. *)
Definition serviceWithCode (code : string) (data : AvailableShippingServicesResponse)
  : option AusPostShippingService :=
  find (fun service => String.eqb (aps_code service) code) (services_service data).

(** The exact amount the specification asks for a decimal price
    [m / 10^k]: the ceiling of the price times one hundred. *)
Definition exactMinorUnits (m : Z) (k : nat) : Z :=
  let den := 10 ^ Z.of_nat k in
  (m * 100 + den - 1) / den.

(** Whether a string has a hyphen. *)
Fixpoint hasHyphen (s : string) : bool :=
  match s with
  | EmptyString => false
  | String c rest => Ascii.eqb c "-"%char || hasHyphen rest
  end.

(** An option made by the freight-broker client. *)
Definition isFreightOption (o : StripeShippingOption) : Prop :=
  exists first, o = freightOption first.


(** The admin option in front, for an admin caller; the list of a carrier
    call, or nothing when it failed. *)
Definition prependAdmin (ctx : Ctx) (l : list StripeShippingOption)
  : list StripeShippingOption :=
  if isAdminOf ctx then adminShippingOption :: l else l.

Definition orEmpty {A} (o : outcome (list A)) : list A :=
  match o with
  | Returned l => l
  | Threw _ => []
  end.


(** The shipment type and the package sizes a parameter list carries. *)
Definition sentType (p : Params) : option text := lookup "type" p.

Definition sentSizes (p : Params) : option text * option text * option text :=
  (lookup "pkg[0][1]" p, lookup "pkg[0][2]" p, lookup "pkg[0][3]" p).


(** ** Prices whose product with one hundred is inexact *)

Module Rounding.

(** A world whose carriers quote 8.80 and 11.10 (domestic postal), 16.10
    and 22.05 (international postal) and 16.1 (freight broker, as a JSON
    number). *)
Definition inexactDomestic : AvailableShippingServicesResponse :=
  {| services_service :=
       [ Examples.postalService "AUS_PARCEL_REGULAR" "Parcel Post" "8.80";
         Examples.postalService "AUS_PARCEL_EXPRESS" "Express Post" "11.10" ] |}.

Definition inexactInternational : AvailableShippingServicesResponse :=
  {| services_service :=
       [ Examples.postalService "INT_PARCEL_STD_OWN_PACKAGING" "Standard" "16.10";
         Examples.postalService "INT_PARCEL_EXP_OWN_PACKAGING" "Express" "22.05" ] |}.

Definition oneCandidate : InterparcelShippingServicesResponse :=
  {| isr_status := num 0;
     isr_errorMessage := "";
     isr_services := [ Examples.freightService "s1" "TNT Road Express" ] |}.

Definition inexactQuote : outcome QuoteResponse :=
  Returned
    {| ok := true;
       json := Returned
         {| isq_status := num 0;
            isq_services :=
              Some [ {| iqs_carrier := "TNT"; iqs_name := "Road Express";
                        iqs_sellPrice := div (num 161) (num 10) |} ] |} |}.

Definition inexactWorld : World :=
  {| auspostDomestic := fun _ _ _ _ _ _ => Returned inexactDomestic;
     auspostInternational := fun _ _ => Returned inexactInternational;
     interparcelAvailability := fun _ => Returned oneCandidate;
     interparcelQuotePage := fun _ => Returned Examples.sessionPage;
     interparcelQuote := fun _ _ _ => inexactQuote |}.

(** The integer a number is, when it is one. *)
Definition toZ (x : number) : option Z :=
  match x with
  | S754_zero _ => Some 0
  | S754_finite s m e =>
      let magnitude :=
        if 0 <=? e then Some (Z.pos m * 2 ^ e)
        else if Z.pos m mod 2 ^ (- e) =? 0 then Some (Z.pos m / 2 ^ (- e))
        else None in
      option_map (fun z => if s then - z else z) magnitude
  | _ => None
  end.

(** The amount the code computes for a price of [c] hundredths, that is
    for the numeral [c / 100]. *)
Definition amountOfCents (c : Z) : option Z :=
  toZ (Math_ceil (mul (div (num c) (num 100)) (num 100))).

Definition exactOrOneMore (c : Z) : bool :=
  match amountOfCents c with
  | Some a => (a =? c) || (a =? c + 1)
  | None => false
  end.

Fixpoint allFrom (c : Z) (n : nat) : bool :=
  match n with
  | O => true
  | S n' => exactOrOneMore c && allFrom (c + 1) n'
  end.

End Rounding.

(** ** More worlds *)

Module Worlds.

(** The freight broker refuses the route: its availability answer carries
    an error message. *)
Definition world_refused : World :=
  {| auspostDomestic := fun _ _ _ _ _ _ => Examples.unreachable;
     auspostInternational := fun _ _ => Examples.unreachable;
     interparcelAvailability := fun _ =>
       Returned {| isr_status := num 1;
                   isr_errorMessage := "Invalid delivery postcode";
                   isr_services := [] |};
     interparcelQuotePage := fun _ => Returned Examples.sessionPage;
     interparcelQuote := fun p _ _ => Examples.quoteAnswer p |}.

End Worlds.

(** ** The session bootstrap of the freight broker

    The loop of at most five hops that precedes the quote requests, the
    parsing of the [Set-Cookie] headers and the search for the token in
    the page.  [sessionPageOf] computes from the answers of the page
    server the summary ([QuotePage]) that [interparcelQuotePage] stands
    for in [World]. *)

Module Bootstrap.

(** White space as [trim] and [\s] take it.  A string of the model is a
    sequence of code units below 256, which is all a header value can
    hold (its bytes are read one code unit each); the white space among
    them is tab, line feed, vertical tab, form feed, carriage return,
    space and the no-break space U+00A0. *)
Definition isSpace (c : ascii) : bool :=
  let n := nat_of_ascii c in
  (n =? 32)%nat || ((9 <=? n)%nat && (n <=? 13)%nat) || (n =? 160)%nat.

Fixpoint trimStart (s : string) : string :=
  match s with
  | EmptyString => EmptyString
  | String c rest => if isSpace c then trimStart rest else s
  end.

Fixpoint trimEnd (s : string) : string :=
  match s with
  | EmptyString => EmptyString
  | String c rest =>
      match trimEnd rest with
      | EmptyString => if isSpace c then EmptyString else String c EmptyString
      | rest' => String c rest'
      end
  end.

(** [s.trim()]. *)
Definition trim (s : string) : string := trimEnd (trimStart s).

(** [s.split(sep)[0]] for a one-character separator. *)
Fixpoint firstPiece (sep : ascii) (s : string) : string :=
  match s with
  | EmptyString => EmptyString
  | String c rest =>
      if Ascii.eqb c sep then EmptyString else String c (firstPiece sep rest)
  end.

(** [s.indexOf(c)], [-1] when [c] does not occur. *)
Fixpoint indexOf (c : ascii) (s : string) : Z :=
  match s with
  | EmptyString => -1
  | String d rest =>
      if Ascii.eqb d c then 0
      else let i := indexOf c rest in if i <? 0 then -1 else i + 1
  end.

(** [s.slice(0, n)] and [s.slice(n)] for [0 <= n]. *)
Fixpoint sliceTo (n : nat) (s : string) : string :=
  match n, s with
  | S n', String c rest => String c (sliceTo n' rest)
  | _, _ => EmptyString
  end.

Fixpoint sliceFrom (n : nat) (s : string) : string :=
  match n, s with
  | S n', String _ rest => sliceFrom n' rest
  | _, _ => s
  end.

(** The name and value a [Set-Cookie] string gives the jar, if any: the
    body of the inner [for] loop up to the assignment. *)
Definition parseCookiePair (sc : string) : option (string * string) :=
  let first := trim (firstPiece ";"%char sc) in
  if negb (truthy first) then None
  else
    let eq := indexOf "="%char first in
    if 0 <? eq then
      let name := sliceTo (Z.to_nat eq) first in
      let value := sliceFrom (Z.to_nat (eq + 1)) first in
      if truthy name then Some (name, value) else None
    else None.

(** *** The cookie jar, a plain object

    Its entries are kept in [Object.entries] order: the keys that are
    array indices first, in ascending order, then the other keys in the
    order they were first set. *)

Definition Jar : Type := list (string * string).

Fixpoint digitsValue (s : string) (acc : N) : option N :=
  match s with
  | EmptyString => Some acc
  | String c rest =>
      let n := N.of_nat (nat_of_ascii c) in
      if (48 <=? n)%N && (n <=? 57)%N
      then digitsValue rest (10 * acc + (n - 48))%N
      else None
  end.

(** The array index a key is, if it is one: a canonical decimal numeral
    of at most [2^32 - 2]. *)
Definition arrayIndex (key : string) : option N :=
  match key with
  | EmptyString => None
  | String c rest =>
      if Ascii.eqb c "0"%char && truthy rest then None
      else
        match digitsValue key 0 with
        | Some n => if (n <=? 4294967294)%N then Some n else None
        | None => None
        end
  end.

Fixpoint hasKey (key : string) (jar : Jar) : bool :=
  match jar with
  | [] => false
  | (k, _) :: rest => String.eqb k key || hasKey key rest
  end.

Fixpoint replaceValue (key value : string) (jar : Jar) : Jar :=
  match jar with
  | [] => []
  | (k, v) :: rest =>
      if String.eqb k key then (k, value) :: rest
      else (k, v) :: replaceValue key value rest
  end.

(** A new index key goes before the first entry that is no index key or
    has a larger index. *)
Fixpoint insertIndexed (n : N) (key value : string) (jar : Jar) : Jar :=
  match jar with
  | [] => [(key, value)]
  | (k, v) :: rest =>
      match arrayIndex k with
      | Some m =>
          if (m <? n)%N then (k, v) :: insertIndexed n key value rest
          else (key, value) :: (k, v) :: rest
      | None => (key, value) :: (k, v) :: rest
      end
  end.

(** [cookieJar[name] = value].  The key ["__proto__"] reaches the setter
    of [Object.prototype], which ignores a string, so the jar is left as
    it is. *)
Definition setProperty (name value : string) (jar : Jar) : Jar :=
  if String.eqb name "__proto__" then jar
  else if hasKey name jar then replaceValue name value jar
  else
    match arrayIndex name with
    | Some n => insertIndexed n name value jar
    | None => jar ++ [(name, value)]
    end.

(** One turn of [for (const sc of parseSetCookieHeaders(res.headers))]. *)
Definition absorbCookie (jar : Jar) (sc : string) : Jar :=
  match parseCookiePair sc with
  | Some (name, value) => setProperty name value jar
  | None => jar
  end.

(** *** [parseSetCookieHeaders] *)

(** The look-ahead [(?=[^;]+=[^;]+)] on the text after a comma: some
    ["="] comes after at least one character and before any [";"], and
    is followed by a character other than [";"]. *)
Fixpoint cookieAhead (seen : bool) (s : string) : bool :=
  match s with
  | EmptyString => false
  | String c rest =>
      if Ascii.eqb c ";"%char then false
      else if seen && Ascii.eqb c "="%char &&
              match rest with
              | EmptyString => false
              | String d _ => negb (Ascii.eqb d ";"%char)
              end
      then true
      else cookieAhead true rest
  end.

(** [single.split(/,(?=[^;]+=[^;]+)/g)]. *)
Fixpoint splitCookies (s : string) : list string :=
  match s with
  | EmptyString => [EmptyString]
  | String c rest =>
      if Ascii.eqb c ","%char && cookieAhead false rest
      then EmptyString :: splitCookies rest
      else
        match splitCookies rest with
        | piece :: pieces => String c piece :: pieces
        | [] => [String c EmptyString]
        end
  end.

(** The headers of a response, as far as the code reads them:
    [getSetCookie()] where the platform has it, [get("set-cookie")] and
    [get("location")]. *)
Record Headers : Type := {
  getSetCookie : option (list string);
  get_set_cookie : option string;
  get_location : option string
}.

Definition parseSetCookieHeaders (headers : Headers) : list string :=
  match getSetCookie headers with
  | Some arr => arr
  | None =>
      match get_set_cookie headers with
      | None => []
      | Some single =>
          if negb (truthy single) then [] else splitCookies single
      end
  end.

(** *** The token in the page

    The page is a string of the model as well: a page with code units
    from 256 on is outside it. *)

(** The double quote, and the two quote characters of the pattern. *)
Definition dquote : ascii := ascii_of_nat 34.

Definition isQuote (c : ascii) : bool :=
  Ascii.eqb c dquote || Ascii.eqb c "'"%char.

(** A literal of the pattern at the head of [s], letters in any case;
    what follows it. *)
Fixpoint matchLiteral (lit s : string) : option string :=
  match lit, s with
  | EmptyString, _ => Some s
  | String a lit', String c s' =>
      if Ascii.eqb (lower_ascii a) (lower_ascii c) then matchLiteral lit' s'
      else None
  | String _ _, EmptyString => None
  end.

(** [\s+]. *)
Definition matchSpaces (s : string) : option string :=
  match s with
  | String c rest => if isSpace c then Some (trimStart rest) else None
  | EmptyString => None
  end.

(** One quote character, single or double. *)
Definition matchQuote (s : string) : option string :=
  match s with
  | String c rest => if isQuote c then Some rest else None
  | EmptyString => None
  end.

(** The captured group and the quote that closes it: the longest run of
    characters that are no quotes, which must not be empty and must end at
    a quote. *)
Fixpoint matchToken (s : string) : option string :=
  match s with
  | EmptyString => None
  | String c rest =>
      if isQuote c then None
      else
        match rest with
        | EmptyString => None
        | String d _ =>
            if isQuote d then Some (String c EmptyString)
            else option_map (String c) (matchToken rest)
        end
  end.

Definition andThen {A B} (a : option A) (f : A -> option B) : option B :=
  match a with
  | Some x => f x
  | None => None
  end.

(** The pattern of the code at the head of [s], with its flag [i]:
    [<meta], white space, [name=], a quote, [csrf-token], a quote, white
    space, [content=], a quote, the captured group, a quote.  The result
    is the captured group. *)
Definition matchMetaAt (s : string) : option string :=
  andThen (matchLiteral "<meta" s) (fun s =>
  andThen (matchSpaces s) (fun s =>
  andThen (matchLiteral "name=" s) (fun s =>
  andThen (matchQuote s) (fun s =>
  andThen (matchLiteral "csrf-token" s) (fun s =>
  andThen (matchQuote s) (fun s =>
  andThen (matchSpaces s) (fun s =>
  andThen (matchLiteral "content=" s) (fun s =>
  andThen (matchQuote s) matchToken)))))))).

(** [quotePageHtml.match(...)] and its group 1: the leftmost match. *)
Fixpoint extractCsrf (html : string) : option string :=
  match matchMetaAt html with
  | Some token => Some token
  | None =>
      match html with
      | EmptyString => None
      | String _ rest => extractCsrf rest
      end
  end.

(** *** The loop *)

(** The address of a page request: the quote page with the route
    parameters, or an address a redirect led to. *)
Inductive Url : Type :=
| SelectService (quotePageParams : Params)
| Redirected (href : string).

Record PageResponse : Type := {
  pr_status : Z;
  pr_headers : Headers;
  pr_text : outcome string
}.

(** The page server and the platform: what [fetch] settles to for an
    address and a [Cookie] header, and [new URL(loc, base).toString()]. *)
Record Platform : Type := {
  fetchPage : Url -> option string -> outcome PageResponse;
  resolveURL : string -> Url -> outcome string
}.

(** A page request: its address and its [Cookie] header, if one was
    sent. *)
Definition PageFetch : Type := (Url * option string)%type.

(** [for (let i = 0; i < 5; i++) { ... }] with [hops] turns left. *)
Fixpoint followRedirects (p : Platform) (hops : nat) (nextUrl : Url)
    (jar : Jar) : list PageFetch * outcome (Jar * string) :=
  match hops with
  | O => ([], Returned (jar, ""))
  | S hops' =>
      let cookie :=
        match jar with
        | [] => None
        | _ :: _ => Some (cookieHeaderOf jar)
        end in
      match fetchPage p nextUrl cookie with
      | Threw e => ([(nextUrl, cookie)], Threw e)
      | Returned res =>
          let jar' :=
            fold_left absorbCookie (parseSetCookieHeaders (pr_headers res))
                      jar in
          let loc := get_location (pr_headers res) in
          if (300 <=? pr_status res) && (pr_status res <? 400)
             && negb (falsy loc)
          then
            match resolveURL p (nullish loc "") nextUrl with
            | Threw e => ([(nextUrl, cookie)], Threw e)
            | Returned next =>
                let (log, r) :=
                  followRedirects p hops' (Redirected next) jar' in
                ((nextUrl, cookie) :: log, r)
            end
          else
            match pr_text res with
            | Threw e => ([(nextUrl, cookie)], Threw e)
            | Returned html => ([(nextUrl, cookie)], Returned (jar', html))
            end
      end
  end.

Definition bootstrap (p : Platform) (params : Params)
  : list PageFetch * outcome (Jar * string) :=
  followRedirects p 5 (SelectService params) [].

(** The summary of the bootstrap that the client goes on with. *)
Definition sessionPageOf (p : Platform) (params : Params) : outcome QuotePage :=
  match snd (bootstrap p params) with
  | Returned (jar, html) =>
      Returned {| cookieJar := jar; metaMatch := extractCsrf html |}
  | Threw e => Threw e
  end.

(** A world whose session page is the one the bootstrap ends with. *)
Definition withPlatform (p : Platform) (w : World) : World :=
  {| auspostDomestic := auspostDomestic w;
     auspostInternational := auspostInternational w;
     interparcelAvailability := interparcelAvailability w;
     interparcelQuotePage := sessionPageOf p;
     interparcelQuote := interparcelQuote w |}.

(** *** Notions used to state the properties *)

Fixpoint noChar (c : ascii) (s : string) : bool :=
  match s with
  | EmptyString => true
  | String d rest => negb (Ascii.eqb d c) && noChar c rest
  end.

Fixpoint allSpaces (s : string) : bool :=
  match s with
  | EmptyString => true
  | String c rest => isSpace c && allSpaces rest
  end.

Fixpoint noQuote (s : string) : bool :=
  match s with
  | EmptyString => true
  | String c rest => negb (isQuote c) && noQuote rest
  end.

Definition startsClean (s : string) : bool :=
  match s with
  | EmptyString => false
  | String c _ => negb (isSpace c)
  end.

Fixpoint endsClean (s : string) : bool :=
  match s with
  | EmptyString => false
  | String c EmptyString => negb (isSpace c)
  | String _ rest => endsClean rest
  end.

(** The value the last cookie of a list gives a name. *)
Fixpoint lastValue (name : string) (cookies : list string) : option string :=
  match cookies with
  | [] => None
  | sc :: rest =>
      match lastValue name rest with
      | Some v => Some v
      | None =>
          match parseCookiePair sc with
          | Some (n, v) => if String.eqb n name then Some v else None
          | None => None
          end
      end
  end.

(** A page server that answers every request with a redirect. *)
Definition alwaysRedirects (p : Platform) : Prop :=
  forall url cookie,
    exists res loc next,
      fetchPage p url cookie = Returned res /\
      300 <= pr_status res < 400 /\
      get_location (pr_headers res) = Some loc /\ loc <> "" /\
      resolveURL p loc url = Returned next.

(** Examples. *)
Definition redirectTo (cookies : list string) (loc : string) : PageResponse :=
  {| pr_status := 302;
     pr_headers := {| getSetCookie := Some cookies;
                      get_set_cookie := None;
                      get_location := Some loc |};
     pr_text := Returned "" |}.

Definition pageWith (cookies : option string) (html : string) : PageResponse :=
  {| pr_status := 200;
     pr_headers := {| getSetCookie := None;
                      get_set_cookie := cookies;
                      get_location := None |};
     pr_text := Returned html |}.

(** A server that sets the session cookie and redirects once, then
    serves the page with the token. *)
Definition oneRedirect : Platform :=
  {| fetchPage := fun url _ =>
       match url with
       | SelectService _ =>
           Returned (redirectTo [ "PHPSESSID=k3v9; path=/; HttpOnly" ]
                       "/quote/select-service/2")
       | Redirected _ =>
           Returned
             (pageWith
                (Some "region=au; Expires=Wed, 21 Oct 2026 07:28:00 GMT; Path=/, seen=1")
                ("<html><head><META  name='csrf-token'  content="
                 ++ String dquote ("tok-1" ++ String dquote "></head></html>")))
       end;
     resolveURL := fun loc _ =>
       Returned ("https://au.interparcel.com" ++ loc)%string |}.

(** A server that redirects for ever, setting the session cookie. *)
Definition redirectLoop : Platform :=
  {| fetchPage := fun _ _ =>
       Returned (redirectTo [ "PHPSESSID=k3v9" ] "/login");
     resolveURL := fun loc _ =>
       Returned ("https://au.interparcel.com" ++ loc)%string |}.

End Bootstrap.

(** ** The procedure [getShippingCountries]

    The countries the postal service lists, with four priority
    countries first. *)

Module Countries.

(** [AusPostShippingCodes]. *)
Record AusPostShippingCodes : Type := {
  country_code : string;
  country_name : string
}.

(** [data.countries.country] of a [ShippingCountryResponse]. *)
Record ShippingCountryResponse : Type := {
  countries_country : list AusPostShippingCodes
}.

Definition priorityCountries : list string := ["US"; "GB"; "CA"; "BR"].

(** [xs.indexOf(x)] on an array of strings, [-1] when [x] is not in it. *)
Fixpoint array_indexOf (x : string) (xs : list string) : Z :=
  match xs with
  | [] => -1
  | y :: rest =>
      if String.eqb y x then 0
      else let i := array_indexOf x rest in if i =? -1 then -1 else i + 1
  end.

Section Sorting.

(** [a.localeCompare(b)]: negative, zero or positive. *)
Variable localeCompare : string -> string -> Z.

(** The comparator handed to [sort]. *)
Definition compareCountries (a b : AusPostShippingCodes) : Z :=
  let indexA := array_indexOf (country_code a) priorityCountries in
  let indexB := array_indexOf (country_code b) priorityCountries in
  if negb (indexA =? -1) && negb (indexB =? -1) then indexA - indexB
  else if negb (indexA =? -1) then -1
  else if negb (indexB =? -1) then 1
  else localeCompare (country_name a) (country_name b).

(** [xs.sort(compare)].  [Array.prototype.sort] is stable, so for a
    consistent comparator its result is the one stable insertion gives:
    an element goes before the first element it does not compare
    greater than. *)
Fixpoint insertSorted {A} (compare : A -> A -> Z) (x : A) (sorted : list A)
  : list A :=
  match sorted with
  | [] => [x]
  | y :: rest =>
      if 0 <? compare x y then y :: insertSorted compare x rest
      else x :: y :: rest
  end.

Fixpoint array_sort {A} (compare : A -> A -> Z) (xs : list A) : list A :=
  match xs with
  | [] => []
  | x :: rest => insertSorted compare x (array_sort compare rest)
  end.

(** The procedure, on what the country endpoint answers. *)
Definition getShippingCountries (answer : outcome ShippingCountryResponse)
  : outcome (list AusPostShippingCodes) :=
  match answer with
  | Threw e => Threw e
  | Returned data =>
      Returned (array_sort compareCountries (countries_country data))
  end.

End Sorting.

(** Whether a country is one of the priority countries. *)
Definition isPriority (c : AusPostShippingCodes) : bool :=
  negb (array_indexOf (country_code c) priorityCountries =? -1).

(** The place of a country in [priorityCountries], and what the
    comparator of the sort says of two countries: the first may stand
    before the second. *)
Definition priorityIndex (c : AusPostShippingCodes) : Z :=
  array_indexOf (country_code c) priorityCountries.

Definition mayPrecede (localeCompare : string -> string -> Z)
    (a b : AusPostShippingCodes) : Prop :=
  compareCountries localeCompare a b <= 0.

(** What [sort] asks of a comparator, for [localeCompare]. *)
Definition consistent (localeCompare : string -> string -> Z) : Prop :=
  (forall a b, localeCompare a b <= 0 \/ localeCompare b a <= 0) /\
  (forall a b c, localeCompare a b <= 0 -> localeCompare b c <= 0 ->
                 localeCompare a c <= 0).

(** A comparison for the examples: by the first three characters. *)
Fixpoint prefixKey (n : nat) (s : string) : Z :=
  match n with
  | O => 0
  | S n' =>
      match s with
      | EmptyString => 256 * prefixKey n' EmptyString
      | String c rest =>
          256 ^ Z.of_nat n * Z.of_nat (nat_of_ascii c) + prefixKey n' rest
      end
  end.

Definition byPrefix (a b : string) : Z := prefixKey 3 a - prefixKey 3 b.

Definition country (code name : string) : AusPostShippingCodes :=
  {| country_code := code; country_name := name |}.

Definition listed : list AusPostShippingCodes :=
  [ country "NZ" "New Zealand"; country "CA" "Canada";
    country "DE" "Germany"; country "US" "United States";
    country "FR" "France"; country "GB" "United Kingdom" ].

End Countries.

(** ** [createStripeSession] and the procedure [getStripeCheckout]

    The database and the payment provider are the record [Backend]; a
    computation yields the calls it made (and the lines it wrote with
    [console.log]) together with how it settled.  The two clients are
    constructed before the [try] block: [Backend] stands for them once
    they exist, and a throw of one of the two constructors, which leaves
    the function as it is, is outside the model.  The model is the [try]
    block and its [catch]. *)

Module Checkout.

(** [CheckoutItem]. *)
Record CheckoutItem : Type := {
  itemId : string;
  quantity : number
}.

(** What [prisma.listing.findMany] selects of a listing, as far as the
    code reads it. *)
Record Image : Type := { url : string }.
Record Donor : Type := { vin : string }.
Record InventoryLocation : Type := { name : string }.

Record Part : Type := {
  donor : option Donor;
  inventoryLocation : option InventoryLocation
}.

Record Listing : Type := {
  id : string;
  title : string;
  price : number;
  images : list Image;
  parts : list Part
}.

(** An element of [stripeLineItems], nested as in the source. *)
Record Metadata : Type := {
  VIN : option string;
  inventoryLocations : string
}.

Record ProductData : Type := {
  pd_name : string;
  pd_images : list string;
  metadata : Metadata
}.

Record PriceData : Type := {
  pd_currency : string;
  product_data : ProductData;
  unit_amount : number
}.

Record LineItem : Type := {
  price_data : PriceData;
  li_quantity : number
}.

(** [StripeSessionRequest]. *)
Record StripeSessionRequest : Type := {
  shippingOptions : list StripeShippingOption;
  email : string;
  customerName : string;
  items : list CheckoutItem;
  countryCode : string;
  adminCreated : option bool
}.

(** The arguments of the calls. *)
Record OrderData : Type := {
  od_email : string;
  od_name : string;
  od_status : string;
  od_subtotal : number
}.

Record OrderItemData : Type := {
  oi_listingId : string;
  oi_quantity : number;
  oi_orderId : string
}.

Record SessionParams : Type := {
  sp_customer : string;
  sp_payment_method_types : list string;
  sp_phone_number_collection_enabled : bool;
  sp_allowed_countries : list string;
  sp_shipping_options : list StripeShippingOption;
  sp_line_items : list LineItem;
  sp_mode : string;
  sp_success_url : string;
  sp_cancel_url : string;
  sp_metadata_orderId : string
}.

(** The places where the code reads a property of a value that may be
    missing; reading it there is a [TypeError]. *)
Inductive ReadSite : Type :=
| ReadImageUrl
| ReadDonorVin
| ReadQuantity.

(** What an awaited call can reject with, as far as the [catch] block
    tells thrown values apart: an [Error] (the errors of the two clients
    and a [TypeError] are), or a value that is not one. *)
Inductive Thrown : Type :=
| AnError (e : JsError)
| NotAnError.

(** How an awaited call settles. *)
Inductive Settled (A : Type) : Type :=
| Resolved (a : A)
| RejectedWith (reason : Thrown).
Arguments Resolved {A} a.
Arguments RejectedWith {A} reason.

(** The two clients once they are constructed, and the platform: what
    each call settles to (the [id] of what was created, the [url] of the
    session), the value of [process.env.NODE_ENV] and the message the
    platform gives a [TypeError]. *)
Record Backend : Type := {
  NODE_ENV : option string;
  listing_findMany : list string -> Settled (list Listing);
  customers_create : string -> string -> Settled string;
  order_create : OrderData -> Settled string;
  orderItem_create : OrderItemData -> Settled string;
  order_update : string -> string -> Settled unit;
  sessions_create : SessionParams -> Settled (option string);
  typeErrorMessage : ReadSite -> string
}.

Inductive Call : Type :=
| ListingFindMany (ids : list string)
| CustomersCreate (email name : string)
| OrderCreate (data : OrderData)
| OrderItemCreate (data : OrderItemData)
| OrderUpdate (orderId orderItemId : string)
| SessionsCreate (params : SessionParams)
| ConsoleLog (text : string).

(** A computation inside the [try] block: the calls it made, and how it
    settled. *)
Definition T (A : Type) : Type := (list Call * Settled A)%type.

Definition pure {A} (a : A) : T A := ([], Resolved a).

Definition andThen {A B} (m : T A) (k : A -> T B) : T B :=
  match m with
  | (l, Resolved a) => let (l', r) := k a in (l ++ l', r)
  | (l, RejectedWith reason) => (l, RejectedWith reason)
  end.

(** [await] of a call: the call is recorded and settles as the backend
    says. *)
Definition call {A} (c : Call) (answer : Settled A) : T A := ([c], answer).

(** A step without calls that may throw a [TypeError]. *)
Definition lift {A} (o : outcome A) : T A :=
  ([], match o with
       | Returned a => Resolved a
       | Threw e => RejectedWith (AnError e)
       end).

(** [try { m } catch (err) { if (err instanceof Error) {
    console.log(err.message); throw new Error(err.message) } throw new
    Error(...) }], where the last error has the message Unknown error.
    What leaves the function is a new [Error] in both branches. *)
Definition logAndRethrow {A} (m : T A) : list Call * outcome A :=
  match m with
  | (l, RejectedWith (AnError err)) =>
      (l ++ [ConsoleLog (message err)], Threw {| message := message err |})
  | (l, RejectedWith NotAnError) =>
      (l, Threw {| message := "Unknown error" |})
  | (l, Resolved a) => (l, Returned a)
  end.

(** [items.find((itemQuery) => itemQuery.itemId === item.id)]. *)
Definition itemProvided (items : list CheckoutItem) (item : Listing)
  : option CheckoutItem :=
  find (fun itemQuery => String.eqb (itemId itemQuery) (id item)) items.

(** [xs.join(",")] where a missing element is written as the empty
    string. *)
Definition joinOptional (xs : list (option string)) : string :=
  join "," (map (fun x => nullish x "") xs).

(** The callback of [listingsPurchased.map]: its properties are
    evaluated in the order of the source, so the first missing value
    decides the error. *)
Definition lineItemOf (b : Backend) (items : list CheckoutItem)
    (item : Listing) : outcome LineItem :=
  match images item with
  | [] => Threw {| message := typeErrorMessage b ReadImageUrl |}
  | first :: _ =>
      let vinRead :=
        match parts item with
        | [] => Returned None
        | part :: _ =>
            match donor part with
            | Some d => Returned (Some (vin d))
            | None => Threw {| message := typeErrorMessage b ReadDonorVin |}
            end
        end in
      match vinRead with
      | Threw e => Threw e
      | Returned v =>
          match itemProvided items item with
          | None => Threw {| message := typeErrorMessage b ReadQuantity |}
          | Some provided =>
              Returned
                {| price_data :=
                     {| pd_currency := "aud";
                        product_data :=
                          {| pd_name := title item;
                             pd_images := [url first];
                             metadata :=
                               {| VIN := v;
                                  inventoryLocations :=
                                    joinOptional
                                      (map (fun part =>
                                              option_map name
                                                (inventoryLocation part))
                                           (parts item)) |} |};
                        unit_amount := mul (price item) (num 100) |};
                   li_quantity := quantity provided |}
          end
      end
  end.

(** [xs.map(f)] for a callback that may throw: the first throw ends it. *)
Fixpoint mapThrowing {A B} (f : A -> outcome B) (xs : list A) : outcome (list B) :=
  match xs with
  | [] => Returned []
  | x :: rest =>
      match f x with
      | Threw e => Threw e
      | Returned y =>
          match mapThrowing f rest with
          | Threw e => Threw e
          | Returned ys => Returned (y :: ys)
          end
      end
  end.

(** [stripeLineItems.reduce((acc, cur) => acc + cur.price_data.unit_amount
    * cur.quantity, 0)]. *)
Definition subtotalOf (lineItems : list LineItem) : number :=
  fold_left
    (fun acc cur => add acc (mul (unit_amount (price_data cur)) (li_quantity cur)))
    lineItems (num 0).

(** The body of [for (const item of listingsPurchased)]. *)
Fixpoint writeOrderItems (b : Backend) (items : list CheckoutItem)
    (orderId : string) (listings : list Listing) : T unit :=
  match listings with
  | [] => pure tt
  | item :: rest =>
      andThen
        (lift match itemProvided items item with
              | Some provided => Returned (quantity provided)
              | None => Threw {| message := typeErrorMessage b ReadQuantity |}
              end)
        (fun q =>
           let data := {| oi_listingId := id item;
                          oi_quantity := q;
                          oi_orderId := orderId |} in
           andThen (call (OrderItemCreate data) (orderItem_create b data))
             (fun orderItemId =>
                andThen (call (OrderUpdate orderId orderItemId)
                           (order_update b orderId orderItemId))
                  (fun _ => writeOrderItems b items orderId rest)))
  end.

Definition redirectURL (b : Backend) : string :=
  match NODE_ENV b with
  | Some env =>
      if String.eqb env "development" then "http://localhost:3000"
      else "https://partedeuro.com.au"
  | None => "https://partedeuro.com.au"
  end.

Definition sessionParams (b : Backend) (input : StripeSessionRequest)
    (customerId orderId : string) (lineItems : list LineItem) : SessionParams :=
  {| sp_customer := customerId;
     sp_payment_method_types := ["card"; "afterpay_clearpay"; "link"];
     sp_phone_number_collection_enabled := true;
     sp_allowed_countries := [countryCode input];
     sp_shipping_options := shippingOptions input;
     sp_line_items := lineItems;
     sp_mode := "payment";
     sp_success_url :=
       (redirectURL b ++ "/checkout/confirmation/" ++ orderId)%string;
     sp_cancel_url := (redirectURL b ++ "/checkout?stripeError=true")%string;
     sp_metadata_orderId := orderId |}.

Definition orderData (input : StripeSessionRequest) (lineItems : list LineItem)
  : OrderData :=
  {| od_email := email input;
     od_name := customerName input;
     od_status :=
       match adminCreated input with
       | Some true => "Pending payment"
       | _ => "PENDING"
       end;
     od_subtotal := subtotalOf lineItems |}.

(** [createStripeSession]; the result is [session.url]. *)
Definition createStripeSession (b : Backend) (input : StripeSessionRequest)
  : list Call * outcome (option string) :=
  logAndRethrow
    (let ids := map itemId (items input) in
     andThen (call (ListingFindMany ids) (listing_findMany b ids))
       (fun listingsPurchased =>
     andThen (call (CustomersCreate (email input) (customerName input))
                (customers_create b (email input) (customerName input)))
       (fun customer =>
     andThen (lift (mapThrowing (lineItemOf b (items input)) listingsPurchased))
       (fun stripeLineItems =>
     let data := orderData input stripeLineItems in
     andThen (call (OrderCreate data) (order_create b data))
       (fun order =>
     andThen (writeOrderItems b (items input) order listingsPurchased)
       (fun _ =>
     let params := sessionParams b input customer order stripeLineItems in
     call (SessionsCreate params) (sessions_create b params))))))).

(** The mutation [getStripeCheckout]: [adminCreated] is not passed on. *)
Definition getStripeCheckout (b : Backend) (items : list CheckoutItem)
    (name email countryCode : string)
    (shippingOptions : list StripeShippingOption)
  : list Call * outcome (option string) :=
  createStripeSession b
    {| shippingOptions := shippingOptions;
       email := email;
       customerName := name;
       items := items;
       countryCode := countryCode;
       adminCreated := None |}.

(** *** Notions used to state the properties *)

(** The calls that write an order item and connect it, for a list of
    listings. *)
Definition orderItemCalls (b : Backend) (items : list CheckoutItem)
    (orderId : string) (listings : list Listing) : list Call :=
  flat_map
    (fun item =>
       match itemProvided items item with
       | Some provided =>
           let data := {| oi_listingId := id item;
                          oi_quantity := quantity provided;
                          oi_orderId := orderId |} in
           match orderItem_create b data with
           | Resolved orderItemId =>
               [OrderItemCreate data; OrderUpdate orderId orderItemId]
           | RejectedWith _ => [OrderItemCreate data]
           end
       | None => []
       end)
    listings.

Definition isLog (c : Call) : bool :=
  match c with
  | ConsoleLog _ => true
  | _ => false
  end.

(** A call that does not reject with a value that is no [Error]. *)
Definition rejectsWithErrors {A} (answer : Settled A) : Prop :=
  answer <> RejectedWith NotAnError.

(** A backend none of whose calls does. *)
Definition errorsOnly (b : Backend) : Prop :=
  (forall ids, rejectsWithErrors (listing_findMany b ids)) /\
  (forall email name, rejectsWithErrors (customers_create b email name)) /\
  (forall data, rejectsWithErrors (order_create b data)) /\
  (forall data, rejectsWithErrors (orderItem_create b data)) /\
  (forall orderId orderItemId,
     rejectsWithErrors (order_update b orderId orderItemId)) /\
  (forall params, rejectsWithErrors (sessions_create b params)).

(** Examples. *)
Definition strut : Listing :=
  {| id := "l1"; title := "E46 front strut"; price := num 120;
     images := [ {| url := "https://img/strut.jpg" |} ];
     parts := [ {| donor := Some {| vin := "WBA123" |};
                   inventoryLocation := Some {| name := "A3" |} |};
                {| donor := Some {| vin := "WBA123" |};
                   inventoryLocation := None |} ] |}.

Definition badge : Listing :=
  {| id := "l2"; title := "Roundel badge"; price := num 15;
     images := [];
     parts := [] |}.

Definition mirror : Listing :=
  {| id := "l3"; title := "Door mirror"; price := num 80;
     images := [ {| url := "https://img/mirror.jpg" |} ];
     parts := [] |}.

Definition shop (listings : list Listing) : Backend :=
  {| NODE_ENV := Some "production";
     listing_findMany := fun _ => Resolved listings;
     customers_create := fun _ _ => Resolved "cus_1";
     order_create := fun _ => Resolved "ord_1";
     orderItem_create := fun data => Resolved ("oi_" ++ oi_listingId data)%string;
     order_update := fun _ _ => Resolved tt;
     sessions_create := fun _ => Resolved (Some "https://checkout.stripe.com/s1");
     typeErrorMessage := fun _ => "undefined is not an object" |}.

Definition cart : list CheckoutItem :=
  [ {| itemId := "l1"; quantity := num 2 |};
    {| itemId := "l3"; quantity := num 1 |};
    {| itemId := "l1"; quantity := num 5 |} ].

Definition request (admin : option bool) : StripeSessionRequest :=
  {| shippingOptions := [pickupShippingOption];
     email := "a@example.com";
     customerName := "Ada";
     items := cart;
     countryCode := "AU";
     adminCreated := admin |}.

(** Whether the order item of a listing is created and connected to the
    order. *)
Definition itemWritten (b : Backend) (items : list CheckoutItem)
    (orderId : string) (item : Listing) : bool :=
  match itemProvided items item with
  | Some provided =>
      match orderItem_create b
              {| oi_listingId := id item;
                 oi_quantity := quantity provided;
                 oi_orderId := orderId |} with
      | Resolved orderItemId =>
          match order_update b orderId orderItemId with
          | Resolved _ => true
          | RejectedWith _ => false
          end
      | RejectedWith _ => false
      end
  | None => false
  end.

(** A backend that cannot create the order item of the listing l3. *)
Definition outOfStock (listings : list Listing) : Backend :=
  {| NODE_ENV := Some "development";
     listing_findMany := fun _ => Resolved listings;
     customers_create := fun _ _ => Resolved "cus_1";
     order_create := fun _ => Resolved "ord_1";
     orderItem_create := fun data =>
       if String.eqb (oi_listingId data) "l3"
       then RejectedWith (AnError {| message := "Foreign key constraint failed" |})
       else Resolved ("oi_" ++ oi_listingId data)%string;
     order_update := fun _ _ => Resolved tt;
     sessions_create := fun _ => Resolved None;
     typeErrorMessage := fun _ => "undefined is not an object" |}.

Definition cartOnce : list CheckoutItem :=
  [ {| itemId := "l1"; quantity := num 2 |};
    {| itemId := "l3"; quantity := num 1 |} ].

Definition requestOf (cart : list CheckoutItem) (admin : option bool)
  : StripeSessionRequest :=
  {| shippingOptions := [pickupShippingOption];
     email := "a@example.com";
     customerName := "Ada";
     items := cart;
     countryCode := "AU";
     adminCreated := admin |}.

(** A backend whose database rejects the query with a value that is not
    an [Error]. *)
Definition oddDatabase (listings : list Listing) : Backend :=
  {| NODE_ENV := Some "production";
     listing_findMany := fun _ => RejectedWith NotAnError;
     customers_create := fun _ _ => Resolved "cus_1";
     order_create := fun _ => Resolved "ord_1";
     orderItem_create := fun data => Resolved ("oi_" ++ oi_listingId data)%string;
     order_update := fun _ _ => Resolved tt;
     sessions_create := fun _ => Resolved (Some "https://checkout.stripe.com/s1");
     typeErrorMessage := fun _ => "undefined is not an object" |}.

End Checkout.

(** ** The quote requests of the freight-broker client *)

Definition isQuoteRequest (r : Request) : bool :=
  match r with
  | InterparcelQuoteReq _ _ _ => true
  | _ => false
  end.

(** The per-service quote requests a computation issued, in order. *)
Definition quoteRequests {A} (m : M A) : list Request :=
  filter isQuoteRequest (requests m).

(** ** Lemmas on the monad *)

Arguments getInterparcelShippingServices : simpl never.
Arguments getDomesticShippingServices : simpl never.
Arguments getAusPostInternationalShippingServices : simpl never.

Lemma bind_Returned {A B} (l : list Effect) (a : A) (k : A -> M B) :
  bind (l, Returned a) k = (l ++ fst (k a), snd (k a)).
Proof. unfold bind. destruct (k a); reflexivity. Qed.

Lemma settled_bind {A B} (m : M A) (k : A -> M B) :
  settled (bind m k) =
  match settled m with
  | Returned a => settled (k a)
  | Threw e => Threw e
  end.
Proof.
  destruct m as [l [a | e]]; unfold settled; simpl; [destruct (k a) |];
    reflexivity.
Qed.

Lemma settled_try_catch {A} (m : M A) (h : JsError -> M A) :
  settled (try_catch m h) =
  match settled m with
  | Returned a => Returned a
  | Threw e => settled (h e)
  end.
Proof.
  destruct m as [l [a | e]]; unfold settled; simpl; [| destruct (h e)];
    reflexivity.
Qed.

Lemma settled_ret {A} (a : A) : settled (ret a) = Returned a.
Proof. reflexivity. Qed.

Lemma settled_throw {A} (e : JsError) : settled (@throw A e) = Threw e.
Proof. reflexivity. Qed.

Lemma settled_console_error (label detail : string) :
  settled (console_error label detail) = Returned tt.
Proof. reflexivity. Qed.

(** Pushes [settled] through the monadic structure of a computation. *)
Ltac run_settled :=
  repeat (rewrite ?settled_bind, ?settled_try_catch, ?settled_ret,
            ?settled_throw, ?settled_console_error;
          cbv beta iota).

Lemma requestsOf_app (l l' : list Effect) :
  requestsOf (l ++ l') = requestsOf l ++ requestsOf l'.
Proof. apply flat_map_app. Qed.

(** ** Lemmas on the freight-broker client *)

Lemma quoteService_eq (w : World) (input : ShippingServicesInput)
    (cookieHeader csrfToken : string) (service : InterparcelShippingService) :
  quoteService w input cookieHeader csrfToken service =
  ([ Fetch (InterparcelQuoteReq (quoteSearchParams input service)
              cookieHeader csrfToken) ],
   Returned
     (usableQuote
        (interparcelQuote w (quoteSearchParams input service)
           cookieHeader csrfToken))).
Proof.
  unfold quoteService, quoteSearchParams, usableQuote, fetch, await.
  destruct (interparcelQuote w _ cookieHeader csrfToken) as [response | e];
    [| reflexivity].
  simpl. destruct (ok response); simpl; [| reflexivity].
  destruct (json response) as [data | e]; simpl; [| reflexivity].
  destruct (isq_services data) as [[| first rest] |]; reflexivity.
Qed.

Lemma settleAll_quotes (w : World) (input : ShippingServicesInput)
    (cookieHeader csrfToken : string)
    (candidates : list InterparcelShippingService) :
  snd (settleAll (map (quoteService w input cookieHeader csrfToken) candidates))
  = map (fun service =>
           fulfilled
             (usableQuote
                (interparcelQuote w (quoteSearchParams input service)
                   cookieHeader csrfToken)))
        candidates /\
  requestsOf
    (fst (settleAll (map (quoteService w input cookieHeader csrfToken)
                         candidates)))
  = map (fun service =>
           InterparcelQuoteReq (quoteSearchParams input service)
             cookieHeader csrfToken)
        candidates.
Proof.
  induction candidates as [| service rest [IH IHr]]; [split; reflexivity |].
  simpl. rewrite quoteService_eq.
  destruct (settleAll _) as [log rs]. simpl in *.
  now rewrite IH, IHr.
Qed.

Lemma allSettled_quotes (w : World) (input : ShippingServicesInput)
    (cookieHeader csrfToken : string)
    (candidates : list InterparcelShippingService) :
  exists log,
    Promise_allSettled
      (map (quoteService w input cookieHeader csrfToken) candidates) =
    (log,
     Returned
       (map (fun service =>
               fulfilled
                 (usableQuote
                    (interparcelQuote w (quoteSearchParams input service)
                       cookieHeader csrfToken)))
            candidates)) /\
    requestsOf log =
    map (fun service =>
           InterparcelQuoteReq (quoteSearchParams input service)
             cookieHeader csrfToken)
        candidates.
Proof.
  destruct (settleAll_quotes w input cookieHeader csrfToken candidates)
    as [Hs Hr].
  unfold Promise_allSettled.
  destruct (settleAll _) as [log rs]. simpl in *.
  exists log. now rewrite Hs.
Qed.

Lemma validServicesOf_fulfilled {S} (f : S -> option StripeShippingOption)
    (candidates : list S) :
  validServicesOf (map (fun service => fulfilled (f service)) candidates) =
  flat_map (fun service => match f service with Some o => [o] | None => [] end)
           candidates.
Proof.
  induction candidates as [| service rest IH]; simpl; [reflexivity |].
  destruct (f service); simpl; now rewrite IH.
Qed.

(** The freight-broker client, once the availability call and the
    session bootstrap went through: the surviving quotes decide. *)
Lemma interparcel_after_bootstrap (w : World) (input : ShippingServicesInput)
    (data : InterparcelShippingServicesResponse) (page : QuotePage) :
  interparcelAvailability w (availabilitySearchParams input) = Returned data ->
  truthy (isr_errorMessage data) = false ->
  interparcelQuotePage w (quotePageParams input) = Returned page ->
  falsy (phpSessIdOf (cookieJar page)) = false ->
  falsy (metaMatch page) = false ->
  let valid :=
    survivingQuotes w input (cookieHeaderOf (cookieJar page))
      (nullish (metaMatch page) "") (candidateServices input data) in
  settled (getInterparcelShippingServices w input) =
  match valid with
  | [] => Threw {| message :=
            "Unable to ship this item to the destination country" |}
  | _ :: _ => Returned (slice0 4 valid)
  end.
Proof.
  intros Hav Herr Hpage Hsess Hcsrf valid. subst valid.
  unfold getInterparcelShippingServices, fetch.
  rewrite Hav, bind_Returned, Herr, Hpage. cbv zeta.
  unfold settled. cbn [snd]. rewrite bind_Returned, Hsess, Hcsrf.
  destruct (allSettled_quotes w input (cookieHeaderOf (cookieJar page))
              (nullish (metaMatch page) "") (candidateServices input data))
    as [log [Hq _]].
  rewrite Hq, bind_Returned, validServicesOf_fulfilled.
  fold (survivingQuotes w input (cookieHeaderOf (cookieJar page))
          (nullish (metaMatch page) "") (candidateServices input data)).
  destruct (survivingQuotes _ _ _ _ _); reflexivity.
Qed.

Lemma usableQuote_freight (answer : outcome QuoteResponse) (o : StripeShippingOption) :
  usableQuote answer = Some o -> isFreightOption o.
Proof.
  unfold usableQuote.
  destruct answer as [response | e]; [| discriminate].
  destruct (ok response); [| discriminate].
  destruct (json response) as [data | e]; [| discriminate].
  destruct (isq_services data) as [[| first rest] |]; try discriminate.
  intros [= <-]. now exists first.
Qed.

Lemma survivingQuotes_freight (w : World) (input : ShippingServicesInput)
    (cookieHeader csrfToken : string)
    (candidates : list InterparcelShippingService) :
  Forall isFreightOption
    (survivingQuotes w input cookieHeader csrfToken candidates).
Proof.
  unfold survivingQuotes.
  induction candidates as [| service rest IH]; simpl; [constructor |].
  destruct (usableQuote _) as [o |] eqn:E; simpl; [| exact IH].
  constructor; [now apply usableQuote_freight in E | exact IH].
Qed.

Lemma Forall_firstn {A} (P : A -> Prop) (n : nat) (l : list A) :
  Forall P l -> Forall P (firstn n l).
Proof.
  intros H. revert n.
  induction H as [| x l Hx Hl IH]; intros [| n]; simpl; constructor; auto.
Qed.

(** Whenever the freight-broker client returns, it returns between one
    and four options, all of them made from quotes. *)
Lemma interparcel_returns (w : World) (input : ShippingServicesInput)
    (l : list StripeShippingOption) :
  settled (getInterparcelShippingServices w input) = Returned l ->
  l <> [] /\ (List.length l <= 4)%nat /\ Forall isFreightOption l.
Proof.
  destruct (interparcelAvailability w (availabilitySearchParams input))
    as [data | e] eqn:Hav.
  2:{ unfold getInterparcelShippingServices, fetch. rewrite Hav. discriminate. }
  destruct (truthy (isr_errorMessage data)) eqn:Herr.
  { unfold getInterparcelShippingServices, fetch.
    rewrite Hav, bind_Returned, Herr. discriminate. }
  destruct (interparcelQuotePage w (quotePageParams input))
    as [page | e] eqn:Hpage.
  2:{ unfold getInterparcelShippingServices, fetch.
      rewrite Hav, bind_Returned, Herr, Hpage. discriminate. }
  destruct (falsy (phpSessIdOf (cookieJar page))) eqn:Hsess.
  { unfold getInterparcelShippingServices, fetch.
    rewrite Hav, bind_Returned, Herr, Hpage. cbv zeta.
    unfold settled. cbn [snd]. rewrite bind_Returned, Hsess. discriminate. }
  destruct (falsy (metaMatch page)) eqn:Hcsrf.
  { unfold getInterparcelShippingServices, fetch.
    rewrite Hav, bind_Returned, Herr, Hpage. cbv zeta.
    unfold settled. cbn [snd]. rewrite bind_Returned, Hsess, Hcsrf.
    discriminate. }
  pose proof (interparcel_after_bootstrap w input data page
                Hav Herr Hpage Hsess Hcsrf) as Hres.
  cbv zeta in Hres. rewrite Hres.
  pose proof (survivingQuotes_freight w input (cookieHeaderOf (cookieJar page))
                (nullish (metaMatch page) "") (candidateServices input data))
    as Hall.
  destruct (survivingQuotes _ _ _ _ _) as [| o rest]; [discriminate |].
  intros H. assert (l = slice0 4 (o :: rest)) as -> by congruence.
  repeat split.
  - discriminate.
  - apply firstn_le_length.
  - now apply Forall_firstn.
Qed.

(** ** The freight-broker client tolerates per-service failures *)

(** C4. In the freight-broker client, once the availability call and the
    session bootstrap went through, every per-service quote call settles
    without failing the whole: a call that throws, answers with a
    non-success status, has an unreadable body, or has a missing or empty
    service array yields nothing, any other call yields the option made
    from its first quoted service.  The client fails if and only if no
    usable quote remains, and then with the message "Unable to ship this
    item to the destination country"; otherwise it returns the first four
    usable quotes in the order of the provider's candidate list, without
    sorting them. *)
Theorem C4_freight_partial_failures
    (w : World) (input : ShippingServicesInput)
    (data : InterparcelShippingServicesResponse) (page : QuotePage) :
  interparcelAvailability w (availabilitySearchParams input) = Returned data ->
  truthy (isr_errorMessage data) = false ->
  interparcelQuotePage w (quotePageParams input) = Returned page ->
  falsy (phpSessIdOf (cookieJar page)) = false ->
  falsy (metaMatch page) = false ->
  let cookieHeader := cookieHeaderOf (cookieJar page) in
  let csrfToken := nullish (metaMatch page) "" in
  let answer service :=
    interparcelQuote w (quoteSearchParams input service) cookieHeader csrfToken in
  let call service :=
    settled (quoteService w input cookieHeader csrfToken service) in
  let valid :=
    flat_map (fun service =>
                match call service with
                | Returned (Some o) => [o]
                | _ => []
                end)
             (candidateServices input data) in
  (forall service e, answer service = Threw e -> call service = Returned None) /\
  (forall service r, answer service = Returned r -> ok r = false ->
     call service = Returned None) /\
  (forall service r e, answer service = Returned r -> json r = Threw e ->
     call service = Returned None) /\
  (forall service r d, answer service = Returned r -> json r = Returned d ->
     isq_services d = None \/ isq_services d = Some [] ->
     call service = Returned None) /\
  (forall service r d first rest, answer service = Returned r ->
     ok r = true -> json r = Returned d ->
     isq_services d = Some (first :: rest) ->
     call service = Returned (Some (freightOption first))) /\
  ((exists e, settled (getInterparcelShippingServices w input) = Threw e)
   <-> valid = []) /\
  (valid = [] ->
   settled (getInterparcelShippingServices w input) =
   Threw {| message := "Unable to ship this item to the destination country" |}) /\
  (valid <> [] ->
   settled (getInterparcelShippingServices w input) = Returned (firstn 4 valid)).
Proof.
  intros Hav Herr Hpage Hsess Hcsrf cookieHeader csrfToken answer call valid.
  assert (Hcall : forall service, call service = Returned (usableQuote (answer service))).
  { intros service. unfold call, answer. now rewrite quoteService_eq. }
  assert (Hvalid : valid =
                   survivingQuotes w input cookieHeader csrfToken
                     (candidateServices input data)).
  { unfold valid, survivingQuotes.
    induction (candidateServices input data) as [| service rest IH];
      simpl; [reflexivity |].
    now rewrite IH, Hcall. }
  pose proof (interparcel_after_bootstrap w input data page
                Hav Herr Hpage Hsess Hcsrf) as Hres.
  cbv zeta in Hres.
  fold cookieHeader csrfToken in Hres. rewrite <- Hvalid in Hres.
  repeat match goal with |- _ /\ _ => split end.
  - intros service e H. rewrite Hcall, H. reflexivity.
  - intros service r H Hok. rewrite Hcall, H. simpl. now rewrite Hok.
  - intros service r e H Hjson. rewrite Hcall, H. simpl.
    rewrite Hjson. now destruct (ok r).
  - intros service r d H Hjson Hs. rewrite Hcall, H. simpl. rewrite Hjson.
    destruct (ok r); [| reflexivity]. now destruct Hs as [-> | ->].
  - intros service r d first rest H Hok Hjson Hs. rewrite Hcall, H. simpl.
    now rewrite Hok, Hjson, Hs.
  - rewrite Hres. destruct valid; split; intros H; try discriminate.
    + reflexivity.
    + eexists; reflexivity.
    + now destruct H.
  - intros Hv. rewrite Hres, Hv. reflexivity.
  - intros Hv. rewrite Hres. destruct valid; [now destruct Hv | reflexivity].
Qed.

(** With every endpoint answering, eight candidates of which one is on the
    deny list, one answers with a failure status and one with an empty
    service array: five quotes survive and the first four are returned. *)
Lemma C4_freight_partial_failures_witness :
  settled (getInterparcelShippingServices Examples.world_up
             (Examples.mkInput 25 50 40 30 "AU" true)) =
  Returned
    [ mkOption (num 4550) "AUD" "TNT - Road Express";
      mkOption (num 3120) "AUD" "Couriers Please - Standard";
      mkOption (num 8800) "AUD" "Northline - General";
      mkOption (num 2995) "AUD" "Allied - Overnight" ].
Proof.
  pose proof (C4_freight_partial_failures Examples.world_up
                (Examples.mkInput 25 50 40 30 "AU" true)
                Examples.availabilityAnswer Examples.sessionPage
                eq_refl eq_refl eq_refl eq_refl eq_refl) as H.
  cbv zeta in H.
  destruct H as (_ & _ & _ & _ & _ & _ & _ & H).
  rewrite H; [reflexivity | discriminate].
Defined.

(** ** The postal clients *)

Lemma filter_map_comm {A B} (f : A -> B) (p : B -> bool) (l : list A) :
  filter p (map f l) = map f (filter (fun a => p (f a)) l).
Proof.
  induction l as [| a l IH]; simpl; [reflexivity |].
  destruct (p (f a)); simpl; now rewrite IH.
Qed.

Lemma international_eq (w : World) (input : ShippingServicesInput)
    (data : AvailableShippingServicesResponse) :
  auspostInternational w (destinationCountry input) (weight input)
  = Returned data ->
  settled (getAusPostInternationalShippingServices w input) =
  Returned
    (map postalOption
       (filter (fun service =>
                  String.eqb (aps_name service) "Standard"
                  || String.eqb (aps_name service) "Express")
               (services_service data))).
Proof.
  intros Hdata.
  unfold getAusPostInternationalShippingServices, fetch.
  rewrite Hdata, bind_Returned. unfold settled, ret. cbn [snd].
  f_equal.
  change (fun service : AusPostShippingService =>
            mkOption
              (Math_ceil (mul (Number_ofString (aps_price service)) (num 100)))
              "AUD" (aps_name service)) with postalOption.
  rewrite filter_map_comm. f_equal. apply filter_ext. intros service.
  unfold array_includes, supportedShippingMethods. simpl.
  now rewrite orb_false_r.
Qed.

(** C7. The international-postal client returns exactly the entries of the
    provider's answer whose name is "Standard" or "Express", each turned
    into an option and in the provider's order; every other entry is
    dropped, and whatever the names are the client does not fail once the
    provider has answered. *)
Theorem C7_international_allow_list
    (w : World) (input : ShippingServicesInput)
    (data : AvailableShippingServicesResponse) :
  auspostInternational w (destinationCountry input) (weight input)
  = Returned data ->
  settled (getAusPostInternationalShippingServices w input) =
  Returned
    (map postalOption
       (filter (fun service =>
                  String.eqb (aps_name service) "Standard"
                  || String.eqb (aps_name service) "Express")
               (services_service data))) /\
  (forall l, settled (getAusPostInternationalShippingServices w input)
             = Returned l ->
     forall o, In o l <->
       exists service,
         In service (services_service data) /\
         (aps_name service = "Standard" \/ aps_name service = "Express") /\
         o = postalOption service).
Proof.
  intros Hdata.
  pose proof (international_eq w input data Hdata) as Heq.
  split; [exact Heq |].
  intros l Hl o. rewrite Heq in Hl. injection Hl as <-.
  rewrite in_map_iff. split.
  - intros [service [<- Hin]]. apply filter_In in Hin as [Hin Hname].
    exists service. repeat split; [exact Hin |].
    now rewrite orb_true_iff, !String.eqb_eq in Hname.
  - intros [service [Hin [Hname ->]]]. exists service. split; [reflexivity |].
    apply filter_In. split; [exact Hin |].
    now rewrite orb_true_iff, !String.eqb_eq.
Qed.

(** The provider lists four services, two of them on the allow-list. *)
Lemma C7_international_allow_list_witness :
  settled (getAusPostInternationalShippingServices Examples.world_up
             (Examples.mkInput 5 50 40 30 "US" false)) =
  Returned [ mkOption (num 5030) "AUD" "Express";
             mkOption (num 3530) "AUD" "Standard" ].
Proof.
  rewrite (proj1 (C7_international_allow_list Examples.world_up
                    (Examples.mkInput 5 50 40 30 "US" false)
                    Examples.internationalAnswer eq_refl)).
  reflexivity.
Defined.

(** The domestic client on an answer that lists both service codes, the
    regular one with an empty price: it fails although both codes are
    present. *)
Lemma C6_counterexample :
  let data := Examples.domesticAnswerUnpriced in
  let input := Examples.mkInput 5 50 40 30 "AU" false in
  (exists regular express,
     serviceWithCode "AUS_PARCEL_REGULAR" data = Some regular /\
     serviceWithCode "AUS_PARCEL_EXPRESS" data = Some express) /\
  settled (getDomesticShippingServices Examples.world_unpriced input) =
  Threw {| message := "Shipping not available" |} /\
  forall l, settled (getDomesticShippingServices Examples.world_unpriced input)
            <> Returned l.
Proof.
  cbv zeta. split; [| split].
  - do 2 eexists. split; reflexivity.
  - reflexivity.
  - intros l. discriminate.
Qed.

Lemma serviceWithCode_absent (code : string)
    (data : AvailableShippingServicesResponse) :
  (forall service, In service (services_service data) ->
                   aps_code service <> code) ->
  serviceWithCode code data = None.
Proof.
  intros H. unfold serviceWithCode.
  destruct (find _ _) as [service |] eqn:E; [| reflexivity].
  apply find_some in E as [Hin Hcode].
  apply String.eqb_eq in Hcode. now apply H in Hin.
Qed.

(** C6 (amended). The domestic-postal client fails with the error "Shipping
    not available" whenever one of the two service codes is absent from the
    provider's answer, and also when the first entry carrying one of them
    has an empty price; when both codes are present with a non-empty price
    it returns exactly two options, the regular one and then the express
    one, never one of them alone. *)
Theorem C6_domestic_both_tiers
    (w : World) (input : ShippingServicesInput)
    (data : AvailableShippingServicesResponse) :
  auspostDomestic w (length input) (width input) (height input)
    (weight input) (postcode partedEuroAddress) (destinationPostcode input)
  = Returned data ->
  let failed :=
    settled (getDomesticShippingServices w input) =
    Threw {| message := "Shipping not available" |} in
  ((forall service, In service (services_service data) ->
                    aps_code service <> "AUS_PARCEL_REGULAR") -> failed) /\
  ((forall service, In service (services_service data) ->
                    aps_code service <> "AUS_PARCEL_EXPRESS") -> failed) /\
  (forall service,
     serviceWithCode "AUS_PARCEL_REGULAR" data = Some service \/
     serviceWithCode "AUS_PARCEL_EXPRESS" data = Some service ->
     aps_price service = "" -> failed) /\
  (forall regular express,
     serviceWithCode "AUS_PARCEL_REGULAR" data = Some regular ->
     serviceWithCode "AUS_PARCEL_EXPRESS" data = Some express ->
     aps_price regular <> "" -> aps_price express <> "" ->
     settled (getDomesticShippingServices w input) =
     Returned
       [ mkOption
           (Math_ceil (mul (Number_ofString (aps_price regular)) (num 100)))
           "AUD" "AusPost Regular";
         mkOption
           (Math_ceil (mul (Number_ofString (aps_price express)) (num 100)))
           "AUD" "AusPost Express" ]) /\
  (failed \/ exists regular express,
               settled (getDomesticShippingServices w input) =
               Returned [regular; express]).
Proof.
  intros Hdata failed.
  assert (Hrun : settled (getDomesticShippingServices w input) =
            if falsy (option_map aps_price
                        (serviceWithCode "AUS_PARCEL_EXPRESS" data))
               || falsy (option_map aps_price
                           (serviceWithCode "AUS_PARCEL_REGULAR" data))
            then Threw {| message := "Shipping not available" |}
            else Returned
                   [ mkOption
                       (Math_ceil
                          (mul (Number_ofOptString
                                  (option_map aps_price
                                     (serviceWithCode "AUS_PARCEL_REGULAR" data)))
                               (num 100)))
                       "AUD" "AusPost Regular";
                     mkOption
                       (Math_ceil
                          (mul (Number_ofOptString
                                  (option_map aps_price
                                     (serviceWithCode "AUS_PARCEL_EXPRESS" data)))
                               (num 100)))
                       "AUD" "AusPost Express" ]).
  { unfold getDomesticShippingServices, fetch.
    rewrite Hdata, bind_Returned. cbv zeta. unfold serviceWithCode.
    unfold settled. cbn [snd]. now destruct (_ || _). }
  unfold failed. repeat match goal with |- _ /\ _ => split end.
  - intros Habs. rewrite Hrun, (serviceWithCode_absent _ _ Habs).
    simpl. now rewrite orb_true_r.
  - intros Habs. rewrite Hrun, (serviceWithCode_absent _ _ Habs).
    reflexivity.
  - intros service [Hs | Hs] Hp; rewrite Hrun, Hs; simpl; rewrite Hp; simpl;
      [now rewrite orb_true_r | reflexivity].
  - intros regular express Hr He Hpr Hpe. rewrite Hrun, Hr, He. simpl.
    destruct (aps_price regular); [now destruct Hpr |].
    destruct (aps_price express); [now destruct Hpe |]. reflexivity.
  - rewrite Hrun. destruct (_ || _); [now left | right].
    do 2 eexists. reflexivity.
Qed.

(** Both tiers are listed with a price: the two options come back. *)
Lemma C6_domestic_both_tiers_witness :
  settled (getDomesticShippingServices Examples.world_up
             (Examples.mkInput 5 50 40 30 "AU" false)) =
  Returned [ mkOption (num 1095) "AUD" "AusPost Regular";
             mkOption (num 1445) "AUD" "AusPost Express" ].
Proof.
  pose proof (C6_domestic_both_tiers Examples.world_up
                (Examples.mkInput 5 50 40 30 "AU" false)
                Examples.domesticAnswer eq_refl) as H.
  cbv zeta in H. destruct H as (_ & _ & _ & H & _).
  rewrite (H _ _ eq_refl eq_refl); [reflexivity | discriminate | discriminate].
Defined.

(** ** The three branches of [getShippingServices] *)

Lemma heavy_branch (w : World) (ctx : Ctx) (input : ShippingServicesInput) :
  ge (weight input) (num 20) = true ->
  settled (getShippingServices w ctx input) =
  match settled (getInterparcelShippingServices w input) with
  | Returned l =>
      Returned
        (prependAdmin ctx
           (if String.eqb (destinationCountry input) "AU"
            then l ++ [pickupShippingOption] else l))
  | Threw e =>
      if String.eqb (destinationCountry input) "AU"
      then Returned (prependAdmin ctx [pickupShippingOption])
      else Threw e
  end.
Proof.
  intros Hge. unfold getShippingServices. cbv zeta. rewrite Hge.
  rewrite settled_bind, settled_try_catch.
  destruct (settled (getInterparcelShippingServices w input)) as [l | e].
  - reflexivity.
  - destruct (String.eqb (destinationCountry input) "AU"); reflexivity.
Qed.

Lemma international_branch (w : World) (ctx : Ctx) (input : ShippingServicesInput) :
  ge (weight input) (num 20) = false ->
  String.eqb (destinationCountry input) "AU" = false ->
  settled (getShippingServices w ctx input) =
  match settled (if fitsPostal input
                 then getAusPostInternationalShippingServices w input
                 else getInterparcelShippingServices w input) with
  | Returned l => Returned (prependAdmin ctx l)
  | Threw e => Threw e
  end.
Proof.
  intros Hge Hau. unfold getShippingServices. cbv zeta. rewrite Hge, Hau.
  cbn [negb]. rewrite settled_bind.
  destruct (settled _) as [l | e]; reflexivity.
Qed.

Lemma domestic_branch (w : World) (ctx : Ctx) (input : ShippingServicesInput) :
  ge (weight input) (num 20) = false ->
  String.eqb (destinationCountry input) "AU" = true ->
  settled (getShippingServices w ctx input) =
  Returned
    (slice0 4
       (prependAdmin ctx
          (pickupShippingOption ::
           (if fitsPostal input
            then orEmpty (settled (getDomesticShippingServices w input)) ++
                 orEmpty (settled (getInterparcelShippingServices w input))
            else orEmpty (settled (getInterparcelShippingServices w input)) ++
                 [])))).
Proof.
  intros Hge Hau. unfold getShippingServices. cbv zeta. rewrite Hge, Hau.
  cbn [negb]. rewrite settled_bind.
  destruct (fitsPostal input).
  - run_settled.
    destruct (settled (getDomesticShippingServices w input)) as [l | e];
      run_settled;
      destruct (settled (getInterparcelShippingServices w input)) as [l' | e'];
      run_settled; reflexivity.
  - run_settled.
    destruct (settled (getInterparcelShippingServices w input)) as [l' | e'];
      run_settled; reflexivity.
Qed.

(** ** Heavy requests and a failing freight broker *)

(** A heavy domestic request by a staff member while the freight broker is
    unreachable: the error is swallowed, and the list is the admin option
    followed by the pickup option, not the pickup option alone. *)
Lemma C1_counterexample :
  let input := Examples.mkInput 25 50 40 30 "AU" false in
  ge (weight input) (num 20) = true /\
  destinationCountry input = "AU" /\
  settled (getInterparcelShippingServices Examples.world_down input) =
  Threw {| message := "fetch failed" |} /\
  settled (getShippingServices Examples.world_down Examples.staff input) =
  Returned [adminShippingOption; pickupShippingOption] /\
  settled (getShippingServices Examples.world_down Examples.staff input) <>
  Returned [pickupShippingOption].
Proof.
  cbv zeta. repeat split; try reflexivity. discriminate.
Qed.

(** C1 (amended). For a request with weight >= 20 whose freight-broker call
    fails: when the destination is "AU" the error is swallowed and the
    procedure returns the pickup option alone for an ordinary caller, and
    the admin option followed by the pickup option for an admin caller
    (never an empty list, never an error); when the destination is not
    "AU" the very error of the freight broker is what the procedure fails
    with, and no list is returned. *)
Theorem C1_heavy_freight_failure
    (w : World) (ctx : Ctx) (input : ShippingServicesInput) (e : JsError) :
  ge (weight input) (num 20) = true ->
  settled (getInterparcelShippingServices w input) = Threw e ->
  (destinationCountry input = "AU" ->
   settled (getShippingServices w ctx input) =
   Returned (if isAdminOf ctx
             then [adminShippingOption; pickupShippingOption]
             else [pickupShippingOption])) /\
  (destinationCountry input <> "AU" ->
   settled (getShippingServices w ctx input) = Threw e).
Proof.
  intros Hge Hfail. rewrite (heavy_branch w ctx input Hge), Hfail. split.
  - intros Hau. apply String.eqb_eq in Hau. rewrite Hau.
    unfold prependAdmin. now destruct (isAdminOf ctx).
  - intros Hau. apply String.eqb_neq in Hau. now rewrite Hau.
Qed.

(** The freight broker is unreachable: an ordinary caller gets the pickup
    option for "AU" and the error for "US". *)
Lemma C1_heavy_freight_failure_witness :
  settled (getShippingServices Examples.world_down Examples.anonymous
             (Examples.mkInput 25 50 40 30 "AU" false)) =
  Returned [pickupShippingOption] /\
  settled (getShippingServices Examples.world_down Examples.anonymous
             (Examples.mkInput 25 50 40 30 "US" false)) =
  Threw {| message := "fetch failed" |}.
Proof.
  split.
  - apply (proj1 (C1_heavy_freight_failure Examples.world_down
                    Examples.anonymous
                    (Examples.mkInput 25 50 40 30 "AU" false)
                    {| message := "fetch failed" |} eq_refl eq_refl)).
    reflexivity.
  - apply (proj2 (C1_heavy_freight_failure Examples.world_down
                    Examples.anonymous
                    (Examples.mkInput 25 50 40 30 "US" false)
                    {| message := "fetch failed" |} eq_refl eq_refl)).
    discriminate.
Defined.

(** ** Size of the result *)

(** A heavy domestic request while the freight broker quotes: four quotes
    and the pickup option come back, five options in all (six for a staff
    member). *)
Lemma C2_counterexample :
  let input := Examples.mkInput 25 50 40 30 "AU" false in
  settled (getShippingServices Examples.world_up Examples.anonymous input) =
  Returned
    [ mkOption (num 4550) "AUD" "TNT - Road Express";
      mkOption (num 3120) "AUD" "Couriers Please - Standard";
      mkOption (num 8800) "AUD" "Northline - General";
      mkOption (num 2995) "AUD" "Allied - Overnight";
      pickupShippingOption ] /\
  (exists l,
     settled (getShippingServices Examples.world_up Examples.anonymous input)
     = Returned l /\ (4 < List.length l)%nat) /\
  (exists l,
     settled (getShippingServices Examples.world_up Examples.staff input)
     = Returned l /\ List.length l = 6%nat).
Proof.
  cbv zeta. split; [reflexivity |]. split.
  - eexists. split; [reflexivity |]. simpl. lia.
  - eexists. split; reflexivity.
Qed.

Lemma Returned_inj {A} (a b : A) : Returned a = Returned b -> a = b.
Proof. now intros [= ->]. Qed.

Lemma lt_not_ge (x y : number) : lt x y = true -> ge x y = false.
Proof. unfold lt, ge. now destruct (SFcompare x y) as [[| |] |]. Qed.

Lemma length_prependAdmin (ctx : Ctx) (l : list StripeShippingOption) :
  (List.length (prependAdmin ctx l) <= S (List.length l))%nat.
Proof. unfold prependAdmin. destruct (isAdminOf ctx); simpl; lia. Qed.

(** C2 (amended). The list returned by [getShippingServices] has at most 4
    elements for a domestic request with weight < 20, the one branch that
    truncates.  With weight >= 20 the list is not truncated and has at
    most 6 elements (at most four freight quotes, the pickup option, the
    admin option); a non-domestic request with weight < 20 that goes to the
    freight broker gets at most 5, and one that goes to the international
    postal client gets at most one more than the provider listed. *)
Theorem C2_result_size
    (w : World) (ctx : Ctx) (input : ShippingServicesInput)
    (l : list StripeShippingOption) :
  settled (getShippingServices w ctx input) = Returned l ->
  (lt (weight input) (num 20) = true -> destinationCountry input = "AU" ->
   (List.length l <= 4)%nat) /\
  (ge (weight input) (num 20) = true -> (List.length l <= 6)%nat) /\
  (lt (weight input) (num 20) = true -> destinationCountry input <> "AU" ->
   fitsPostal input = false -> (List.length l <= 5)%nat) /\
  (lt (weight input) (num 20) = true -> destinationCountry input <> "AU" ->
   fitsPostal input = true ->
   forall data,
     auspostInternational w (destinationCountry input) (weight input)
     = Returned data ->
     (List.length l <= S (List.length (services_service data)))%nat).
Proof.
  intros Hl. repeat match goal with |- _ /\ _ => split end.
  - intros Hlt Hau. apply lt_not_ge in Hlt. apply String.eqb_eq in Hau.
    rewrite (domestic_branch w ctx input Hlt Hau) in Hl.
    apply Returned_inj in Hl; subst l. apply firstn_le_length.
  - intros Hge. rewrite (heavy_branch w ctx input Hge) in Hl.
    destruct (settled (getInterparcelShippingServices w input))
      as [quotes | e] eqn:Hq.
    + apply interparcel_returns in Hq as (_ & Hlen & _).
      apply Returned_inj in Hl; subst l.
      etransitivity; [apply length_prependAdmin |].
      destruct (String.eqb _ _); rewrite ?length_app; simpl; lia.
    + destruct (String.eqb _ _); [| discriminate].
      apply Returned_inj in Hl; subst l.
      etransitivity; [apply length_prependAdmin |]. simpl. lia.
  - intros Hlt Hau Hfit. apply lt_not_ge in Hlt. apply String.eqb_neq in Hau.
    rewrite (international_branch w ctx input Hlt Hau), Hfit in Hl.
    destruct (settled (getInterparcelShippingServices w input))
      as [quotes | e] eqn:Hq; [| discriminate].
    apply interparcel_returns in Hq as (_ & Hlen & _).
    apply Returned_inj in Hl; subst l.
    etransitivity; [apply length_prependAdmin |]. lia.
  - intros Hlt Hau Hfit data Hdata.
    apply lt_not_ge in Hlt. apply String.eqb_neq in Hau.
    rewrite (international_branch w ctx input Hlt Hau), Hfit in Hl.
    rewrite (international_eq w input data Hdata) in Hl.
    apply Returned_inj in Hl; subst l.
    etransitivity; [apply length_prependAdmin |].
    rewrite length_map. apply le_n_S, filter_length_le.
Qed.

(** A light domestic request by a staff member while every endpoint
    answers: nine options are gathered and four are returned. *)
Lemma C2_result_size_witness :
  exists l,
    settled (getShippingServices Examples.world_up Examples.staff
               (Examples.mkInput 5 50 40 30 "AU" false)) = Returned l /\
    (List.length l <= 4)%nat.
Proof.
  eexists. split; [reflexivity |].
  apply (proj1 (C2_result_size Examples.world_up Examples.staff
                  (Examples.mkInput 5 50 40 30 "AU" false) _ eq_refl));
    reflexivity.
Defined.

(** ** Which carriers are asked *)

(** A heavy request to "US" whose dimensions are all below 105: the
    freight broker is asked (availability, quote page and six quotes) and
    the international postal service is not. *)
Lemma C3_counterexample :
  let input := Examples.mkInput 25 50 40 30 "US" false in
  lt (length input) (num 105) = true /\
  lt (width input) (num 105) = true /\
  lt (height input) (num 105) = true /\
  destinationCountry input <> "AU" /\
  map carrierOf
    (requests (getShippingServices Examples.world_up Examples.anonymous input))
  = [ FreightBroker; FreightBroker; FreightBroker; FreightBroker;
      FreightBroker; FreightBroker; FreightBroker; FreightBroker ] /\
  In (InterparcelAvailabilityReq (availabilitySearchParams input))
     (requests (getShippingServices Examples.world_up Examples.anonymous input)).
Proof.
  cbv zeta. repeat split; try reflexivity.
  - discriminate.
  - left. reflexivity.
Qed.

Lemma fitsPostal_iff (input : ShippingServicesInput) :
  fitsPostal input = true <->
  lt (length input) (num 105) = true /\
  lt (width input) (num 105) = true /\
  lt (height input) (num 105) = true.
Proof.
  unfold fitsPostal. simpl. rewrite !andb_true_iff. tauto.
Qed.

Lemma international_effects (w : World) (input : ShippingServicesInput) :
  fst (getAusPostInternationalShippingServices w input) =
  [ Fetch (AusPostInternationalReq (destinationCountry input) (weight input)) ].
Proof.
  unfold getAusPostInternationalShippingServices, fetch.
  now destruct (auspostInternational w _ _).
Qed.

Lemma international_branch_effects (w : World) (ctx : Ctx)
    (input : ShippingServicesInput) :
  ge (weight input) (num 20) = false ->
  String.eqb (destinationCountry input) "AU" = false ->
  fitsPostal input = true ->
  fst (getShippingServices w ctx input) =
  fst (getAusPostInternationalShippingServices w input).
Proof.
  intros Hge Hau Hfit. unfold getShippingServices. cbv zeta.
  rewrite Hge, Hau, Hfit. cbn [negb].
  destruct (getAusPostInternationalShippingServices w input) as [log [l | e]];
    simpl; [apply app_nil_r | reflexivity].
Qed.


(** ** The synthetic options *)

(** C5. For a request of an admin caller, whichever branch runs and
    whatever the carriers answer, every list [getShippingServices] returns
    starts with the "Admin Shipping" option, whose amount is 1 in "aud";
    and for a domestic destination a list is always returned. *)
Theorem C5_admin_first
    (w : World) (ctx : Ctx) (input : ShippingServicesInput) :
  isAdminOf ctx = true ->
  (forall l, settled (getShippingServices w ctx input) = Returned l ->
             exists rest, l = adminShippingOption :: rest) /\
  (destinationCountry input = "AU" ->
   exists rest, settled (getShippingServices w ctx input) =
                Returned (adminShippingOption :: rest)) /\
  display_name (shipping_rate_data adminShippingOption) = "Admin Shipping" /\
  amount (fixed_amount (shipping_rate_data adminShippingOption)) = num 1 /\
  currency (fixed_amount (shipping_rate_data adminShippingOption)) = "aud".
Proof.
  intros Hadmin.
  assert (Hpre : forall l, prependAdmin ctx l = adminShippingOption :: l).
  { intros l. unfold prependAdmin. now rewrite Hadmin. }
  split; [| split; [| repeat split]].
  - intros l Hl.
    destruct (ge (weight input) (num 20)) eqn:Hge.
    + rewrite (heavy_branch w ctx input Hge) in Hl.
      destruct (settled (getInterparcelShippingServices w input)) as [q | e].
      * apply Returned_inj in Hl; subst l. rewrite Hpre. eauto.
      * destruct (String.eqb _ _); [| discriminate].
        apply Returned_inj in Hl; subst l. rewrite Hpre. eauto.
    + destruct (String.eqb (destinationCountry input) "AU") eqn:Hau.
      * rewrite (domestic_branch w ctx input Hge Hau), Hpre in Hl.
        apply Returned_inj in Hl; subst l. unfold slice0. simpl. eauto.
      * rewrite (international_branch w ctx input Hge Hau) in Hl.
        destruct (settled _) as [q | e]; [| discriminate].
        apply Returned_inj in Hl; subst l. rewrite Hpre. eauto.
  - intros Hau. apply String.eqb_eq in Hau.
    destruct (ge (weight input) (num 20)) eqn:Hge.
    + rewrite (heavy_branch w ctx input Hge), Hau.
      destruct (settled (getInterparcelShippingServices w input)) as [q | e];
        rewrite Hpre; eauto.
    + rewrite (domestic_branch w ctx input Hge Hau), Hpre.
      unfold slice0. simpl. eauto.
Qed.

(** A staff member asks for a light parcel to "US", a light and a heavy
    parcel to "AU": the admin option comes first each time. *)
Lemma C5_admin_first_witness :
  (exists rest,
     settled (getShippingServices Examples.world_up Examples.staff
                (Examples.mkInput 5 50 40 30 "US" false))
     = Returned (adminShippingOption :: rest)) /\
  (exists rest,
     settled (getShippingServices Examples.world_down Examples.staff
                (Examples.mkInput 25 50 40 30 "AU" false))
     = Returned (adminShippingOption :: rest)).
Proof.
  split.
  - destruct (proj1 (C5_admin_first Examples.world_up Examples.staff
                       (Examples.mkInput 5 50 40 30 "US" false) eq_refl)
                _ eq_refl) as [rest Hrest].
    exists rest. now rewrite <- Hrest.
  - exact (proj1 (proj2 (C5_admin_first Examples.world_down Examples.staff
                           (Examples.mkInput 25 50 40 30 "AU" false) eq_refl))
             eq_refl).
Defined.

Lemma hasHyphen_append (a s : string) :
  hasHyphen s = true -> hasHyphen (a ++ s)%string = true.
Proof.
  intros Hs. induction a as [| c a IH]; simpl; [exact Hs |].
  rewrite IH. apply orb_true_r.
Qed.

Lemma hasHyphen_app (a b : string) :
  hasHyphen (a ++ " - " ++ b)%string = true.
Proof. apply hasHyphen_append. reflexivity. Qed.

Lemma freight_not_pickup (o : StripeShippingOption) :
  isFreightOption o ->
  display_name (shipping_rate_data o) <> "Pickup from Parted Euro".
Proof.
  intros [first ->] H.
  pose proof (hasHyphen_app (iqs_carrier first) (iqs_name first)) as Hh.
  change (display_name (shipping_rate_data (freightOption first)))
    with (iqs_carrier first ++ " - " ++ iqs_name first)%string in H.
  rewrite H in Hh. discriminate.
Qed.

Lemma international_not_pickup (w : World) (input : ShippingServicesInput)
    (l : list StripeShippingOption) :
  settled (getAusPostInternationalShippingServices w input) = Returned l ->
  forall o, In o l ->
            display_name (shipping_rate_data o) <> "Pickup from Parted Euro".
Proof.
  unfold getAusPostInternationalShippingServices, fetch.
  destruct (auspostInternational w _ _) as [data | e]; [| discriminate].
  rewrite bind_Returned. unfold settled, ret. cbn [snd].
  intros Hl o Hin. apply Returned_inj in Hl; subst l.
  apply filter_In in Hin as [_ Hname].
  unfold array_includes, supportedShippingMethods in Hname. simpl in Hname.
  rewrite orb_false_r, orb_true_iff, !String.eqb_eq in Hname.
  destruct Hname as [-> | ->]; discriminate.
Qed.

(** C10. For a request whose destination is not "AU", no element of the
    list returned by [getShippingServices] is the pickup option, and none
    bears its name "Pickup from Parted Euro": the pickup option is added
    only where the destination is "AU". *)
Theorem C10_no_pickup_abroad
    (w : World) (ctx : Ctx) (input : ShippingServicesInput)
    (l : list StripeShippingOption) :
  destinationCountry input <> "AU" ->
  settled (getShippingServices w ctx input) = Returned l ->
  ~ In pickupShippingOption l /\
  (forall o, In o l ->
             display_name (shipping_rate_data o) <> "Pickup from Parted Euro").
Proof.
  intros Hau Hl. apply String.eqb_neq in Hau.
  assert (Hnames : forall o, In o l ->
            display_name (shipping_rate_data o) <> "Pickup from Parted Euro").
  { assert (Hadm : forall carrier,
              (forall o, In o carrier ->
                 display_name (shipping_rate_data o)
                 <> "Pickup from Parted Euro") ->
              forall o, In o (prependAdmin ctx carrier) ->
                 display_name (shipping_rate_data o)
                 <> "Pickup from Parted Euro").
    { intros carrier Hc o. unfold prependAdmin.
      destruct (isAdminOf ctx); [intros [<- | Hin] |]; auto. discriminate. }
    destruct (ge (weight input) (num 20)) eqn:Hge.
    - rewrite (heavy_branch w ctx input Hge), Hau in Hl.
      destruct (settled (getInterparcelShippingServices w input))
        as [q | e] eqn:Hq; [| discriminate].
      apply Returned_inj in Hl; subst l. apply Hadm.
      apply interparcel_returns in Hq as (_ & _ & Hall).
      rewrite Forall_forall in Hall.
      intros o Hin. now apply freight_not_pickup, Hall.
    - rewrite (international_branch w ctx input Hge Hau) in Hl.
      destruct (fitsPostal input).
      + destruct (settled (getAusPostInternationalShippingServices w input))
          as [q | e] eqn:Hq; [| discriminate].
        apply Returned_inj in Hl; subst l. apply Hadm.
        now apply (international_not_pickup w input).
      + destruct (settled (getInterparcelShippingServices w input))
          as [q | e] eqn:Hq; [| discriminate].
        apply Returned_inj in Hl; subst l. apply Hadm.
        apply interparcel_returns in Hq as (_ & _ & Hall).
        rewrite Forall_forall in Hall.
        intros o Hin. now apply freight_not_pickup, Hall. }
  split; [| exact Hnames].
  intros Hin. now apply Hnames in Hin.
Qed.

(** A heavy parcel to "US" for a staff member: five options, none of them
    the pickup option. *)
Lemma C10_no_pickup_abroad_witness :
  exists l,
    settled (getShippingServices Examples.world_up Examples.staff
               (Examples.mkInput 25 50 40 30 "US" false)) = Returned l /\
    List.length l = 5%nat /\
    ~ In pickupShippingOption l.
Proof.
  eexists. split; [reflexivity |]. split; [reflexivity |].
  apply (C10_no_pickup_abroad Examples.world_up Examples.staff
           (Examples.mkInput 25 50 40 30 "US" false) _
           ltac:(discriminate) eq_refl).
Defined.

(** ** Shipment type and padding in the freight-broker requests *)

Lemma lookup_app_l {V} (key : string) (p q : list (string * V)) (v : V) :
  lookup key p = Some v -> lookup key (p ++ q) = Some v.
Proof.
  induction p as [| [k x] p IH]; simpl; [discriminate |].
  destruct (String.eqb k key); auto.
Qed.

Lemma sentSizes_interparcelParams (input : ShippingServicesInput) :
  sentSizes (interparcelParams input) =
  if gt (weight input) (num 35)
  then (Some (toString (add (length input) (num 30))),
        Some (toString (add (width input) (num 30))),
        Some (toString (add (height input) (num 10))))
  else (Some (toString (length input)),
        Some (toString (width input)),
        Some (toString (height input))).
Proof.
  unfold sentSizes, interparcelParams.
  destruct (gt (weight input) (num 35)); reflexivity.
Qed.

Lemma sentSizes_app (p q : Params) (a b c : text) :
  sentSizes p = (Some a, Some b, Some c) ->
  sentSizes (p ++ q) = sentSizes p.
Proof.
  unfold sentSizes. intros [= Ha Hb Hc].
  now rewrite (lookup_app_l _ p q a Ha), (lookup_app_l _ p q b Hb),
    (lookup_app_l _ p q c Hc), Ha, Hb, Hc.
Qed.

Lemma sentSizes_extended (input : ShippingServicesInput) (q : Params) :
  sentSizes (interparcelParams input ++ q) =
  sentSizes (interparcelParams input).
Proof.
  pose proof (sentSizes_interparcelParams input) as H.
  destruct (gt (weight input) (num 35)); eapply sentSizes_app; exact H.
Qed.

Lemma sentType_availability (input : ShippingServicesInput) :
  sentType (availabilitySearchParams input) =
  Some (str (if ge (weight input) (num 35) then "pallet" else "parcel")).
Proof.
  unfold sentType, availabilitySearchParams, interparcelParams.
  destruct (gt (weight input) (num 35)); reflexivity.
Qed.

Lemma interparcel_first_effect (w : World) (input : ShippingServicesInput) :
  hd_error (requests (getInterparcelShippingServices w input)) =
  Some (InterparcelAvailabilityReq (availabilitySearchParams input)).
Proof.
  unfold getInterparcelShippingServices, fetch, requests.
  destruct (interparcelAvailability w _) as [data | e]; [| reflexivity].
  rewrite bind_Returned. reflexivity.
Qed.

Lemma interparcel_requests (w : World) (input : ShippingServicesInput)
    (r : Request) :
  In r (requests (getInterparcelShippingServices w input)) ->
  r = InterparcelAvailabilityReq (availabilitySearchParams input) \/
  r = InterparcelQuotePageReq (quotePageParams input) \/
  exists service cookieHeader csrfToken,
    r = InterparcelQuoteReq (quoteSearchParams input service)
          cookieHeader csrfToken.
Proof.
  unfold getInterparcelShippingServices, fetch, requests.
  destruct (interparcelAvailability w _) as [data | e];
    [| intros [<- | []]; now left].
  rewrite bind_Returned.
  destruct (truthy (isr_errorMessage data));
    [intros [<- | []]; now left |].
  destruct (interparcelQuotePage w _) as [page | e];
    [| intros [<- | [<- | []]]; auto].
  rewrite bind_Returned. cbv zeta.
  destruct (falsy (phpSessIdOf (cookieJar page)));
    [intros [<- | [<- | []]]; auto |].
  destruct (falsy (metaMatch page));
    [intros [<- | [<- | []]]; auto |].
  destruct (allSettled_quotes w input (cookieHeaderOf (cookieJar page))
              (nullish (metaMatch page) "") (candidateServices input data))
    as [log [Hq Hlog]].
  rewrite Hq, bind_Returned. cbn [fst].
  intros [<- | [<- | Hin]]; auto.
  rewrite !app_nil_l, requestsOf_app, Hlog in Hin.
  apply in_app_or in Hin as [Hin | Hin].
  - apply in_map_iff in Hin as [service [<- _]]. right. right. eauto.
  - destruct (validServicesOf _); destruct Hin.
Qed.

(** A request of 40 kg with the sizes 50, 40 and 30.  The weight is above
    35, and the availability request carries the padded sizes 80, 70 and
    40; but the page request with which the same client opens its session
    carries the sizes as given, 50, 40 and 30, in its parameter p. *)
Lemma C9_counterexample :
  let input := Examples.mkInput 40 50 40 30 "AU" false in
  gt (weight input) (num 35) = true /\
  sentSizes (availabilitySearchParams input)
  = (Some (toString (num 80)), Some (toString (num 70)),
     Some (toString (num 40))) /\
  In (InterparcelQuotePageReq (quotePageParams input))
     (requests (getInterparcelShippingServices Examples.world_up input)) /\
  lookup "p" (quotePageParams input)
  = Some [ Num (num 40); Lit "|"; Num (num 50); Lit "|";
           Num (num 40); Lit "|"; Num (num 30) ].
Proof.
  cbv zeta. repeat split; try reflexivity.
  right. left. reflexivity.
Qed.

(** C9 (amended). The freight-broker client opens with the availability
    request, whose shipment type is "pallet" exactly when weight >= 35 and
    "parcel" otherwise; the package sizes sent in it, and in every
    per-service quote request the client issues, are (length + 30,
    width + 30, height + 10) when weight > 35 and the sizes as given
    otherwise.  At weight 35 the type is "pallet" and the sizes are sent
    as given.  The page request that opens the session names the same
    type, but its sizes are never padded: whatever the weight, its
    parameter p is made of the weight and the sizes as given. *)
Theorem C9_pallet_and_padding (w : World) (input : ShippingServicesInput) :
  let sizes :=
    if gt (weight input) (num 35)
    then (Some (toString (add (length input) (num 30))),
          Some (toString (add (width input) (num 30))),
          Some (toString (add (height input) (num 10))))
    else (Some (toString (length input)),
          Some (toString (width input)),
          Some (toString (height input))) in
  hd_error (requests (getInterparcelShippingServices w input)) =
  Some (InterparcelAvailabilityReq (availabilitySearchParams input)) /\
  sentType (availabilitySearchParams input) =
  Some (str (if ge (weight input) (num 35) then "pallet" else "parcel")) /\
  (sentType (availabilitySearchParams input) = Some (str "pallet")
   <-> ge (weight input) (num 35) = true) /\
  sentSizes (availabilitySearchParams input) = sizes /\
  (forall searchParams cookieHeader csrfToken,
     In (InterparcelQuoteReq searchParams cookieHeader csrfToken)
        (requests (getInterparcelShippingServices w input)) ->
     sentSizes searchParams = sizes) /\
  lookup "t" (quotePageParams input) =
  Some (str (if ge (weight input) (num 35) then "pallet" else "parcel")) /\
  (weight input = num 35 ->
   sentType (availabilitySearchParams input) = Some (str "pallet") /\
   sentSizes (availabilitySearchParams input) =
   (Some (toString (length input)),
    Some (toString (width input)),
    Some (toString (height input)))) /\
  (forall params,
     In (InterparcelQuotePageReq params)
        (requests (getInterparcelShippingServices w input)) ->
     lookup "t" params =
     Some (str (if ge (weight input) (num 35) then "pallet" else "parcel")) /\
     lookup "p" params =
     Some [ Num (weight input); Lit "|"; Num (length input); Lit "|";
            Num (width input); Lit "|"; Num (height input) ] /\
     sentSizes params = (None, None, None)).
Proof.
  intros sizes.
  assert (Hsizes : sentSizes (availabilitySearchParams input) =
                   sentSizes (interparcelParams input)).
  { unfold availabilitySearchParams. apply sentSizes_extended. }
  repeat match goal with |- _ /\ _ => split end.
  - apply interparcel_first_effect.
  - apply sentType_availability.
  - rewrite sentType_availability.
    destruct (ge (weight input) (num 35)); split; intros H;
      try reflexivity; discriminate.
  - rewrite Hsizes. apply sentSizes_interparcelParams.
  - intros searchParams cookieHeader csrfToken Hin.
    apply interparcel_requests in Hin
      as [H | [H | (service & c & t & H)]]; try discriminate.
    injection H as -> _ _. unfold quoteSearchParams.
    rewrite sentSizes_extended. apply sentSizes_interparcelParams.
  - reflexivity.
  - intros H35.
    rewrite sentType_availability, Hsizes, sentSizes_interparcelParams, H35.
    split; reflexivity.
  - intros params Hin.
    apply interparcel_requests in Hin
      as [H | [H | (service & c & t & H)]]; try discriminate.
    injection H as ->. repeat split.
Qed.

(** Weights 34, 35 and 36 with sizes 50, 40, 30. *)
Lemma C9_pallet_and_padding_witness :
  (sentType (availabilitySearchParams (Examples.mkInput 34 50 40 30 "AU" false))
   = Some (str "parcel") /\
   sentType (availabilitySearchParams (Examples.mkInput 36 50 40 30 "AU" false))
   = Some (str "pallet") /\
   sentSizes (availabilitySearchParams (Examples.mkInput 36 50 40 30 "AU" false))
   = (Some (toString (num 80)), Some (toString (num 70)),
      Some (toString (num 40)))) /\
  sentType (availabilitySearchParams (Examples.mkInput 35 50 40 30 "AU" false))
  = Some (str "pallet") /\
  sentSizes (availabilitySearchParams (Examples.mkInput 35 50 40 30 "AU" false))
  = (Some (toString (num 50)), Some (toString (num 40)),
     Some (toString (num 30))).
Proof.
  split; [repeat split |].
  exact (proj1 (proj2 (proj2 (proj2 (proj2 (proj2 (proj2
           (C9_pallet_and_padding Examples.world_up
              (Examples.mkInput 35 50 40 30 "AU" false))))))))
           eq_refl).
Defined.

(** ** Which carriers are asked: light and heavy parcels abroad *)

Lemma heavy_effects (w : World) (ctx : Ctx) (input : ShippingServicesInput) :
  ge (weight input) (num 20) = true ->
  fst (getShippingServices w ctx input) =
  fst (getInterparcelShippingServices w input) ++
  match settled (getInterparcelShippingServices w input) with
  | Returned _ => []
  | Threw e =>
      if String.eqb (destinationCountry input) "AU"
      then [ ConsoleError
               "Failed to fetch Interparcel services for heavy AU shipping:"
               (message e) ]
      else []
  end.
Proof.
  intros Hge. unfold getShippingServices. cbv zeta. rewrite Hge.
  unfold settled.
  destruct (getInterparcelShippingServices w input) as [log [l | e]];
    [reflexivity |].
  destruct (String.eqb (destinationCountry input) "AU"); simpl;
    now rewrite ?app_nil_r.
Qed.

Lemma interparcel_requests_carrier (w : World) (input : ShippingServicesInput)
    (r : Request) :
  In r (requests (getInterparcelShippingServices w input)) ->
  carrierOf r = FreightBroker.
Proof.
  intros H. apply interparcel_requests in H
    as [-> | [-> | (service & c & t & ->)]]; reflexivity.
Qed.

Lemma heavy_requests (w : World) (ctx : Ctx) (input : ShippingServicesInput) :
  ge (weight input) (num 20) = true ->
  requests (getShippingServices w ctx input) =
  requests (getInterparcelShippingServices w input).
Proof.
  intros Hge. unfold requests.
  rewrite (heavy_effects w ctx input Hge), requestsOf_app.
  destruct (settled (getInterparcelShippingServices w input)) as [q | e];
    [apply app_nil_r |].
  destruct (String.eqb _ _); apply app_nil_r.
Qed.

(** C3 (amended). For a request with weight < 20, all three dimensions
    below 105 and a destination other than "AU", [getShippingServices]
    issues exactly one request, the one of the international postal client;
    the freight broker is not called.  With weight >= 20 the freight
    broker is called whatever the dimensions (and the destination) are:
    the first request is the availability request of the freight-broker
    client, every request goes to the freight broker and none to a postal
    service. *)
Theorem C3_international_postal_only
    (w : World) (ctx : Ctx) (input : ShippingServicesInput) :
  (lt (weight input) (num 20) = true ->
   lt (length input) (num 105) = true ->
   lt (width input) (num 105) = true ->
   lt (height input) (num 105) = true ->
   destinationCountry input <> "AU" ->
   requests (getShippingServices w ctx input) =
   [ AusPostInternationalReq (destinationCountry input) (weight input) ] /\
   (forall r, In r (requests (getShippingServices w ctx input)) ->
              carrierOf r = InternationalPostal) /\
   (forall r, In r (requests (getShippingServices w ctx input)) ->
              carrierOf r <> FreightBroker)) /\
  (ge (weight input) (num 20) = true ->
   requests (getShippingServices w ctx input) =
   requests (getInterparcelShippingServices w input) /\
   hd_error (requests (getShippingServices w ctx input)) =
   Some (InterparcelAvailabilityReq (availabilitySearchParams input)) /\
   (forall r, In r (requests (getShippingServices w ctx input)) ->
              carrierOf r = FreightBroker)).
Proof.
  split.
  - intros Hlt Hl Hw Hh Hau.
    apply lt_not_ge in Hlt. apply String.eqb_neq in Hau.
    assert (Hfit : fitsPostal input = true) by now apply fitsPostal_iff.
    assert (Hreq : requests (getShippingServices w ctx input) =
                   [ AusPostInternationalReq (destinationCountry input)
                       (weight input) ]).
    { unfold requests.
      now rewrite (international_branch_effects w ctx input Hlt Hau Hfit),
        international_effects. }
    rewrite Hreq. split; [reflexivity |].
    split; intros r [<- | []]; [reflexivity | discriminate].
  - intros Hge. rewrite (heavy_requests w ctx input Hge).
    split; [reflexivity |]. split; [apply interparcel_first_effect |].
    intros r Hin. now apply interparcel_requests_carrier in Hin.
Qed.

(** A light parcel to "US": one request, to the international postal
    service.  The same parcel at 25 kg: the first request is the
    availability request of the freight broker. *)
Lemma C3_international_postal_only_witness :
  requests (getShippingServices Examples.world_up Examples.anonymous
              (Examples.mkInput 5 50 40 30 "US" false)) =
  [ AusPostInternationalReq "US" (num 5) ] /\
  hd_error (requests (getShippingServices Examples.world_up Examples.anonymous
                        (Examples.mkInput 25 50 40 30 "US" false))) =
  Some (InterparcelAvailabilityReq
          (availabilitySearchParams (Examples.mkInput 25 50 40 30 "US" false))).
Proof.
  split.
  - apply (proj1 (proj1 (C3_international_postal_only Examples.world_up
                           Examples.anonymous
                           (Examples.mkInput 5 50 40 30 "US" false))
                    eq_refl eq_refl eq_refl eq_refl
                    ltac:(discriminate))).
  - apply (proj1 (proj2 (proj2 (C3_international_postal_only Examples.world_up
                                  Examples.anonymous
                                  (Examples.mkInput 25 50 40 30 "US" false))
                           eq_refl))).
Defined.

(** ** Conversion of prices to minor units *)



Lemma allFrom_spec (n : nat) (c0 c : Z) :
  Rounding.allFrom c0 n = true -> c0 <= c < c0 + Z.of_nat n ->
  Rounding.exactOrOneMore c = true.
Proof.
  revert c0. induction n as [| n IH]; intros c0 Hall Hc; [lia |].
  simpl in Hall. apply andb_true_iff in Hall as [Hhere Hrest].
  destruct (Z.eq_dec c c0) as [-> | Hne]; [exact Hhere |].
  apply (IH (c0 + 1)); [exact Hrest | lia].
Qed.

(** On every price from 0.00 to 19.99 the amount is the exact number of
    hundredths or one more: the conversion does not go below the price,
    and it goes above it by at most one minor unit. *)
Lemma amount_within_one (c : Z) :
  0 <= c < 2000 ->
  exists a, Rounding.amountOfCents c = Some a /\ (a = c \/ a = c + 1).
Proof.
  intros Hc.
  assert (Hall : Rounding.allFrom 0 2000 = true) by (vm_compute; reflexivity).
  pose proof (allFrom_spec 2000 0 c Hall ltac:(lia)) as H.
  unfold Rounding.exactOrOneMore in H.
  destruct (Rounding.amountOfCents c) as [a |]; [| discriminate].
  exists a. split; [reflexivity |].
  apply orb_true_iff in H as [H | H]; apply Z.eqb_eq in H; auto.
Qed.

(** C8. The amounts the three carrier clients compute for the prices 8.80,
    16.10 and 16.1: they are 881, 1611 and 1611, one minor unit above the
    ceiling of the price times one hundred, because the product is taken
    in binary floating point before it is rounded up.  For 11.10 and 22.05
    the amount is the exact one. *)
Theorem C8_amounts_at_inexact_products :
  let input := Examples.mkInput 5 50 40 30 "AU" false in
  settled (getDomesticShippingServices Rounding.inexactWorld input) =
  Returned [ mkOption (num 881) "AUD" "AusPost Regular";
             mkOption (num 1110) "AUD" "AusPost Express" ] /\
  settled (getAusPostInternationalShippingServices Rounding.inexactWorld input) =
  Returned [ mkOption (num 1611) "AUD" "Standard";
             mkOption (num 2205) "AUD" "Express" ] /\
  settled (getInterparcelShippingServices Rounding.inexactWorld input) =
  Returned [ mkOption (num 1611) "AUD" "TNT - Road Express" ] /\
  exactMinorUnits 880 2 = 880 /\
  exactMinorUnits 1610 2 = 1610 /\
  exactMinorUnits 161 1 = 1610 /\
  Rounding.toZ (num 881) = Some 881 /\
  Rounding.toZ (num 1611) = Some 1611.
Proof.
  cbv zeta. repeat split; vm_compute; reflexivity.
Qed.

(** * Further properties of the shipping code *)

(** ** Effects of the three branches *)

Lemma domestic_effects (w : World) (input : ShippingServicesInput) :
  fst (getDomesticShippingServices w input) =
  [ Fetch (AusPostDomesticReq (length input) (width input) (height input)
             (weight input) (postcode partedEuroAddress)
             (destinationPostcode input)) ].
Proof.
  unfold getDomesticShippingServices, fetch.
  destruct (auspostDomestic w _ _ _ _ _ _) as [data | e]; [| reflexivity].
  rewrite bind_Returned. cbv zeta. now destruct (_ || _).
Qed.

Lemma domestic_returns (w : World) (input : ShippingServicesInput)
    (l : list StripeShippingOption) :
  settled (getDomesticShippingServices w input) = Returned l ->
  exists regular express,
    l = [ mkOption regular "AUD" "AusPost Regular";
          mkOption express "AUD" "AusPost Express" ].
Proof.
  unfold getDomesticShippingServices, fetch.
  destruct (auspostDomestic w _ _ _ _ _ _) as [data | e]; [| discriminate].
  rewrite bind_Returned. cbv zeta. unfold settled. cbn [snd].
  destruct (_ || _); [discriminate |].
  intros H. apply Returned_inj in H. subst l. eauto.
Qed.


Lemma international_oversized_effects (w : World) (ctx : Ctx)
    (input : ShippingServicesInput) :
  ge (weight input) (num 20) = false ->
  String.eqb (destinationCountry input) "AU" = false ->
  fitsPostal input = false ->
  fst (getShippingServices w ctx input) =
  fst (getInterparcelShippingServices w input).
Proof.
  intros Hge Hau Hfit. unfold getShippingServices. cbv zeta.
  rewrite Hge, Hau, Hfit. cbn [negb].
  destruct (getInterparcelShippingServices w input) as [log [l | e]];
    simpl; [apply app_nil_r | reflexivity].
Qed.

Lemma domestic_oversized_effects (w : World) (ctx : Ctx)
    (input : ShippingServicesInput) :
  ge (weight input) (num 20) = false ->
  String.eqb (destinationCountry input) "AU" = true ->
  fitsPostal input = false ->
  fst (getShippingServices w ctx input) =
  fst (getInterparcelShippingServices w input) ++
  match settled (getInterparcelShippingServices w input) with
  | Returned _ => []
  | Threw e =>
      [ ConsoleError
          "Failed to fetch Interparcel services for oversized AU shipping:"
          (message e) ]
  end.
Proof.
  intros Hge Hau Hfit. unfold getShippingServices. cbv zeta.
  rewrite Hge, Hau, Hfit. cbn [negb]. unfold settled.
  destruct (getInterparcelShippingServices w input) as [log [l | e]];
    simpl; now rewrite ?app_nil_r.
Qed.

Lemma domestic_fitting_effects (w : World) (ctx : Ctx)
    (input : ShippingServicesInput) :
  ge (weight input) (num 20) = false ->
  String.eqb (destinationCountry input) "AU" = true ->
  fitsPostal input = true ->
  fst (getShippingServices w ctx input) =
  (fst (getDomesticShippingServices w input) ++
   match settled (getDomesticShippingServices w input) with
   | Returned _ => []
   | Threw e =>
       [ ConsoleError "Failed to fetch AusPost domestic services:" (message e) ]
   end) ++
  (fst (getInterparcelShippingServices w input) ++
   match settled (getInterparcelShippingServices w input) with
   | Returned _ => []
   | Threw e =>
       [ ConsoleError
           "Failed to fetch Interparcel services for domestic AU shipping:"
           (message e) ]
   end).
Proof.
  intros Hge Hau Hfit. unfold getShippingServices. cbv zeta.
  rewrite Hge, Hau, Hfit. cbn [negb]. unfold settled.
  destruct (getDomesticShippingServices w input) as [logd [d | ed]];
    destruct (getInterparcelShippingServices w input) as [logi [i | ei]];
    simpl; now rewrite ?app_nil_r, <- ?app_assoc.
Qed.


Lemma requestsOf_console (label detail : string) :
  requestsOf [ConsoleError label detail] = [].
Proof. reflexivity. Qed.

(** ** Domestic requests *)

(** X1. A request to "AU" never fails, whatever its weight and sizes and
    whatever the carriers answer, and the list it gets always holds the
    pickup option: last for weight >= 20, first (second behind the admin
    option for an admin caller) otherwise. *)
Theorem X1_domestic_always_offers_pickup
    (w : World) (ctx : Ctx) (input : ShippingServicesInput) :
  destinationCountry input = "AU" ->
  exists l,
    settled (getShippingServices w ctx input) = Returned l /\
    In pickupShippingOption l /\
    (ge (weight input) (num 20) = true ->
     exists front, l = front ++ [pickupShippingOption]) /\
    (ge (weight input) (num 20) = false ->
     nth_error l (if isAdminOf ctx then 1 else 0)%nat
     = Some pickupShippingOption).
Proof.
  intros Hau. apply String.eqb_eq in Hau.
  destruct (ge (weight input) (num 20)) eqn:Hge.
  - rewrite (heavy_branch w ctx input Hge), Hau.
    assert (Hshape : forall q, exists front,
               prependAdmin ctx (q ++ [pickupShippingOption])
               = front ++ [pickupShippingOption]).
    { intros q. unfold prependAdmin. destruct (isAdminOf ctx).
      - now exists (adminShippingOption :: q).
      - now exists q. }
    assert (Hgoal : forall q, exists l,
               Returned (prependAdmin ctx (q ++ [pickupShippingOption]))
               = Returned l /\
               In pickupShippingOption l /\
               (true = true -> exists front, l = front ++ [pickupShippingOption]) /\
               (true = false ->
                nth_error l (if isAdminOf ctx then 1 else 0)%nat
                = Some pickupShippingOption)).
    { intros q. destruct (Hshape q) as [front Hfront].
      eexists. split; [reflexivity |]. rewrite Hfront.
      repeat split.
      - apply in_or_app. right. now left.
      - intros _. now exists front.
      - discriminate. }
    destruct (settled (getInterparcelShippingServices w input)) as [q | e].
    + apply Hgoal.
    + apply (Hgoal []).
  - rewrite (domestic_branch w ctx input Hge Hau).
    eexists. split; [reflexivity |].
    unfold prependAdmin, slice0. destruct (isAdminOf ctx); simpl.
    + repeat split; auto. discriminate.
    + repeat split; auto. discriminate.
Qed.

(** Every endpoint is unreachable: a light and a heavy request to "AU" are
    answered with the pickup option. *)
Lemma X1_domestic_always_offers_pickup_witness :
  settled (getShippingServices Examples.world_down Examples.anonymous
             (Examples.mkInput 5 50 40 30 "AU" false))
  = Returned [pickupShippingOption] /\
  settled (getShippingServices Examples.world_down Examples.anonymous
             (Examples.mkInput 25 50 40 30 "AU" false))
  = Returned [pickupShippingOption].
Proof.
  split.
  - destruct (X1_domestic_always_offers_pickup Examples.world_down
                Examples.anonymous (Examples.mkInput 5 50 40 30 "AU" false)
                eq_refl) as [l [Hl _]].
    rewrite Hl. apply Returned_inj in Hl. now rewrite <- Hl.
  - destruct (X1_domestic_always_offers_pickup Examples.world_down
                Examples.anonymous (Examples.mkInput 25 50 40 30 "AU" false)
                eq_refl) as [l [Hl _]].
    rewrite Hl. apply Returned_inj in Hl. now rewrite <- Hl.
Defined.

(** X2. For a request to "AU" with weight < 20 and all sizes below 105
    whose postal quote succeeds, the freight broker's quotes only fill the
    room that is left in the four places: an ordinary caller gets the
    pickup option, the two postal tiers and at most the first freight
    quote; an admin caller gets the admin option, the pickup option and
    the two postal tiers, and no freight quote at all. *)
Theorem X2_light_domestic_room_for_freight
    (w : World) (ctx : Ctx) (input : ShippingServicesInput)
    (postal : list StripeShippingOption) :
  lt (weight input) (num 20) = true ->
  lt (length input) (num 105) = true ->
  lt (width input) (num 105) = true ->
  lt (height input) (num 105) = true ->
  destinationCountry input = "AU" ->
  settled (getDomesticShippingServices w input) = Returned postal ->
  settled (getShippingServices w ctx input) =
  Returned
    (if isAdminOf ctx
     then adminShippingOption :: pickupShippingOption :: postal
     else pickupShippingOption :: postal ++
          firstn 1 (orEmpty (settled (getInterparcelShippingServices w input)))).
Proof.
  intros Hlt Hl Hw Hh Hau Hpostal.
  apply lt_not_ge in Hlt. apply String.eqb_eq in Hau.
  assert (Hfit : fitsPostal input = true) by now apply fitsPostal_iff.
  rewrite (domestic_branch w ctx input Hlt Hau), Hfit, Hpostal.
  apply domestic_returns in Hpostal as (regular & express & ->).
  unfold prependAdmin, slice0, orEmpty.
  destruct (isAdminOf ctx); [reflexivity |].
  now destruct (settled (getInterparcelShippingServices w input)) as [[| q qs] | e].
Qed.

(** Every endpoint answers, the freight broker with five usable quotes: a
    staff member sees none of them, an ordinary caller the first. *)
Lemma X2_light_domestic_room_for_freight_witness :
  settled (getShippingServices Examples.world_up Examples.staff
             (Examples.mkInput 5 50 40 30 "AU" false))
  = Returned [ adminShippingOption; pickupShippingOption;
               mkOption (num 1095) "AUD" "AusPost Regular";
               mkOption (num 1445) "AUD" "AusPost Express" ] /\
  settled (getShippingServices Examples.world_up Examples.anonymous
             (Examples.mkInput 5 50 40 30 "AU" false))
  = Returned [ pickupShippingOption;
               mkOption (num 1095) "AUD" "AusPost Regular";
               mkOption (num 1445) "AUD" "AusPost Express";
               mkOption (num 4550) "AUD" "TNT - Road Express" ].
Proof.
  split.
  - rewrite (X2_light_domestic_room_for_freight Examples.world_up
               Examples.staff (Examples.mkInput 5 50 40 30 "AU" false)
               [ mkOption (num 1095) "AUD" "AusPost Regular";
                 mkOption (num 1445) "AUD" "AusPost Express" ]
               eq_refl eq_refl eq_refl eq_refl eq_refl eq_refl).
    reflexivity.
  - rewrite (X2_light_domestic_room_for_freight Examples.world_up
               Examples.anonymous (Examples.mkInput 5 50 40 30 "AU" false)
               [ mkOption (num 1095) "AUD" "AusPost Regular";
                 mkOption (num 1445) "AUD" "AusPost Express" ]
               eq_refl eq_refl eq_refl eq_refl eq_refl eq_refl).
    reflexivity.
Defined.

(** ** Which carriers are asked, continued *)

(** X3. A request with weight >= 20, or with a size that is not below 105,
    is never put to a postal service, whatever its destination: every
    request [getShippingServices] issues for it goes to the freight
    broker. *)
Theorem X3_heavy_or_oversized_only_freight
    (w : World) (ctx : Ctx) (input : ShippingServicesInput) :
  ge (weight input) (num 20) = true \/
  lt (length input) (num 105) = false \/
  lt (width input) (num 105) = false \/
  lt (height input) (num 105) = false ->
  forall r, In r (requests (getShippingServices w ctx input)) ->
            carrierOf r = FreightBroker.
Proof.
  intros Hcase r Hin.
  assert (Hfreight :
            requests (getShippingServices w ctx input) =
            requests (getInterparcelShippingServices w input)).
  { unfold requests.
    destruct (ge (weight input) (num 20)) eqn:Hge.
    - rewrite (heavy_effects w ctx input Hge), requestsOf_app.
      destruct (settled (getInterparcelShippingServices w input)) as [q | e];
        [apply app_nil_r |].
      destruct (String.eqb _ _); apply app_nil_r.
    - assert (Hfit : fitsPostal input = false).
      { destruct (fitsPostal input) eqn:Hfit; [| reflexivity].
        apply fitsPostal_iff in Hfit as (Hl & Hw & Hh).
        destruct Hcase as [H | [H | [H | H]]]; congruence. }
      destruct (String.eqb (destinationCountry input) "AU") eqn:Hau.
      + rewrite (domestic_oversized_effects w ctx input Hge Hau Hfit),
          requestsOf_app.
        destruct (settled (getInterparcelShippingServices w input));
          apply app_nil_r.
      + now rewrite (international_oversized_effects w ctx input Hge Hau Hfit). }
  rewrite Hfreight in Hin. now apply interparcel_requests_carrier in Hin.
Qed.

(** A light parcel to "US" with a height of 130: eight requests, all to the
    freight broker. *)
Lemma X3_heavy_or_oversized_only_freight_witness :
  map carrierOf
    (requests (getShippingServices Examples.world_up Examples.anonymous
                 (Examples.mkInput 5 50 40 130 "US" false)))
  = [ FreightBroker; FreightBroker; FreightBroker; FreightBroker;
      FreightBroker; FreightBroker; FreightBroker; FreightBroker ] /\
  forall r,
    In r (requests (getShippingServices Examples.world_up Examples.anonymous
                      (Examples.mkInput 5 50 40 130 "US" false))) ->
    carrierOf r = FreightBroker.
Proof.
  split; [reflexivity |].
  apply (X3_heavy_or_oversized_only_freight Examples.world_up
           Examples.anonymous (Examples.mkInput 5 50 40 130 "US" false)).
  right. right. right. reflexivity.
Defined.

(** X4. For a request to "AU" with weight < 20 and all sizes below 105,
    the domestic postal service is asked first and the freight broker
    after it, whether the postal call succeeded or failed: the requests
    issued are the one postal request followed by those of the
    freight-broker client, which open with its availability request. *)
Theorem X4_light_domestic_asks_both
    (w : World) (ctx : Ctx) (input : ShippingServicesInput) :
  lt (weight input) (num 20) = true ->
  lt (length input) (num 105) = true ->
  lt (width input) (num 105) = true ->
  lt (height input) (num 105) = true ->
  destinationCountry input = "AU" ->
  requests (getShippingServices w ctx input) =
  AusPostDomesticReq (length input) (width input) (height input)
    (weight input) "3180" (destinationPostcode input)
  :: requests (getInterparcelShippingServices w input) /\
  nth_error (requests (getShippingServices w ctx input)) 1 =
  Some (InterparcelAvailabilityReq (availabilitySearchParams input)).
Proof.
  intros Hlt Hl Hw Hh Hau.
  apply lt_not_ge in Hlt. apply String.eqb_eq in Hau.
  assert (Hfit : fitsPostal input = true) by now apply fitsPostal_iff.
  assert (Hreq : requests (getShippingServices w ctx input) =
                 AusPostDomesticReq (length input) (width input) (height input)
                   (weight input) "3180" (destinationPostcode input)
                 :: requests (getInterparcelShippingServices w input)).
  { unfold requests.
    rewrite (domestic_fitting_effects w ctx input Hlt Hau Hfit),
      !requestsOf_app, domestic_effects.
    destruct (settled (getDomesticShippingServices w input));
      destruct (settled (getInterparcelShippingServices w input));
      simpl; now rewrite ?app_nil_r. }
  split; [exact Hreq |].
  rewrite Hreq. cbn [nth_error].
  pose proof (interparcel_first_effect w input) as Hfirst.
  destruct (requests (getInterparcelShippingServices w input)); exact Hfirst.
Qed.

(** The postal service is unreachable and so is the freight broker: both
    were asked, in that order. *)
Lemma X4_light_domestic_asks_both_witness :
  map carrierOf
    (requests (getShippingServices Examples.world_down Examples.anonymous
                 (Examples.mkInput 5 50 40 30 "AU" false)))
  = [ DomesticPostal; FreightBroker ].
Proof.
  rewrite (proj1 (X4_light_domestic_asks_both Examples.world_down
                    Examples.anonymous (Examples.mkInput 5 50 40 30 "AU" false)
                    eq_refl eq_refl eq_refl eq_refl eq_refl)).
  reflexivity.
Defined.

(** ** Logging of swallowed failures *)

Lemma settleAll_quotes_fetch (w : World) (input : ShippingServicesInput)
    (cookieHeader csrfToken : string)
    (candidates : list InterparcelShippingService) (ev : Effect) :
  In ev (fst (settleAll (map (quoteService w input cookieHeader csrfToken)
                             candidates))) ->
  exists r, ev = Fetch r.
Proof.
  induction candidates as [| service rest IH]; simpl; [intros [] |].
  rewrite quoteService_eq. destruct (settleAll _) as [log rs]. simpl in *.
  intros [<- | Hin]; eauto.
Qed.

Lemma interparcel_effects_fetch (w : World) (input : ShippingServicesInput)
    (ev : Effect) :
  In ev (fst (getInterparcelShippingServices w input)) ->
  exists r, ev = Fetch r.
Proof.
  unfold getInterparcelShippingServices, fetch.
  destruct (interparcelAvailability w _) as [data | e];
    [| intros [<- | []]; eauto].
  rewrite bind_Returned.
  destruct (truthy (isr_errorMessage data)); [intros [<- | []]; eauto |].
  destruct (interparcelQuotePage w _) as [page | e];
    [| intros [<- | [<- | []]]; eauto].
  rewrite bind_Returned. cbv zeta.
  destruct (falsy (phpSessIdOf (cookieJar page)));
    [intros [<- | [<- | []]]; eauto |].
  destruct (falsy (metaMatch page)); [intros [<- | [<- | []]]; eauto |].
  unfold Promise_allSettled.
  pose proof (settleAll_quotes_fetch w input (cookieHeaderOf (cookieJar page))
                (nullish (metaMatch page) "")
                (candidateServices input data)) as Hq.
  destruct (settleAll _) as [log rs]. rewrite bind_Returned. cbn [fst] in *.
  intros [<- | [<- | Hin]]; eauto.
  rewrite !app_nil_l in Hin. apply in_app_or in Hin as [Hin | Hin]; auto.
  destruct (validServicesOf rs); destruct Hin.
Qed.

(** X5. A carrier failure is never swallowed in silence, and nothing is
    logged without one.  For a request to "AU", a failure of the
    freight-broker client or of the domestic postal client (where it is
    called) is written with [console.error] together with the message of
    the error.  Conversely every line written carries the message of an
    error one of the two clients failed with, and for a destination other
    than "AU" nothing is written at all. *)
Theorem X5_swallowed_errors_are_logged
    (w : World) (ctx : Ctx) (input : ShippingServicesInput) :
  (destinationCountry input = "AU" ->
   forall e, settled (getInterparcelShippingServices w input) = Threw e ->
             exists label,
               In (ConsoleError label (message e))
                  (fst (getShippingServices w ctx input))) /\
  (destinationCountry input = "AU" ->
   ge (weight input) (num 20) = false -> fitsPostal input = true ->
   forall e, settled (getDomesticShippingServices w input) = Threw e ->
             In (ConsoleError "Failed to fetch AusPost domestic services:"
                   (message e))
                (fst (getShippingServices w ctx input))) /\
  (forall label detail,
     In (ConsoleError label detail) (fst (getShippingServices w ctx input)) ->
     destinationCountry input = "AU" /\
     exists e,
       detail = message e /\
       (settled (getInterparcelShippingServices w input) = Threw e \/
        settled (getDomesticShippingServices w input) = Threw e)).
Proof.
  assert (Hnoi : forall label detail,
             ~ In (ConsoleError label detail)
                 (fst (getInterparcelShippingServices w input))).
  { intros label detail Hin.
    apply interparcel_effects_fetch in Hin as [r Hr]. discriminate. }
  assert (Hnod : forall label detail,
             ~ In (ConsoleError label detail)
                 (fst (getDomesticShippingServices w input))).
  { intros label detail. rewrite domestic_effects.
    intros [H | []]. discriminate. }
  assert (Hnoint : forall label detail,
             ~ In (ConsoleError label detail)
                 (fst (getAusPostInternationalShippingServices w input))).
  { intros label detail. rewrite international_effects.
    intros [H | []]. discriminate. }
  split; [| split].
  - intros Hau e He. apply String.eqb_eq in Hau.
    destruct (ge (weight input) (num 20)) eqn:Hge.
    + rewrite (heavy_effects w ctx input Hge), He, Hau.
      eexists. apply in_or_app. right. now left.
    + destruct (fitsPostal input) eqn:Hfit.
      * rewrite (domestic_fitting_effects w ctx input Hge Hau Hfit), He.
        eexists. apply in_or_app. right. apply in_or_app. right. now left.
      * rewrite (domestic_oversized_effects w ctx input Hge Hau Hfit), He.
        eexists. apply in_or_app. right. now left.
  - intros Hau Hge Hfit e He. apply String.eqb_eq in Hau.
    rewrite (domestic_fitting_effects w ctx input Hge Hau Hfit), He.
    apply in_or_app. left. apply in_or_app. right. now left.
  - intros label detail Hin.
    destruct (ge (weight input) (num 20)) eqn:Hge.
    + rewrite (heavy_effects w ctx input Hge) in Hin.
      apply in_app_or in Hin as [Hin | Hin]; [now apply Hnoi in Hin |].
      destruct (settled (getInterparcelShippingServices w input))
        as [q | e]; [destruct Hin |].
      destruct (String.eqb (destinationCountry input) "AU") eqn:Hau;
        [| destruct Hin].
      destruct Hin as [[= _ <-] | []].
      split; [now apply String.eqb_eq | eauto].
    + destruct (String.eqb (destinationCountry input) "AU") eqn:Hau.
      * split; [now apply String.eqb_eq |].
        destruct (fitsPostal input) eqn:Hfit.
        -- rewrite (domestic_fitting_effects w ctx input Hge Hau Hfit) in Hin.
           apply in_app_or in Hin as [Hin | Hin];
             apply in_app_or in Hin as [Hin | Hin];
             try (now apply Hnod in Hin); try (now apply Hnoi in Hin).
           ++ destruct (settled (getDomesticShippingServices w input))
                as [q | e]; [destruct Hin |].
              destruct Hin as [[= _ <-] | []]. eauto.
           ++ destruct (settled (getInterparcelShippingServices w input))
                as [q | e]; [destruct Hin |].
              destruct Hin as [[= _ <-] | []]. eauto.
        -- rewrite (domestic_oversized_effects w ctx input Hge Hau Hfit) in Hin.
           apply in_app_or in Hin as [Hin | Hin]; [now apply Hnoi in Hin |].
           destruct (settled (getInterparcelShippingServices w input))
             as [q | e]; [destruct Hin |].
           destruct Hin as [[= _ <-] | []]. eauto.
      * exfalso. destruct (fitsPostal input) eqn:Hfit.
        -- rewrite (international_branch_effects w ctx input Hge Hau Hfit) in Hin.
           now apply Hnoint in Hin.
        -- rewrite (international_oversized_effects w ctx input Hge Hau Hfit)
             in Hin.
           now apply Hnoi in Hin.
Qed.

(** Both carriers are unreachable for a light parcel to "AU": two lines are
    written, one for each. *)
Lemma X5_swallowed_errors_are_logged_witness :
  In (ConsoleError "Failed to fetch AusPost domestic services:" "fetch failed")
     (fst (getShippingServices Examples.world_down Examples.anonymous
             (Examples.mkInput 5 50 40 30 "AU" false))) /\
  exists label,
    In (ConsoleError label "fetch failed")
       (fst (getShippingServices Examples.world_down Examples.anonymous
               (Examples.mkInput 5 50 40 30 "AU" false))).
Proof.
  pose proof (X5_swallowed_errors_are_logged Examples.world_down
                Examples.anonymous (Examples.mkInput 5 50 40 30 "AU" false))
    as (Hfreight & Hpostal & _).
  split.
  - exact (Hpostal eq_refl eq_refl eq_refl {| message := "fetch failed" |}
             eq_refl).
  - exact (Hfreight eq_refl {| message := "fetch failed" |} eq_refl).
Defined.

(** ** The admin option is for admins only *)

Lemma In_firstn {A} (n : nat) (l : list A) (x : A) :
  In x (firstn n l) -> In x l.
Proof.
  revert n. induction l as [| a l IH]; intros [| n]; simpl; try tauto.
  intros [-> | H]; eauto.
Qed.

Lemma international_names (w : World) (input : ShippingServicesInput)
    (l : list StripeShippingOption) :
  settled (getAusPostInternationalShippingServices w input) = Returned l ->
  forall o, In o l ->
            display_name (shipping_rate_data o) = "Standard" \/
            display_name (shipping_rate_data o) = "Express".
Proof.
  unfold getAusPostInternationalShippingServices, fetch.
  destruct (auspostInternational w _ _) as [data | e]; [| discriminate].
  rewrite bind_Returned. unfold settled, ret. cbn [snd].
  intros Hl o Hin. apply Returned_inj in Hl; subst l.
  apply filter_In in Hin as [_ Hname].
  unfold array_includes, supportedShippingMethods in Hname. simpl in Hname.
  now rewrite orb_false_r, orb_true_iff, !String.eqb_eq in Hname.
Qed.

Lemma freight_not_admin (o : StripeShippingOption) :
  isFreightOption o ->
  display_name (shipping_rate_data o) <> "Admin Shipping".
Proof.
  intros [first ->] H.
  pose proof (hasHyphen_app (iqs_carrier first) (iqs_name first)) as Hh.
  change (display_name (shipping_rate_data (freightOption first)))
    with (iqs_carrier first ++ " - " ++ iqs_name first)%string in H.
  rewrite H in Hh. discriminate.
Qed.

Lemma isAdminOf_true (ctx : Ctx) :
  isAdminOf ctx = true <->
  exists s u, session ctx = Some s /\ user s = Some u /\
              isAdmin u = Some true.
Proof.
  unfold isAdminOf, nullish. split.
  - destruct (session ctx) as [s |]; [| discriminate].
    destruct (user s) as [u |] eqn:Hu; [| discriminate].
    destruct (isAdmin u) as [[|] |] eqn:Ha; try discriminate.
    intros _. now exists s, u.
  - intros (s & u & -> & -> & ->). reflexivity.
Qed.

(** X6. The "Admin Shipping" option reaches admins only.  The caller counts
    as an admin exactly when the context has a session with a user whose
    [isAdmin] flag is set to true; for any other caller (no session, no
    user, no flag, flag false) no option of the returned list is the admin
    option or bears its name, whatever the carriers answer. *)
Theorem X6_admin_option_only_for_admins
    (w : World) (ctx : Ctx) (input : ShippingServicesInput)
    (l : list StripeShippingOption) :
  ~ (exists s u, session ctx = Some s /\ user s = Some u /\
                 isAdmin u = Some true) ->
  settled (getShippingServices w ctx input) = Returned l ->
  ~ In adminShippingOption l /\
  (forall o, In o l ->
             display_name (shipping_rate_data o) <> "Admin Shipping").
Proof.
  intros Hnot Hl.
  assert (Hadm : isAdminOf ctx = false).
  { destruct (isAdminOf ctx) eqn:E; [| reflexivity].
    apply isAdminOf_true in E. contradiction. }
  assert (Hpre : forall q, prependAdmin ctx q = q).
  { intros q. unfold prependAdmin. now rewrite Hadm. }
  assert (Hfreight : forall q,
             settled (getInterparcelShippingServices w input) = Returned q ->
             forall o, In o q ->
                       display_name (shipping_rate_data o) <> "Admin Shipping").
  { intros q Hq o Hin. apply interparcel_returns in Hq as (_ & _ & Hall).
    rewrite Forall_forall in Hall. now apply freight_not_admin, Hall. }
  assert (Hnames : forall o, In o l ->
             display_name (shipping_rate_data o) <> "Admin Shipping").
  { destruct (ge (weight input) (num 20)) eqn:Hge.
    - rewrite (heavy_branch w ctx input Hge) in Hl.
      destruct (settled (getInterparcelShippingServices w input))
        as [q | e] eqn:Hq.
      + apply Returned_inj in Hl; subst l. rewrite Hpre.
        intros o Hin.
        destruct (String.eqb _ _);
          [apply in_app_or in Hin as [Hin | [<- | []]] |];
          try (now apply (Hfreight q eq_refl)); discriminate.
      + destruct (String.eqb _ _); [| discriminate].
        apply Returned_inj in Hl; subst l. rewrite Hpre.
        intros o [<- | []]. discriminate.
    - destruct (String.eqb (destinationCountry input) "AU") eqn:Hau.
      + rewrite (domestic_branch w ctx input Hge Hau), Hpre in Hl.
        apply Returned_inj in Hl; subst l.
        intros o Hin. apply In_firstn in Hin.
        assert (Hpostal : forall o,
                   In o (orEmpty (settled (getDomesticShippingServices w input))) ->
                   display_name (shipping_rate_data o) <> "Admin Shipping").
        { intros o' Ho.
          destruct (settled (getDomesticShippingServices w input))
            as [q | e] eqn:Hq; [| destruct Ho].
          apply domestic_returns in Hq as (regular & express & ->).
          destruct Ho as [<- | [<- | []]]; discriminate. }
        assert (Hfr : forall o,
                   In o (orEmpty (settled (getInterparcelShippingServices w input))) ->
                   display_name (shipping_rate_data o) <> "Admin Shipping").
        { intros o' Ho.
          destruct (settled (getInterparcelShippingServices w input))
            as [q | e] eqn:Hq; [| destruct Ho].
          now apply (Hfreight q eq_refl). }
        destruct Hin as [<- | Hin]; [discriminate |].
        destruct (fitsPostal input);
          apply in_app_or in Hin as [Hin | Hin]; auto; destruct Hin.
      + rewrite (international_branch w ctx input Hge Hau) in Hl.
        destruct (fitsPostal input).
        * destruct (settled (getAusPostInternationalShippingServices w input))
            as [q | e] eqn:Hq; [| discriminate].
          apply Returned_inj in Hl; subst l. rewrite Hpre.
          intros o Hin.
          destruct (international_names w input q Hq o Hin) as [-> | ->];
            discriminate.
        * destruct (settled (getInterparcelShippingServices w input))
            as [q | e] eqn:Hq; [| discriminate].
          apply Returned_inj in Hl; subst l. rewrite Hpre.
          now apply Hfreight. }
  split; [| exact Hnames].
  intros Hin. now apply Hnames in Hin.
Qed.

(** A caller without a session asks for a heavy parcel to "AU" while the
    freight broker quotes: five options, the admin option not among them. *)
Lemma X6_admin_option_only_for_admins_witness :
  exists l,
    settled (getShippingServices Examples.world_up Examples.anonymous
               (Examples.mkInput 25 50 40 30 "AU" false)) = Returned l /\
    List.length l = 5%nat /\ ~ In adminShippingOption l.
Proof.
  eexists. split; [reflexivity |]. split; [reflexivity |].
  apply (X6_admin_option_only_for_admins Examples.world_up Examples.anonymous
           (Examples.mkInput 25 50 40 30 "AU" false) _).
  - intros (s & u & Hs & _). discriminate.
  - reflexivity.
Defined.

(** ** Stages of the freight-broker client *)

Lemma falsy_false (s : option string) :
  falsy s = false <-> exists v, s = Some v /\ v <> "".
Proof.
  destruct s as [[| c v] |]; simpl; split; try discriminate.
  - intros (v & [= <-] & H). now destruct H.
  - intros _. eexists. split; [reflexivity | discriminate].
  - reflexivity.
  - intros (v & H & _). discriminate.
Qed.

Lemma truthy_false (s : string) : truthy s = false <-> s = "".
Proof. destruct s; simpl; split; congruence. Qed.

Lemma candidateServices_spec (input : ShippingServicesInput)
    (data : InterparcelShippingServicesResponse)
    (service : InterparcelShippingService) :
  In service (candidateServices input data) <->
  In service (isr_services data) /\
  includes (ips_service service) "Hunter" = false /\
  (b2b input = true \/
   includes (toLowerCase (ips_service service)) "b2b" = false).
Proof.
  unfold candidateServices. rewrite !filter_In, negb_true_iff.
  destruct (b2b input); [tauto |].
  rewrite negb_true_iff. intuition discriminate.
Qed.

Lemma settleAll_quotes_effects (w : World) (input : ShippingServicesInput)
    (cookieHeader csrfToken : string)
    (candidates : list InterparcelShippingService) :
  fst (settleAll (map (quoteService w input cookieHeader csrfToken) candidates))
  = map (fun service =>
           Fetch (InterparcelQuoteReq (quoteSearchParams input service)
                    cookieHeader csrfToken))
        candidates.
Proof.
  induction candidates as [| service rest IH]; [reflexivity |].
  simpl. rewrite quoteService_eq.
  destruct (settleAll _) as [log rs]. simpl in *. now rewrite IH.
Qed.

Lemma interparcel_effects_success (w : World) (input : ShippingServicesInput)
    (data : InterparcelShippingServicesResponse) (page : QuotePage) :
  interparcelAvailability w (availabilitySearchParams input) = Returned data ->
  truthy (isr_errorMessage data) = false ->
  interparcelQuotePage w (quotePageParams input) = Returned page ->
  falsy (phpSessIdOf (cookieJar page)) = false ->
  falsy (metaMatch page) = false ->
  fst (getInterparcelShippingServices w input) =
  Fetch (InterparcelAvailabilityReq (availabilitySearchParams input))
  :: Fetch (InterparcelQuotePageReq (quotePageParams input))
  :: map (fun service =>
            Fetch (InterparcelQuoteReq (quoteSearchParams input service)
                     (cookieHeaderOf (cookieJar page))
                     (nullish (metaMatch page) "")))
         (candidateServices input data).
Proof.
  intros Hav Herr Hpage Hsess Hcsrf.
  unfold getInterparcelShippingServices, fetch.
  rewrite Hav, bind_Returned, Herr, Hpage, bind_Returned. cbv zeta.
  rewrite Hsess, Hcsrf. unfold Promise_allSettled.
  pose proof (settleAll_quotes_effects w input
                (cookieHeaderOf (cookieJar page))
                (nullish (metaMatch page) "")
                (candidateServices input data)) as Hlog.
  destruct (settleAll _) as [log rs]. cbn [fst] in Hlog. subst log.
  rewrite bind_Returned. cbn [fst app]. do 2 f_equal.
  destruct (validServicesOf rs); simpl; apply app_nil_r.
Qed.

Lemma requestsOf_map_Fetch {S} (f : S -> Request) (l : list S) :
  requestsOf (map (fun x => Fetch (f x)) l) = map f l.
Proof.
  induction l as [| x l IH]; [reflexivity |].
  unfold requestsOf in *. simpl. now rewrite IH.
Qed.

Lemma interparcel_requests_success (w : World) (input : ShippingServicesInput)
    (data : InterparcelShippingServicesResponse) (page : QuotePage) :
  interparcelAvailability w (availabilitySearchParams input) = Returned data ->
  truthy (isr_errorMessage data) = false ->
  interparcelQuotePage w (quotePageParams input) = Returned page ->
  falsy (phpSessIdOf (cookieJar page)) = false ->
  falsy (metaMatch page) = false ->
  requests (getInterparcelShippingServices w input) =
  InterparcelAvailabilityReq (availabilitySearchParams input)
  :: InterparcelQuotePageReq (quotePageParams input)
  :: map (fun service =>
            InterparcelQuoteReq (quoteSearchParams input service)
              (cookieHeaderOf (cookieJar page))
              (nullish (metaMatch page) ""))
         (candidateServices input data).
Proof.
  intros Hav Herr Hpage Hsess Hcsrf. unfold requests.
  rewrite (interparcel_effects_success w input data page
             Hav Herr Hpage Hsess Hcsrf).
  change (requestsOf (Fetch ?a :: Fetch ?b :: ?l))
    with (a :: b :: requestsOf l).
  now rewrite requestsOf_map_Fetch.
Qed.

(** X7. The freight-broker client stops at the first stage that fails.
    A rejected availability request fails it with the error of the
    request, and an availability answer with a non-empty [errorMessage]
    with that very message; in both cases the availability request is the
    only request issued.  Otherwise a failed session bootstrap fails it
    with the error of the bootstrap, a cookie jar without a non-empty
    session id with "PHPSESSID not found in Interparcel response", and a
    page without a token with "Failed to obtain CSRF token from
    Interparcel"; the session id is checked before the token, and in all
    three cases the client opened with the availability request and no
    quote is asked for. *)
Theorem X7_freight_fails_fast (w : World) (input : ShippingServicesInput) :
  let availability := InterparcelAvailabilityReq (availabilitySearchParams input) in
  let run := getInterparcelShippingServices w input in
  (forall e,
     interparcelAvailability w (availabilitySearchParams input) = Threw e ->
     run = ([Fetch availability], Threw e)) /\
  (forall data,
     interparcelAvailability w (availabilitySearchParams input) = Returned data ->
     isr_errorMessage data <> "" ->
     run = ([Fetch availability], Threw {| message := isr_errorMessage data |})) /\
  (forall data,
     interparcelAvailability w (availabilitySearchParams input) = Returned data ->
     isr_errorMessage data = "" ->
     hd_error (requests run) = Some availability /\
     (forall e,
        interparcelQuotePage w (quotePageParams input) = Threw e ->
        settled run = Threw e /\ quoteRequests run = []) /\
     (forall page,
        interparcelQuotePage w (quotePageParams input) = Returned page ->
        (phpSessIdOf (cookieJar page) = None \/
         phpSessIdOf (cookieJar page) = Some "" ->
         settled run =
         Threw {| message := "PHPSESSID not found in Interparcel response" |} /\
         quoteRequests run = []) /\
        (forall sid,
           phpSessIdOf (cookieJar page) = Some sid -> sid <> "" ->
           metaMatch page = None \/ metaMatch page = Some "" ->
           settled run =
           Threw {| message := "Failed to obtain CSRF token from Interparcel" |} /\
           quoteRequests run = []))).
Proof.
  cbv zeta. split; [| split].
  - intros e Hav. unfold getInterparcelShippingServices, fetch.
    now rewrite Hav.
  - intros data Hav Herr. unfold getInterparcelShippingServices, fetch.
    rewrite Hav, bind_Returned.
    destruct (isr_errorMessage data); [now destruct Herr | reflexivity].
  - intros data Hav Herr. apply truthy_false in Herr.
    split; [apply interparcel_first_effect |].
    assert (Hstops : forall e,
              getInterparcelShippingServices w input =
              ([Fetch (InterparcelAvailabilityReq (availabilitySearchParams input));
                Fetch (InterparcelQuotePageReq (quotePageParams input))],
               Threw e) ->
              settled (getInterparcelShippingServices w input) = Threw e /\
              quoteRequests (getInterparcelShippingServices w input) = []).
    { intros e ->. split; reflexivity. }
    split.
    + intros e Hpage. apply Hstops.
      unfold getInterparcelShippingServices, fetch.
      now rewrite Hav, bind_Returned, Herr, Hpage.
    + intros page Hpage. split.
      * intros Hsid. apply Hstops.
        unfold getInterparcelShippingServices, fetch.
        rewrite Hav, bind_Returned, Herr, Hpage, bind_Returned. cbv zeta.
        now destruct Hsid as [-> | ->].
      * intros sid Hsid Hne Htok. apply Hstops.
        unfold getInterparcelShippingServices, fetch.
        rewrite Hav, bind_Returned, Herr, Hpage, bind_Returned. cbv zeta.
        rewrite Hsid.
        destruct sid; [now destruct Hne |].
        now destruct Htok as [-> | ->].
Qed.

(** The availability answer carries an error message: the client fails
    with it and has asked for nothing else. *)
Lemma X7_freight_fails_fast_witness :
  getInterparcelShippingServices Worlds.world_refused
    (Examples.mkInput 25 50 40 30 "AU" false) =
  ([Fetch (InterparcelAvailabilityReq
             (availabilitySearchParams (Examples.mkInput 25 50 40 30 "AU" false)))],
   Threw {| message := "Invalid delivery postcode" |}).
Proof.
  apply (proj1 (proj2 (X7_freight_fails_fast Worlds.world_refused
                         (Examples.mkInput 25 50 40 30 "AU" false)))
           {| isr_status := num 1;
              isr_errorMessage := "Invalid delivery postcode";
              isr_services := [] |} eq_refl).
  discriminate.
Defined.

Lemma interparcel_quote_request_stage (w : World) (input : ShippingServicesInput)
    (p : Params) (c t : string) :
  In (InterparcelQuoteReq p c t)
     (requests (getInterparcelShippingServices w input)) ->
  exists data page,
    interparcelAvailability w (availabilitySearchParams input) = Returned data /\
    truthy (isr_errorMessage data) = false /\
    interparcelQuotePage w (quotePageParams input) = Returned page /\
    falsy (phpSessIdOf (cookieJar page)) = false /\
    falsy (metaMatch page) = false.
Proof.
  destruct (interparcelAvailability w (availabilitySearchParams input))
    as [data | e] eqn:Hav.
  2:{ unfold getInterparcelShippingServices, fetch, requests. rewrite Hav.
      intros [H | []]. discriminate. }
  destruct (truthy (isr_errorMessage data)) eqn:Herr.
  { unfold getInterparcelShippingServices, fetch, requests.
    rewrite Hav, bind_Returned, Herr. intros [H | []]. discriminate. }
  destruct (interparcelQuotePage w (quotePageParams input))
    as [page | e] eqn:Hpage.
  2:{ unfold getInterparcelShippingServices, fetch, requests.
      rewrite Hav, bind_Returned, Herr, Hpage.
      intros [H | [H | []]]; discriminate. }
  destruct (falsy (phpSessIdOf (cookieJar page))) eqn:Hsess.
  { unfold getInterparcelShippingServices, fetch, requests.
    rewrite Hav, bind_Returned, Herr, Hpage, bind_Returned. cbv zeta.
    rewrite Hsess. intros [H | [H | []]]; discriminate. }
  destruct (falsy (metaMatch page)) eqn:Hcsrf.
  { unfold getInterparcelShippingServices, fetch, requests.
    rewrite Hav, bind_Returned, Herr, Hpage, bind_Returned. cbv zeta.
    rewrite Hsess, Hcsrf. intros [H | [H | []]]; discriminate. }
  intros _. now exists data, page.
Qed.

(** X8. The freight-broker client asks for a quote only with a session:
    whenever it issues a per-service quote request, the availability
    answer had no error message, the session page gave a non-empty
    session id and a non-empty token, the request carries the cookie
    header made of the whole cookie jar and that token, and it is for a
    service of the availability answer that is not a "Hunter" service
    and, unless the request is B2B, has no "b2b" in its name in any
    letter case. *)
Theorem X8_quotes_only_with_session
    (w : World) (input : ShippingServicesInput)
    (searchParams : Params) (cookieHeader csrfToken : string) :
  In (InterparcelQuoteReq searchParams cookieHeader csrfToken)
     (requests (getInterparcelShippingServices w input)) ->
  exists data page sid service,
    interparcelAvailability w (availabilitySearchParams input) = Returned data /\
    isr_errorMessage data = "" /\
    interparcelQuotePage w (quotePageParams input) = Returned page /\
    phpSessIdOf (cookieJar page) = Some sid /\ sid <> "" /\
    metaMatch page = Some csrfToken /\ csrfToken <> "" /\
    cookieHeader = cookieHeaderOf (cookieJar page) /\
    In service (isr_services data) /\
    searchParams = quoteSearchParams input service /\
    includes (ips_service service) "Hunter" = false /\
    (b2b input = false ->
     includes (toLowerCase (ips_service service)) "b2b" = false).
Proof.
  intros Hin.
  destruct (interparcel_quote_request_stage w input _ _ _ Hin)
    as (data & page & Hav & Herr & Hpage & Hsess & Hcsrf).
  rewrite (interparcel_requests_success w input data page
             Hav Herr Hpage Hsess Hcsrf) in Hin.
  destruct Hin as [H | [H | Hin]]; try discriminate.
  apply in_map_iff in Hin as [service [Heq Hcand]].
  injection Heq as <- <- <-.
  apply candidateServices_spec in Hcand as (Hserv & Hhunter & Hb2b).
  apply truthy_false in Herr.
  apply falsy_false in Hsess as (sid & Hsid & Hne).
  apply falsy_false in Hcsrf as (token & Htok & Hnt).
  exists data, page, sid, service. rewrite Htok. simpl.
  repeat split; auto.
  intros Hb. destruct Hb2b as [Hb2b | Hb2b]; [congruence | exact Hb2b].
Qed.

(** The quote request for service s4 in the example world. *)
Lemma X8_quotes_only_with_session_witness :
  let input := Examples.mkInput 25 50 40 30 "AU" false in
  exists data page sid service,
    interparcelAvailability Examples.world_up (availabilitySearchParams input)
    = Returned data /\
    isr_errorMessage data = "" /\
    interparcelQuotePage Examples.world_up (quotePageParams input)
    = Returned page /\
    phpSessIdOf (cookieJar page) = Some sid /\ sid <> "" /\
    metaMatch page = Some "tok-1" /\ "tok-1" <> "" /\
    "PHPSESSID=k3v9; region=au" = cookieHeaderOf (cookieJar page) /\
    In service (isr_services data) /\
    quoteSearchParams input (Examples.freightService "s4" "Couriers Please")
    = quoteSearchParams input service /\
    includes (ips_service service) "Hunter" = false /\
    (b2b input = false ->
     includes (toLowerCase (ips_service service)) "b2b" = false).
Proof.
  cbv zeta.
  apply (X8_quotes_only_with_session Examples.world_up
           (Examples.mkInput 25 50 40 30 "AU" false)).
  right. right. right. left. reflexivity.
Defined.

Lemma filter_quote_requests {S} (f : S -> Params) (cookieHeader csrfToken : string)
    (l : list S) :
  filter isQuoteRequest
    (map (fun x => InterparcelQuoteReq (f x) cookieHeader csrfToken) l)
  = map (fun x => InterparcelQuoteReq (f x) cookieHeader csrfToken) l.
Proof.
  induction l as [| x l IH]; [reflexivity |]. simpl. now rewrite IH.
Qed.

(** X9. Once the availability call and the session bootstrap went through,
    the client asks for a quote for every candidate service, one request
    each and in the order of the provider's list, however many there are
    (the cut to four is made on the answers, not on the requests).  The
    candidates are the services of the availability answer without those
    whose name includes "Hunter" and, unless the request is B2B, without
    those whose name includes "b2b" in any letter case. *)
Theorem X9_every_candidate_is_quoted
    (w : World) (input : ShippingServicesInput)
    (data : InterparcelShippingServicesResponse) (page : QuotePage) :
  interparcelAvailability w (availabilitySearchParams input) = Returned data ->
  isr_errorMessage data = "" ->
  interparcelQuotePage w (quotePageParams input) = Returned page ->
  (exists sid, phpSessIdOf (cookieJar page) = Some sid /\ sid <> "") ->
  (exists token, metaMatch page = Some token /\ token <> "") ->
  let kept service :=
    negb (includes (ips_service service) "Hunter") &&
    (b2b input || negb (includes (toLowerCase (ips_service service)) "b2b")) in
  quoteRequests (getInterparcelShippingServices w input) =
  map (fun service =>
         InterparcelQuoteReq (quoteSearchParams input service)
           (cookieHeaderOf (cookieJar page))
           (nullish (metaMatch page) ""))
      (filter kept (isr_services data)) /\
  List.length (quoteRequests (getInterparcelShippingServices w input)) =
  List.length (filter kept (isr_services data)).
Proof.
  intros Hav Herr Hpage Hsess Hcsrf kept.
  apply truthy_false in Herr.
  apply falsy_false in Hsess. apply falsy_false in Hcsrf.
  assert (Hcand : candidateServices input data = filter kept (isr_services data)).
  { unfold candidateServices, kept.
    induction (isr_services data) as [| service rest IH]; [reflexivity |].
    simpl. destruct (includes (ips_service service) "Hunter"); simpl;
      [exact IH |].
    destruct (b2b input); simpl; [now rewrite IH |].
    destruct (includes (toLowerCase (ips_service service)) "b2b"); simpl;
      now rewrite IH. }
  assert (Hquotes :
            quoteRequests (getInterparcelShippingServices w input) =
            map (fun service =>
                   InterparcelQuoteReq (quoteSearchParams input service)
                     (cookieHeaderOf (cookieJar page))
                     (nullish (metaMatch page) ""))
                (filter kept (isr_services data))).
  { unfold quoteRequests.
    rewrite (interparcel_requests_success w input data page
               Hav Herr Hpage Hsess Hcsrf), Hcand.
    cbn [filter isQuoteRequest]. apply filter_quote_requests. }
  rewrite Hquotes. split; [reflexivity |]. apply length_map.
Qed.

(** Eight services are listed, one of them a "Hunter" service and one a
    B2B service: six quotes are asked for an ordinary request. *)
Lemma X9_every_candidate_is_quoted_witness :
  List.length
    (quoteRequests (getInterparcelShippingServices Examples.world_up
                      (Examples.mkInput 25 50 40 30 "AU" false))) = 6%nat.
Proof.
  assert (Hsid : exists sid,
             phpSessIdOf (cookieJar Examples.sessionPage) = Some sid /\
             sid <> "").
  { exists "k3v9". split; [reflexivity | discriminate]. }
  assert (Htoken : exists token,
             metaMatch Examples.sessionPage = Some token /\ token <> "").
  { exists "tok-1". split; [reflexivity | discriminate]. }
  pose proof (X9_every_candidate_is_quoted Examples.world_up
                (Examples.mkInput 25 50 40 30 "AU" false)
                Examples.availabilityAnswer Examples.sessionPage
                eq_refl eq_refl eq_refl Hsid Htoken) as H.
  cbv zeta in H. destruct H as [_ H].
  etransitivity; [exact H | reflexivity].
Defined.

(** * The session bootstrap *)

(** ** Strings *)

Lemma isSpace_not_semicolon (c : ascii) :
  Bootstrap.isSpace c = true -> Ascii.eqb c ";"%char = false.
Proof.
  intros H. destruct (Ascii.eqb c ";"%char) eqn:E; [| reflexivity].
  apply Ascii.eqb_eq in E. subst c. discriminate.
Qed.

Lemma allSpaces_noSemicolon (pad : string) :
  Bootstrap.allSpaces pad = true -> Bootstrap.noChar ";"%char pad = true.
Proof.
  induction pad as [| c pad IH]; simpl; [reflexivity |].
  intros H. apply andb_true_iff in H as [Hc Hpad].
  now rewrite (isSpace_not_semicolon c Hc), IH.
Qed.

Lemma noChar_app (c : ascii) (a b : string) :
  Bootstrap.noChar c (a ++ b)%string =
  Bootstrap.noChar c a && Bootstrap.noChar c b.
Proof.
  induction a as [| d a IH]; simpl; [reflexivity |].
  now rewrite IH, andb_assoc.
Qed.

Lemma firstPiece_whole (c : ascii) (a : string) :
  Bootstrap.noChar c a = true -> Bootstrap.firstPiece c a = a.
Proof.
  induction a as [| d a IH]; simpl; [reflexivity |].
  intros H. apply andb_true_iff in H as [Hd Ha].
  apply negb_true_iff in Hd. now rewrite Hd, IH.
Qed.

Lemma firstPiece_app (c : ascii) (a b : string) :
  Bootstrap.noChar c a = true ->
  Bootstrap.firstPiece c (a ++ String c b)%string = a.
Proof.
  induction a as [| d a IH]; simpl.
  - now rewrite Ascii.eqb_refl.
  - intros H. apply andb_true_iff in H as [Hd Ha].
    apply negb_true_iff in Hd. now rewrite Hd, IH.
Qed.

Lemma firstPiece_noChar (c : ascii) (s : string) :
  Bootstrap.noChar c (Bootstrap.firstPiece c s) = true.
Proof.
  induction s as [| d s IH]; simpl; [reflexivity |].
  destruct (Ascii.eqb d c) eqn:E; simpl; [reflexivity |].
  now rewrite E, IH.
Qed.

Lemma trimStart_pad (pad x : string) :
  Bootstrap.allSpaces pad = true -> Bootstrap.startsClean x = true ->
  Bootstrap.trimStart (pad ++ x)%string = x.
Proof.
  intros Hpad Hx. induction pad as [| c pad IH]; simpl.
  - destruct x as [| d x]; [discriminate |]. simpl in *.
    apply negb_true_iff in Hx. now rewrite Hx.
  - simpl in Hpad. apply andb_true_iff in Hpad as [Hc Hpad].
    rewrite Hc. now apply IH.
Qed.

Lemma trimEnd_spaces (pad : string) :
  Bootstrap.allSpaces pad = true -> Bootstrap.trimEnd pad = "".
Proof.
  induction pad as [| c pad IH]; simpl; [reflexivity |].
  intros H. apply andb_true_iff in H as [Hc Hpad].
  now rewrite (IH Hpad), Hc.
Qed.

Lemma trimEnd_pad (x pad : string) :
  Bootstrap.endsClean x = true -> Bootstrap.allSpaces pad = true ->
  Bootstrap.trimEnd (x ++ pad)%string = x.
Proof.
  intros Hx Hpad. induction x as [| c x IH]; [discriminate |].
  destruct x as [| d x].
  - simpl in *. rewrite (trimEnd_spaces pad Hpad).
    apply negb_true_iff in Hx. now rewrite Hx.
  - change (Bootstrap.endsClean (String c (String d x)))
      with (Bootstrap.endsClean (String d x)) in Hx.
    specialize (IH Hx).
    change ((String c (String d x) ++ pad)%string)
      with (String c (String d x ++ pad)%string).
    change (Bootstrap.trimEnd (String c (String d x ++ pad)%string))
      with (match Bootstrap.trimEnd (String d x ++ pad)%string with
            | EmptyString =>
                if Bootstrap.isSpace c then EmptyString
                else String c EmptyString
            | rest' => String c rest'
            end).
    now rewrite IH.
Qed.

Lemma trimStart_clean (s : string) :
  Bootstrap.trimStart s = "" \/
  Bootstrap.startsClean (Bootstrap.trimStart s) = true.
Proof.
  induction s as [| c s IH]; simpl; [now left |].
  destruct (Bootstrap.isSpace c) eqn:E; [exact IH |].
  right. simpl. now rewrite E.
Qed.

Lemma indexOf_app (c : ascii) (a b : string) :
  Bootstrap.noChar c a = true ->
  Bootstrap.indexOf c (a ++ String c b)%string
  = Z.of_nat (String.length a).
Proof.
  induction a as [| d a IH]; simpl.
  - now rewrite Ascii.eqb_refl.
  - intros H. apply andb_true_iff in H as [Hd Ha].
    apply negb_true_iff in Hd. rewrite Hd, (IH Ha).
    destruct (Z.ltb_spec (Z.of_nat (String.length a)) 0); lia.
Qed.

Lemma sliceTo_app (a b : string) :
  Bootstrap.sliceTo (String.length a) (a ++ b)%string = a.
Proof. induction a as [| c a IH]; simpl; [now destruct b | now rewrite IH]. Qed.

Lemma sliceFrom_app (a b : string) :
  Bootstrap.sliceFrom (String.length a) (a ++ b)%string = b.
Proof. induction a as [| c a IH]; simpl; [now destruct b | exact IH]. Qed.

(** What [indexOf] finds: the text before the index has no [c], and [c]
    follows it. *)
Lemma indexOf_found (c : ascii) (s : string) :
  0 <= Bootstrap.indexOf c s ->
  let n := Z.to_nat (Bootstrap.indexOf c s) in
  s = (Bootstrap.sliceTo n s ++ String c (Bootstrap.sliceFrom (S n) s))%string /\
  Bootstrap.noChar c (Bootstrap.sliceTo n s) = true /\
  String.length (Bootstrap.sliceTo n s) = n.
Proof.
  induction s as [| d s IH]; simpl; [lia |].
  destruct (Ascii.eqb d c) eqn:E.
  - intros _. apply Ascii.eqb_eq in E. subst d. simpl. auto.
  - destruct (Z.ltb_spec (Bootstrap.indexOf c s) 0) as [Hneg | Hpos]; [lia |].
    intros _. specialize (IH Hpos). cbv zeta in IH.
    destruct IH as (Heq & Hno & Hlen).
    replace (Z.to_nat (Bootstrap.indexOf c s + 1))
      with (S (Z.to_nat (Bootstrap.indexOf c s))) by lia.
    set (n := Z.to_nat (Bootstrap.indexOf c s)) in *.
    change (Bootstrap.sliceTo (S n) (String d s))
      with (String d (Bootstrap.sliceTo n s)).
    change (Bootstrap.sliceFrom (S (S n)) (String d s))
      with (Bootstrap.sliceFrom (S n) s).
    split; [| split].
    + change ((String d (Bootstrap.sliceTo n s) ++
               String c (Bootstrap.sliceFrom (S n) s))%string)
        with (String d (Bootstrap.sliceTo n s ++
                        String c (Bootstrap.sliceFrom (S n) s))%string).
      f_equal. exact Heq.
    + simpl. now rewrite E, Hno.
    + simpl. now rewrite Hlen.
Qed.

(** ** Cookies *)

Lemma trimStart_noChar (c : ascii) (s : string) :
  Bootstrap.noChar c s = true ->
  Bootstrap.noChar c (Bootstrap.trimStart s) = true.
Proof.
  induction s as [| d s IH]; simpl; [reflexivity |].
  intros H. destruct (Bootstrap.isSpace d); [| exact H].
  apply andb_true_iff in H as [_ H]. now apply IH.
Qed.

Lemma trimEnd_noChar (c : ascii) (s : string) :
  Bootstrap.noChar c s = true ->
  Bootstrap.noChar c (Bootstrap.trimEnd s) = true.
Proof.
  induction s as [| d s IH]; simpl; [reflexivity |].
  intros H. apply andb_true_iff in H as [Hd Hs]. specialize (IH Hs).
  destruct (Bootstrap.trimEnd s) as [| e rest].
  - destruct (Bootstrap.isSpace d); simpl; [reflexivity |].
    now rewrite Hd.
  - change (Bootstrap.noChar c (String d (String e rest)))
      with (negb (Ascii.eqb d c) && Bootstrap.noChar c (String e rest)).
    now rewrite Hd, IH.
Qed.

Lemma str_app_assoc (a b c : string) :
  ((a ++ b) ++ c)%string = (a ++ (b ++ c))%string.
Proof. induction a as [| d a IH]; simpl; [reflexivity | now rewrite IH]. Qed.

Lemma endsClean_app (a b : string) :
  Bootstrap.endsClean b = true -> Bootstrap.endsClean (a ++ b)%string = true.
Proof.
  intros Hb. induction a as [| c a IH]; [exact Hb |].
  change ((String c a ++ b)%string) with (String c (a ++ b)%string).
  destruct (a ++ b)%string; [discriminate | exact IH].
Qed.

Lemma pair_clean (name value : string) :
  Bootstrap.startsClean name = true ->
  value = "" \/ Bootstrap.endsClean value = true ->
  Bootstrap.startsClean (name ++ String "="%char value)%string = true /\
  Bootstrap.endsClean (name ++ String "="%char value)%string = true.
Proof.
  intros Hname Hvalue. split.
  - destruct name; [discriminate | exact Hname].
  - apply endsClean_app. destruct Hvalue as [-> | Hv]; [reflexivity |].
    destruct value; [discriminate | exact Hv].
Qed.

Lemma sliceFrom_S_app (a : string) (c : ascii) (b : string) :
  Bootstrap.sliceFrom (S (String.length a)) (a ++ String c b)%string = b.
Proof. induction a as [| d a IH]; simpl; [now destruct b | exact IH]. Qed.

Lemma parseCookiePair_body (name value : string) :
  Bootstrap.startsClean name = true ->
  Bootstrap.noChar "="%char name = true ->
  forall sc,
    Bootstrap.trim (Bootstrap.firstPiece ";"%char sc)
    = (name ++ String "="%char value)%string ->
    Bootstrap.parseCookiePair sc = Some (name, value).
Proof.
  intros Hstart Hno sc Hfirst. unfold Bootstrap.parseCookiePair.
  rewrite Hfirst. cbv zeta.
  assert (Htruthy : truthy (name ++ String "="%char value)%string = true)
    by now destruct name.
  rewrite Htruthy, (indexOf_app "="%char name value Hno). cbn [negb].
  assert (Hpos : (0 <? Z.of_nat (String.length name)) = true).
  { apply Z.ltb_lt. destruct name; [discriminate | simpl String.length; lia]. }
  rewrite Hpos, Nat2Z.id.
  replace (Z.to_nat (Z.of_nat (String.length name) + 1))
    with (S (String.length name)) by lia.
  rewrite sliceTo_app, sliceFrom_S_app.
  now destruct name.
Qed.

(** X10. What a [Set-Cookie] string gives the cookie jar.  A string
    [name=value], also with white space around it and with attributes
    after a [;], gives exactly that name and value: the attributes never
    reach the jar.  Conversely whatever the jar is given is a non-empty
    name without [=] and [;] and a value without [;], cut at the first
    [=] of the trimmed text before the first [;]; a string that has no
    [=] there, or starts with it, gives nothing. *)
Theorem X10_cookie_pair_parsing :
  (forall name value pad1 pad2 attrs,
     Bootstrap.startsClean name = true ->
     Bootstrap.noChar "="%char name = true ->
     Bootstrap.noChar ";"%char name = true ->
     Bootstrap.noChar ";"%char value = true ->
     value = "" \/ Bootstrap.endsClean value = true ->
     Bootstrap.allSpaces pad1 = true ->
     Bootstrap.allSpaces pad2 = true ->
     Bootstrap.parseCookiePair (pad1 ++ name ++ "=" ++ value ++ pad2)%string
     = Some (name, value) /\
     Bootstrap.parseCookiePair
       (pad1 ++ name ++ "=" ++ value ++ pad2 ++ ";" ++ attrs)%string
     = Some (name, value)) /\
  (forall sc name value,
     Bootstrap.parseCookiePair sc = Some (name, value) ->
     name <> "" /\
     Bootstrap.noChar "="%char name = true /\
     Bootstrap.noChar ";"%char name = true /\
     Bootstrap.noChar ";"%char value = true /\
     Bootstrap.trim (Bootstrap.firstPiece ";"%char sc)
     = (name ++ "=" ++ value)%string) /\
  (forall sc,
     Bootstrap.indexOf "="%char
       (Bootstrap.trim (Bootstrap.firstPiece ";"%char sc)) <= 0 ->
     Bootstrap.parseCookiePair sc = None).
Proof.
  split; [| split].
  - intros name value pad1 pad2 attrs Hstart Hnoeq Hnosc Hvsc Hvend Hp1 Hp2.
    destruct (pair_clean name value Hstart Hvend) as [Hs He].
    assert (Hno : Bootstrap.noChar ";"%char
                    (pad1 ++ name ++ "=" ++ value ++ pad2)%string = true).
    { rewrite !noChar_app, (allSpaces_noSemicolon pad1 Hp1), Hnosc, Hvsc,
        (allSpaces_noSemicolon pad2 Hp2). reflexivity. }
    assert (Htrim : Bootstrap.trim (pad1 ++ name ++ "=" ++ value ++ pad2)%string
                    = (name ++ String "="%char value)%string).
    { unfold Bootstrap.trim.
      replace (pad1 ++ name ++ "=" ++ value ++ pad2)%string
        with (pad1 ++ ((name ++ String "="%char value) ++ pad2))%string.
      2:{ now rewrite !str_app_assoc. }
      rewrite trimStart_pad; [now apply trimEnd_pad | exact Hp1 |].
      destruct name; [discriminate | exact Hstart]. }
    split; apply parseCookiePair_body; auto.
    + now rewrite firstPiece_whole.
    + replace (pad1 ++ name ++ "=" ++ value ++ pad2 ++ ";" ++ attrs)%string
        with ((pad1 ++ name ++ "=" ++ value ++ pad2) ++ String ";"%char attrs)%string.
      2:{ now rewrite !str_app_assoc. }
      now rewrite firstPiece_app.
  - intros sc name value. unfold Bootstrap.parseCookiePair. cbv zeta.
    set (first := Bootstrap.trim (Bootstrap.firstPiece ";"%char sc)).
    assert (Hnosc : Bootstrap.noChar ";"%char first = true).
    { unfold first, Bootstrap.trim.
      apply trimEnd_noChar, trimStart_noChar, firstPiece_noChar. }
    destruct (truthy first); [| discriminate]. cbn [negb].
    destruct (Z.ltb_spec 0 (Bootstrap.indexOf "="%char first)) as [Hpos | Hneg];
      [| discriminate].
    destruct (indexOf_found "="%char first ltac:(lia)) as (Heq & Hno & Hlen).
    replace (Z.to_nat (Bootstrap.indexOf "="%char first + 1))
      with (S (Z.to_nat (Bootstrap.indexOf "="%char first))) by lia.
    set (n := Z.to_nat (Bootstrap.indexOf "="%char first)) in *.
    destruct (truthy (Bootstrap.sliceTo n first)) eqn:Ht; [| discriminate].
    intros [= <- <-].
    rewrite Heq, noChar_app in Hnosc.
    apply andb_true_iff in Hnosc as [Hn Hv]. simpl in Hv.
    repeat split; auto.
    + intros H. rewrite H in Ht. discriminate.
  - intros sc Hidx. unfold Bootstrap.parseCookiePair. cbv zeta.
    destruct (truthy _); [| reflexivity]. cbn [negb].
    destruct (Z.ltb_spec 0 (Bootstrap.indexOf "="%char
                              (Bootstrap.trim (Bootstrap.firstPiece ";"%char sc))));
      [lia | reflexivity].
Qed.

(** The session cookie with its attributes, and two strings that give
    nothing. *)
Lemma X10_cookie_pair_parsing_witness :
  Bootstrap.parseCookiePair " PHPSESSID=k3v9 ; path=/; HttpOnly"
  = Some ("PHPSESSID", "k3v9") /\
  Bootstrap.parseCookiePair "=k3v9; path=/" = None /\
  Bootstrap.parseCookiePair "HttpOnly" = None.
Proof.
  destruct X10_cookie_pair_parsing as (Hround & _ & Hnone).
  split; [| split].
  - apply (proj2 (Hround "PHPSESSID" "k3v9" " " " " " path=/; HttpOnly"
                    eq_refl eq_refl eq_refl eq_refl (or_intror eq_refl)
                    eq_refl eq_refl)).
  - apply Hnone. vm_compute. discriminate.
  - apply Hnone. vm_compute. discriminate.
Defined.

(** ** The cookie jar *)

Lemma hasKey_lookup (key : string) (jar : Bootstrap.Jar) :
  Bootstrap.hasKey key jar = false <-> lookup key jar = None.
Proof.
  induction jar as [| [k v] jar IH]; simpl; [tauto |].
  destruct (String.eqb k key); simpl; [split; discriminate | exact IH].
Qed.

Lemma hasKey_In (key : string) (jar : Bootstrap.Jar) :
  Bootstrap.hasKey key jar = true <-> In key (map fst jar).
Proof.
  induction jar as [| [k v] jar IH]; simpl; [split; [discriminate | tauto] |].
  rewrite orb_true_iff, IH, String.eqb_eq. tauto.
Qed.

Lemma lookup_replaceValue (key value k : string) (jar : Bootstrap.Jar) :
  Bootstrap.hasKey key jar = true ->
  lookup k (Bootstrap.replaceValue key value jar) =
  if String.eqb k key then Some value else lookup k jar.
Proof.
  induction jar as [| [k' v'] jar IH]; simpl; [discriminate |].
  destruct (String.eqb k' key) eqn:E.
  - intros _. apply String.eqb_eq in E. subst k'. simpl.
    rewrite (String.eqb_sym k key). now destruct (String.eqb key k).
  - simpl. intros H. rewrite (IH H).
    destruct (String.eqb k' k) eqn:E'; [| reflexivity].
    apply String.eqb_eq in E'. subst k'. now rewrite E.
Qed.

Lemma keys_replaceValue (key value : string) (jar : Bootstrap.Jar) :
  map fst (Bootstrap.replaceValue key value jar) = map fst jar.
Proof.
  induction jar as [| [k v] jar IH]; simpl; [reflexivity |].
  destruct (String.eqb k key); simpl; [reflexivity | now rewrite IH].
Qed.

Lemma lookup_insertIndexed (n : N) (key value k : string) (jar : Bootstrap.Jar) :
  Bootstrap.hasKey key jar = false ->
  lookup k (Bootstrap.insertIndexed n key value jar) =
  if String.eqb k key then Some value else lookup k jar.
Proof.
  induction jar as [| [k' v'] jar IH]; simpl.
  - intros _. rewrite (String.eqb_sym key k). now destruct (String.eqb k key).
  - intros H. apply orb_false_iff in H as [Hk Hrest].
    assert (Hhead : lookup k ((key, value) :: (k', v') :: jar) =
                    if String.eqb k key then Some value
                    else if String.eqb k' k then Some v' else lookup k jar).
    { simpl. rewrite (String.eqb_sym key k). now destruct (String.eqb k key). }
    destruct (Bootstrap.arrayIndex k') as [m |]; [| exact Hhead].
    destruct (m <? n)%N; [| exact Hhead].
    simpl. rewrite (IH Hrest).
    destruct (String.eqb k' k) eqn:E; [| reflexivity].
    apply String.eqb_eq in E. subst k'. now rewrite Hk.
Qed.

Lemma keys_insertIndexed (n : N) (key value : string) (jar : Bootstrap.Jar)
    (k : string) :
  In k (map fst (Bootstrap.insertIndexed n key value jar)) <->
  k = key \/ In k (map fst jar).
Proof.
  induction jar as [| [k' v'] jar IH]; simpl; [intuition |].
  destruct (Bootstrap.arrayIndex k') as [m |]; [| simpl; intuition].
  destruct (m <? n)%N; simpl; [rewrite IH |]; intuition.
Qed.

Lemma NoDup_insertIndexed (n : N) (key value : string) (jar : Bootstrap.Jar) :
  ~ In key (map fst jar) -> NoDup (map fst jar) ->
  NoDup (map fst (Bootstrap.insertIndexed n key value jar)).
Proof.
  induction jar as [| [k' v'] jar IH]; simpl; intros Hnot Hnd.
  - constructor; [tauto | constructor].
  - assert (Hhead : NoDup (key :: k' :: map fst jar)).
    { constructor; [simpl; tauto | exact Hnd]. }
    destruct (Bootstrap.arrayIndex k') as [m |]; [| exact Hhead].
    destruct (m <? n)%N; [| exact Hhead].
    simpl. inversion Hnd as [| ? ? Hk' Hnd']; subst.
    constructor.
    + rewrite keys_insertIndexed. intros [-> | H]; tauto.
    + apply IH; tauto.
Qed.

Lemma lookup_app_new (key value k : string) (jar : Bootstrap.Jar) :
  Bootstrap.hasKey key jar = false ->
  lookup k (jar ++ [(key, value)]) =
  if String.eqb k key then Some value else lookup k jar.
Proof.
  induction jar as [| [k' v'] jar IH]; simpl.
  - intros _. rewrite (String.eqb_sym key k). now destruct (String.eqb k key).
  - intros H. apply orb_false_iff in H as [Hk Hrest]. rewrite (IH Hrest).
    destruct (String.eqb k' k) eqn:E; [| reflexivity].
    apply String.eqb_eq in E. subst k'. now rewrite Hk.
Qed.

Lemma lookup_setProperty (name value k : string) (jar : Bootstrap.Jar) :
  name <> "__proto__" ->
  lookup k (Bootstrap.setProperty name value jar) =
  if String.eqb k name then Some value else lookup k jar.
Proof.
  intros Hname. unfold Bootstrap.setProperty.
  apply String.eqb_neq in Hname. rewrite Hname.
  destruct (Bootstrap.hasKey name jar) eqn:Hhas.
  - now apply lookup_replaceValue.
  - destruct (Bootstrap.arrayIndex name).
    + now apply lookup_insertIndexed.
    + now apply lookup_app_new.
Qed.

Lemma NoDup_setProperty (name value : string) (jar : Bootstrap.Jar) :
  NoDup (map fst jar) -> NoDup (map fst (Bootstrap.setProperty name value jar)).
Proof.
  intros Hnd. unfold Bootstrap.setProperty.
  destruct (String.eqb name "__proto__"); [exact Hnd |].
  destruct (Bootstrap.hasKey name jar) eqn:Hhas.
  - now rewrite keys_replaceValue.
  - assert (Hnot : ~ In name (map fst jar)).
    { intros H. apply hasKey_In in H. congruence. }
    destruct (Bootstrap.arrayIndex name).
    + now apply NoDup_insertIndexed.
    + rewrite map_app. simpl. apply NoDup_app; auto.
      * constructor; [tauto | constructor].
      * intros a Ha [<- | []]. contradiction.
Qed.

Lemma lookup_absorbCookie (k : string) (jar : Bootstrap.Jar) (sc : string) :
  k <> "__proto__" ->
  lookup k (Bootstrap.absorbCookie jar sc) =
  match Bootstrap.parseCookiePair sc with
  | Some (n, v) => if String.eqb n k then Some v else lookup k jar
  | None => lookup k jar
  end.
Proof.
  intros Hk. unfold Bootstrap.absorbCookie.
  destruct (Bootstrap.parseCookiePair sc) as [[n v] |]; [| reflexivity].
  destruct (String.eqb n "__proto__") eqn:Hn.
  - apply String.eqb_eq in Hn. subst n.
    unfold Bootstrap.setProperty. rewrite String.eqb_refl.
    apply String.eqb_neq in Hk. rewrite (String.eqb_sym "__proto__" k).
    now rewrite Hk.
  - apply String.eqb_neq in Hn. rewrite (lookup_setProperty n v k jar Hn).
    now rewrite (String.eqb_sym k n).
Qed.

Lemma lookup_absorbAll (k : string) (cookies : list string)
    (jar : Bootstrap.Jar) :
  k <> "__proto__" ->
  lookup k (fold_left Bootstrap.absorbCookie cookies jar) =
  match Bootstrap.lastValue k cookies with
  | Some v => Some v
  | None => lookup k jar
  end.
Proof.
  intros Hk. revert jar.
  induction cookies as [| sc rest IH]; intros jar; simpl; [reflexivity |].
  rewrite IH. destruct (Bootstrap.lastValue k rest); [reflexivity |].
  rewrite (lookup_absorbCookie k jar sc Hk).
  destruct (Bootstrap.parseCookiePair sc) as [[n v] |]; [| reflexivity].
  now destruct (String.eqb n k).
Qed.

Lemma NoDup_absorbAll (cookies : list string) (jar : Bootstrap.Jar) :
  NoDup (map fst jar) ->
  NoDup (map fst (fold_left Bootstrap.absorbCookie cookies jar)).
Proof.
  revert jar. induction cookies as [| sc rest IH]; intros jar Hnd; simpl;
    [exact Hnd |].
  apply IH. unfold Bootstrap.absorbCookie.
  destruct (Bootstrap.parseCookiePair sc) as [[n v] |]; [| exact Hnd].
  now apply NoDup_setProperty.
Qed.

(** X11. The cookie jar holds, for every name, the value of the last
    cookie that set it: after a list of [Set-Cookie] strings has been
    taken in, looking a name up gives the value of the last string of the
    list that parses to that name, and what the jar held before when
    there is none.  The jar never holds a name twice, so the [Cookie]
    header names each cookie once.  (The name [__proto__] is the one
    exception: such a cookie is not stored.) *)
Theorem X11_jar_keeps_last_value
    (cookies : list string) (jar : Bootstrap.Jar) (name : string) :
  name <> "__proto__" ->
  NoDup (map fst jar) ->
  lookup name (fold_left Bootstrap.absorbCookie cookies jar) =
  match Bootstrap.lastValue name cookies with
  | Some v => Some v
  | None => lookup name jar
  end /\
  NoDup (map fst (fold_left Bootstrap.absorbCookie cookies jar)) /\
  lookup "__proto__" (fold_left Bootstrap.absorbCookie cookies jar)
  = lookup "__proto__" jar.
Proof.
  intros Hname Hnd. split; [| split].
  - now apply lookup_absorbAll.
  - now apply NoDup_absorbAll.
  - revert jar Hnd. induction cookies as [| sc rest IH]; intros jar Hnd;
      simpl; [reflexivity |].
    rewrite IH.
    + unfold Bootstrap.absorbCookie.
      destruct (Bootstrap.parseCookiePair sc) as [[n v] |]; [| reflexivity].
      destruct (String.eqb n "__proto__") eqn:Hn.
      * unfold Bootstrap.setProperty. now rewrite Hn.
      * apply String.eqb_neq in Hn.
        rewrite (lookup_setProperty n v "__proto__" jar Hn).
        rewrite (String.eqb_sym "__proto__" n).
        apply String.eqb_neq in Hn. now rewrite Hn.
    + unfold Bootstrap.absorbCookie.
      destruct (Bootstrap.parseCookiePair sc) as [[n v] |]; [| exact Hnd].
      now apply NoDup_setProperty.
Qed.

(** The session cookie is set twice: the second value is kept, at the
    place of the first. *)
Lemma X11_jar_keeps_last_value_witness :
  lookup "PHPSESSID"
    (fold_left Bootstrap.absorbCookie
       [ "PHPSESSID=old; path=/"; "region=au"; "PHPSESSID=k3v9; path=/" ] [])
  = Some "k3v9" /\
  fold_left Bootstrap.absorbCookie
    [ "PHPSESSID=old; path=/"; "region=au"; "PHPSESSID=k3v9; path=/" ] []
  = [ ("PHPSESSID", "k3v9"); ("region", "au") ].
Proof.
  split; [| reflexivity].
  rewrite (proj1 (X11_jar_keeps_last_value
                    [ "PHPSESSID=old; path=/"; "region=au";
                      "PHPSESSID=k3v9; path=/" ] [] "PHPSESSID"
                    ltac:(discriminate) (NoDup_nil _))).
  reflexivity.
Defined.

(** ** The token *)

Lemma lower_ascii_space (c : ascii) :
  Bootstrap.isSpace c = true -> lower_ascii c = c.
Proof.
  destruct c as [[] [] [] [] [] [] [] []]; try discriminate; reflexivity.
Qed.

Lemma lower_ascii_lt (c : ascii) :
  lower_ascii c = "<"%char -> c = "<"%char.
Proof.
  destruct c as [[] [] [] [] [] [] [] []]; try discriminate; reflexivity.
Qed.

Lemma lower_ascii_idem (c : ascii) : lower_ascii (lower_ascii c) = lower_ascii c.
Proof. destruct c as [[] [] [] [] [] [] [] []]; reflexivity. Qed.

Lemma matchLiteral_app (lit x rest : string) :
  toLowerCase x = toLowerCase lit ->
  Bootstrap.matchLiteral lit (x ++ rest)%string = Some rest.
Proof.
  revert x. induction lit as [| a lit IH]; intros [| c x]; simpl;
    try discriminate; [reflexivity |].
  intros [= Hc Hx]. rewrite Hc, Ascii.eqb_refl. now apply IH.
Qed.

Lemma startsClean_literal (lit x rest : string) :
  toLowerCase x = toLowerCase lit ->
  Bootstrap.startsClean lit = true ->
  Bootstrap.startsClean (toLowerCase lit) = true ->
  Bootstrap.startsClean (x ++ rest)%string = true.
Proof.
  destruct lit as [| a lit], x as [| c x]; simpl; try discriminate.
  intros [= Hc _] _ Ha.
  destruct (Bootstrap.isSpace c) eqn:E; [| reflexivity].
  rewrite <- Hc, (lower_ascii_space c E), E in Ha. discriminate.
Qed.

Lemma matchSpaces_app (ws rest : string) :
  ws <> "" -> Bootstrap.allSpaces ws = true ->
  Bootstrap.startsClean rest = true ->
  Bootstrap.matchSpaces (ws ++ rest)%string = Some rest.
Proof.
  destruct ws as [| c ws]; [congruence |]. intros _ H Hrest. simpl in *.
  apply andb_true_iff in H as [Hc Hws]. rewrite Hc.
  now rewrite trimStart_pad.
Qed.

Lemma matchQuote_cons (q : ascii) (rest : string) :
  Bootstrap.isQuote q = true ->
  Bootstrap.matchQuote (String q rest) = Some rest.
Proof. intros H. simpl. now rewrite H. Qed.

Lemma matchToken_app (token : string) (q : ascii) (rest : string) :
  token <> "" -> Bootstrap.noQuote token = true ->
  Bootstrap.isQuote q = true ->
  Bootstrap.matchToken (token ++ String q rest)%string = Some token.
Proof.
  intros Hne Hno Hq. induction token as [| c token IH]; [congruence |].
  simpl in Hno. apply andb_true_iff in Hno as [Hc Hno].
  apply negb_true_iff in Hc.
  destruct token as [| d token].
  - simpl. now rewrite Hc, Hq.
  - change ((String c (String d token) ++ String q rest)%string)
      with (String c (String d (token ++ String q rest)%string)).
    change (Bootstrap.matchToken
              (String c (String d (token ++ String q rest)%string)))
      with (if Bootstrap.isQuote c then None
            else if Bootstrap.isQuote d then Some (String c EmptyString)
                 else option_map (String c)
                        (Bootstrap.matchToken
                           (String d (token ++ String q rest)%string))).
    rewrite Hc.
    assert (Hd : Bootstrap.isQuote d = false).
    { simpl in Hno. apply andb_true_iff in Hno as [Hd _].
      now apply negb_true_iff in Hd. }
    rewrite Hd.
    change (String d (token ++ String q rest)%string)
      with ((String d token ++ String q rest)%string).
    rewrite IH; [reflexivity | discriminate | exact Hno].
Qed.

Lemma matchToken_sound (s token : string) :
  Bootstrap.matchToken s = Some token ->
  token <> "" /\ Bootstrap.noQuote token = true.
Proof.
  revert token. induction s as [| c s IH]; intros token; [discriminate |].
  simpl. destruct (Bootstrap.isQuote c) eqn:Hc; [discriminate |].
  destruct s as [| d s]; [discriminate |].
  destruct (Bootstrap.isQuote d) eqn:Hd.
  - intros [= <-]. split; [discriminate |]. simpl. now rewrite Hc.
  - destruct (Bootstrap.matchToken (String d s)) as [t |] eqn:Ht;
      [| discriminate].
    intros [= <-]. destruct (IH t eq_refl) as [_ Hno].
    split; [discriminate |]. simpl. now rewrite Hc, Hno.
Qed.

Lemma matchMetaAt_sound (s token : string) :
  Bootstrap.matchMetaAt s = Some token ->
  token <> "" /\ Bootstrap.noQuote token = true.
Proof.
  unfold Bootstrap.matchMetaAt, Bootstrap.andThen.
  repeat match goal with
         | |- context [match ?x with Some _ => _ | None => None end] =>
             destruct x; [| discriminate]
         end.
  apply matchToken_sound.
Qed.

Lemma matchMetaAt_other (c : ascii) (s : string) :
  c <> "<"%char -> Bootstrap.matchMetaAt (String c s) = None.
Proof.
  intros Hc. unfold Bootstrap.matchMetaAt.
  change (Bootstrap.matchLiteral "<meta" (String c s))
    with (if Ascii.eqb (lower_ascii "<"%char) (lower_ascii c)
          then Bootstrap.matchLiteral "meta" s else None).
  destruct (Ascii.eqb (lower_ascii "<"%char) (lower_ascii c)) eqn:E;
    [| reflexivity].
  apply Ascii.eqb_eq in E. symmetry in E.
  change (lower_ascii "<"%char) with "<"%char in E.
  now apply lower_ascii_lt in E.
Qed.

Lemma extractCsrf_skip (pre s : string) :
  Bootstrap.noChar "<"%char pre = true ->
  s <> "" ->
  Bootstrap.extractCsrf (pre ++ s)%string = Bootstrap.extractCsrf s.
Proof.
  intros Hpre Hs. induction pre as [| c pre IH]; [reflexivity |].
  simpl in Hpre. apply andb_true_iff in Hpre as [Hc Hpre].
  apply negb_true_iff, Ascii.eqb_neq in Hc.
  change ((String c pre ++ s)%string) with (String c (pre ++ s)%string).
  change (Bootstrap.extractCsrf (String c (pre ++ s)%string))
    with (match Bootstrap.matchMetaAt (String c (pre ++ s)%string) with
          | Some token => Some token
          | None => Bootstrap.extractCsrf (pre ++ s)%string
          end).
  rewrite (matchMetaAt_other c _ Hc). now apply IH.
Qed.

(** X12. Finding the token in the page.  A page in which no [<] comes
    before a tag made of [<meta], white space, [name=], a quote,
    [csrf-token], a quote, white space, [content=], a quote, a non-empty
    token without quotes and a closing quote (the words in any letter
    case, the quotes single or double, any amount of white space) yields
    exactly that token.  Whatever is found is a non-empty text without
    quotes, so the check for an empty token can only fail when nothing
    was found; and an empty page yields nothing. *)
Theorem X12_csrf_token_extraction :
  (forall pre tag nameAttr key contentAttr ws1 ws2 q1 q2 q3 q4 token post,
     Bootstrap.noChar "<"%char pre = true ->
     toLowerCase tag = "<meta" ->
     toLowerCase nameAttr = "name=" ->
     toLowerCase key = "csrf-token" ->
     toLowerCase contentAttr = "content=" ->
     ws1 <> "" -> Bootstrap.allSpaces ws1 = true ->
     ws2 <> "" -> Bootstrap.allSpaces ws2 = true ->
     Bootstrap.isQuote q1 = true -> Bootstrap.isQuote q2 = true ->
     Bootstrap.isQuote q3 = true -> Bootstrap.isQuote q4 = true ->
     token <> "" -> Bootstrap.noQuote token = true ->
     Bootstrap.extractCsrf
       (pre ++ tag ++ ws1 ++ nameAttr ++ String q1 (key ++ String q2
          (ws2 ++ contentAttr ++ String q3 (token ++ String q4 post))))%string
     = Some token) /\
  (forall html token,
     Bootstrap.extractCsrf html = Some token ->
     token <> "" /\ Bootstrap.noQuote token = true /\
     falsy (Some token) = false) /\
  Bootstrap.extractCsrf "" = None.
Proof.
  split; [| split].
  - intros pre tag nameAttr key contentAttr ws1 ws2 q1 q2 q3 q4 token post
      Hpre Htag Hname Hkey Hcontent Hw1 Hs1 Hw2 Hs2 Hq1 Hq2 Hq3 Hq4 Htok Hno.
    rewrite extractCsrf_skip; [| exact Hpre | now destruct tag].
    assert (Hat : Bootstrap.matchMetaAt
                    (tag ++ ws1 ++ nameAttr ++ String q1 (key ++ String q2
                       (ws2 ++ contentAttr ++ String q3
                          (token ++ String q4 post))))%string
                  = Some token).
    { unfold Bootstrap.matchMetaAt, Bootstrap.andThen.
      rewrite (matchLiteral_app "<meta" tag _ Htag).
      rewrite matchSpaces_app;
        [| exact Hw1 | exact Hs1
         | now apply (startsClean_literal "name=" nameAttr) ].
      rewrite (matchLiteral_app "name=" nameAttr _ Hname).
      rewrite (matchQuote_cons q1 _ Hq1).
      rewrite (matchLiteral_app "csrf-token" key _ Hkey).
      rewrite (matchQuote_cons q2 _ Hq2).
      rewrite matchSpaces_app;
        [| exact Hw2 | exact Hs2
         | now apply (startsClean_literal "content=" contentAttr) ].
      rewrite (matchLiteral_app "content=" contentAttr _ Hcontent).
      rewrite (matchQuote_cons q3 _ Hq3).
      now apply matchToken_app. }
    destruct tag as [| c tag]; [discriminate |].
    change ((String c tag ++ ?x)%string) with (String c (tag ++ x)%string).
    simpl Bootstrap.extractCsrf.
    change (String c (tag ++ ?x)%string) with ((String c tag ++ x)%string).
    now rewrite Hat.
  - intros html token. induction html as [| c html IH]; simpl.
    + discriminate.
    + destruct (Bootstrap.matchMetaAt (String c html)) eqn:E; [| exact IH].
      intros [= <-]. apply matchMetaAt_sound in E as [Hne Hno].
      repeat split; auto; destruct s; [congruence | reflexivity].
  - reflexivity.
Qed.

(** An upper-case tag with single and double quotes, after some text. *)
Lemma X12_csrf_token_extraction_witness :
  Bootstrap.extractCsrf
    ("html head " ++ "<META" ++ "  " ++ "name=" ++ String "'"%char
       ("csrf-token" ++ String "'"%char
          (" " ++ "CONTENT=" ++ String Bootstrap.dquote
             ("tok-1" ++ String Bootstrap.dquote "></head>"))))%string
  = Some "tok-1".
Proof.
  apply (proj1 X12_csrf_token_extraction
           "html head " "<META" "name=" "csrf-token" "CONTENT=" "  " " "
           "'"%char "'"%char Bootstrap.dquote Bootstrap.dquote "tok-1"
           "></head>"); try reflexivity; discriminate.
Defined.

(** ** The loop *)

Lemma followRedirects_length (p : Bootstrap.Platform) (hops : nat)
    (url : Bootstrap.Url) (jar : Bootstrap.Jar) :
  (List.length (fst (Bootstrap.followRedirects p hops url jar)) <= hops)%nat.
Proof.
  revert url jar. induction hops as [| hops IH]; intros url jar; simpl;
    [lia |].
  destruct (Bootstrap.fetchPage p url _) as [res | e]; simpl; [| lia].
  destruct (_ && _).
  - destruct (Bootstrap.resolveURL p _ url) as [next | e]; simpl; [| lia].
    specialize (IH (Bootstrap.Redirected next)
                   (fold_left Bootstrap.absorbCookie
                      (Bootstrap.parseSetCookieHeaders (Bootstrap.pr_headers res))
                      jar)).
    destruct (Bootstrap.followRedirects p hops _ _) as [log r]. simpl in *. lia.
  - destruct (Bootstrap.pr_text res); simpl; lia.
Qed.

Lemma followRedirects_first (p : Bootstrap.Platform) (hops : nat)
    (url : Bootstrap.Url) (jar : Bootstrap.Jar) :
  hd_error (fst (Bootstrap.followRedirects p (S hops) url jar)) =
  Some (url, match jar with
             | [] => None
             | _ :: _ => Some (cookieHeaderOf jar)
             end).
Proof.
  simpl. destruct (Bootstrap.fetchPage p url _) as [res | e]; [| reflexivity].
  destruct (_ && _).
  - destruct (Bootstrap.resolveURL p _ url) as [next | e]; [| reflexivity].
    now destruct (Bootstrap.followRedirects p hops _ _).
  - now destruct (Bootstrap.pr_text res).
Qed.

Lemma followRedirects_redirect (p : Bootstrap.Platform) (hops : nat)
    (url : Bootstrap.Url) (jar : Bootstrap.Jar)
    (res : Bootstrap.PageResponse) (next : string) :
  let cookie := match jar with
                | [] => None
                | _ :: _ => Some (cookieHeaderOf jar)
                end in
  let jar' :=
    fold_left Bootstrap.absorbCookie
      (Bootstrap.parseSetCookieHeaders (Bootstrap.pr_headers res)) jar in
  Bootstrap.fetchPage p url cookie = Returned res ->
  (300 <=? Bootstrap.pr_status res) && (Bootstrap.pr_status res <? 400)
  && negb (falsy (Bootstrap.get_location (Bootstrap.pr_headers res))) = true ->
  Bootstrap.resolveURL p
    (nullish (Bootstrap.get_location (Bootstrap.pr_headers res)) "") url
  = Returned next ->
  Bootstrap.followRedirects p (S hops) url jar =
  ((url, cookie)
   :: fst (Bootstrap.followRedirects p hops (Bootstrap.Redirected next) jar'),
   snd (Bootstrap.followRedirects p hops (Bootstrap.Redirected next) jar')).
Proof.
  intros cookie jar' Hres Hred Hnext. simpl. fold cookie.
  rewrite Hres, Hred, Hnext. fold jar'.
  now destruct (Bootstrap.followRedirects p hops _ jar').
Qed.

Lemma followRedirects_loop (p : Bootstrap.Platform) :
  Bootstrap.alwaysRedirects p ->
  forall hops url jar,
    exists jar',
      snd (Bootstrap.followRedirects p hops url jar) = Returned (jar', "") /\
      List.length (fst (Bootstrap.followRedirects p hops url jar)) = hops.
Proof.
  intros Hloop hops. induction hops as [| hops IH]; intros url jar; simpl.
  - now exists jar.
  - destruct (Hloop url match jar with
                        | [] => None
                        | _ :: _ => Some (cookieHeaderOf jar)
                        end)
      as (res & loc & next & Hres & [Hlo Hhi] & Hloc & Hne & Hnext).
    rewrite Hres, Hloc.
    assert (Hred : (300 <=? Bootstrap.pr_status res)
                   && (Bootstrap.pr_status res <? 400)
                   && negb (falsy (Some loc)) = true).
    { apply Z.leb_le in Hlo. apply Z.ltb_lt in Hhi. rewrite Hlo, Hhi.
      destruct loc; [congruence | reflexivity]. }
    rewrite Hred. cbn [nullish]. rewrite Hnext.
    destruct (IH (Bootstrap.Redirected next)
                 (fold_left Bootstrap.absorbCookie
                    (Bootstrap.parseSetCookieHeaders (Bootstrap.pr_headers res))
                    jar)) as (jar' & Hsnd & Hlen).
    destruct (Bootstrap.followRedirects p hops _ _) as [log r]. simpl in *.
    exists jar'. now rewrite Hlen.
Qed.

Lemma interparcel_without_credentials (w : World) (input : ShippingServicesInput)
    (data : InterparcelShippingServicesResponse) (page : QuotePage) :
  interparcelAvailability w (availabilitySearchParams input) = Returned data ->
  isr_errorMessage data = "" ->
  interparcelQuotePage w (quotePageParams input) = Returned page ->
  falsy (phpSessIdOf (cookieJar page)) = true \/ falsy (metaMatch page) = true ->
  getInterparcelShippingServices w input =
  ([ Fetch (InterparcelAvailabilityReq (availabilitySearchParams input));
     Fetch (InterparcelQuotePageReq (quotePageParams input)) ],
   Threw {| message :=
            if falsy (phpSessIdOf (cookieJar page))
            then "PHPSESSID not found in Interparcel response"
            else "Failed to obtain CSRF token from Interparcel" |}).
Proof.
  intros Hav Herr Hpage Hmiss. apply truthy_false in Herr.
  unfold getInterparcelShippingServices, fetch.
  rewrite Hav, bind_Returned, Herr, Hpage, bind_Returned. cbv zeta.
  destruct (falsy (phpSessIdOf (cookieJar page))); [reflexivity |].
  destruct Hmiss as [H | H]; [discriminate |]. now rewrite H.
Qed.

(** X13. The session bootstrap asks for at least one and at most five
    pages, whatever the server answers.  When the server answers every
    request with a redirect, the loop gives up after exactly five
    requests with an empty page, in which no token is found; the client
    then fails without asking for any quote, with "PHPSESSID not found in
    Interparcel response" when no session id was collected on the way and
    with "Failed to obtain CSRF token from Interparcel" otherwise. *)
Theorem X13_redirect_loop_ends (p : Bootstrap.Platform) :
  (forall params,
     (1 <= List.length (fst (Bootstrap.bootstrap p params)) <= 5)%nat) /\
  (Bootstrap.alwaysRedirects p ->
   forall (w : World) (input : ShippingServicesInput) data,
     interparcelAvailability w (availabilitySearchParams input) = Returned data ->
     isr_errorMessage data = "" ->
     List.length (fst (Bootstrap.bootstrap p (quotePageParams input))) = 5%nat /\
     exists jar,
       snd (Bootstrap.bootstrap p (quotePageParams input)) = Returned (jar, "") /\
       getInterparcelShippingServices (Bootstrap.withPlatform p w) input =
       ([ Fetch (InterparcelAvailabilityReq (availabilitySearchParams input));
          Fetch (InterparcelQuotePageReq (quotePageParams input)) ],
        Threw {| message :=
                 if falsy (phpSessIdOf jar)
                 then "PHPSESSID not found in Interparcel response"
                 else "Failed to obtain CSRF token from Interparcel" |})).
Proof.
  split.
  - intros params. unfold Bootstrap.bootstrap. split.
    + pose proof (followRedirects_first p 4 (Bootstrap.SelectService params) [])
        as H.
      destruct (fst (Bootstrap.followRedirects p 5 _ [])); [discriminate |].
      simpl. lia.
    + apply followRedirects_length.
  - intros Hloop w input data Hav Herr.
    destruct (followRedirects_loop p Hloop 5
                (Bootstrap.SelectService (quotePageParams input)) [])
      as (jar & Hsnd & Hlen).
    split; [exact Hlen |]. exists jar. split; [exact Hsnd |].
    assert (Hpage : interparcelQuotePage (Bootstrap.withPlatform p w)
                      (quotePageParams input)
                    = Returned {| cookieJar := jar; metaMatch := None |}).
    { simpl. unfold Bootstrap.sessionPageOf, Bootstrap.bootstrap.
      now rewrite Hsnd. }
    apply (interparcel_without_credentials (Bootstrap.withPlatform p w)
             input data {| cookieJar := jar; metaMatch := None |});
      auto.
Qed.

(** A server that sets the session cookie and redirects for ever: five
    page requests, then the client fails for want of a token. *)
Lemma X13_redirect_loop_ends_witness :
  getInterparcelShippingServices
    (Bootstrap.withPlatform Bootstrap.redirectLoop Examples.world_up)
    (Examples.mkInput 25 50 40 30 "AU" false) =
  ([ Fetch (InterparcelAvailabilityReq
              (availabilitySearchParams
                 (Examples.mkInput 25 50 40 30 "AU" false)));
     Fetch (InterparcelQuotePageReq
              (quotePageParams (Examples.mkInput 25 50 40 30 "AU" false))) ],
   Threw {| message := "Failed to obtain CSRF token from Interparcel" |}).
Proof.
  assert (Hloop : Bootstrap.alwaysRedirects Bootstrap.redirectLoop).
  { intros url cookie.
    exists (Bootstrap.redirectTo [ "PHPSESSID=k3v9" ] "/login"), "/login",
      "https://au.interparcel.com/login".
    repeat split; try reflexivity; try discriminate; simpl; lia. }
  destruct (proj2 (X13_redirect_loop_ends Bootstrap.redirectLoop) Hloop
              Examples.world_up (Examples.mkInput 25 50 40 30 "AU" false)
              Examples.availabilityAnswer eq_refl eq_refl)
    as (_ & jar & Hsnd & Hrun).
  rewrite Hrun. apply Returned_inj in Hsnd.
  now injection Hsnd as <-.
Defined.

(** X14. Cookies travel along the redirects.  The first page request
    carries no [Cookie] header.  When its answer is a redirect (a status
    from 300 to 399 with a non-empty [Location]), the second request goes
    to the resolved address and carries the cookies the first answer set,
    as one header made of the jar.  When its answer is anything else, a
    3xx status without [Location] included, the loop ends there with the
    cookies of that answer and its text as the page. *)
Theorem X14_cookies_travel_along_redirects
    (p : Bootstrap.Platform) (params : Params) (res : Bootstrap.PageResponse) :
  Bootstrap.fetchPage p (Bootstrap.SelectService params) None = Returned res ->
  let jar :=
    fold_left Bootstrap.absorbCookie
      (Bootstrap.parseSetCookieHeaders (Bootstrap.pr_headers res)) [] in
  let redirect :=
    (300 <=? Bootstrap.pr_status res) && (Bootstrap.pr_status res <? 400)
    && negb (falsy (Bootstrap.get_location (Bootstrap.pr_headers res))) in
  hd_error (fst (Bootstrap.bootstrap p params))
  = Some (Bootstrap.SelectService params, None) /\
  (redirect = true ->
   forall next,
     Bootstrap.resolveURL p
       (nullish (Bootstrap.get_location (Bootstrap.pr_headers res)) "")
       (Bootstrap.SelectService params) = Returned next ->
     nth_error (fst (Bootstrap.bootstrap p params)) 1
     = Some (Bootstrap.Redirected next,
             match jar with
             | [] => None
             | _ :: _ => Some (cookieHeaderOf jar)
             end)) /\
  (redirect = false ->
   forall html,
     Bootstrap.pr_text res = Returned html ->
     Bootstrap.bootstrap p params
     = ([(Bootstrap.SelectService params, None)], Returned (jar, html))).
Proof.
  intros Hres jar redirect. split; [| split].
  - apply followRedirects_first.
  - intros Hred next Hnext. unfold Bootstrap.bootstrap.
    rewrite (followRedirects_redirect p 4 (Bootstrap.SelectService params) []
               res next Hres Hred Hnext).
    cbn [fst nth_error].
    pose proof (followRedirects_first p 3 (Bootstrap.Redirected next) jar)
      as Hfirst.
    fold jar.
    destruct (fst (Bootstrap.followRedirects p 4 _ jar));
      [discriminate | exact Hfirst].
  - intros Hred html Htext. unfold Bootstrap.bootstrap. simpl.
    rewrite Hres. fold redirect. rewrite Hred, Htext. reflexivity.
Qed.

(** One redirect that sets the session cookie: the second request shows
    it. *)
Lemma X14_cookies_travel_along_redirects_witness :
  nth_error (fst (Bootstrap.bootstrap Bootstrap.oneRedirect [])) 1
  = Some (Bootstrap.Redirected
            "https://au.interparcel.com/quote/select-service/2",
          Some "PHPSESSID=k3v9").
Proof.
  apply (proj1 (proj2 (X14_cookies_travel_along_redirects
                         Bootstrap.oneRedirect []
                         (Bootstrap.redirectTo
                            [ "PHPSESSID=k3v9; path=/; HttpOnly" ]
                            "/quote/select-service/2")
                         eq_refl))); reflexivity.
Defined.

(** ** Splitting a combined [Set-Cookie] header *)

Lemma splitCookies_nonempty (s : string) : Bootstrap.splitCookies s <> [].
Proof.
  destruct s as [| c s]; simpl; [discriminate |].
  destruct (_ && _); [discriminate |].
  destruct (Bootstrap.splitCookies s); discriminate.
Qed.

Lemma join_cons_char (sep : string) (c : ascii) (piece : string)
    (pieces : list string) :
  join sep (String c piece :: pieces) = String c (join sep (piece :: pieces)).
Proof. destruct pieces; reflexivity. Qed.

Lemma join_splitCookies (s : string) :
  join "," (Bootstrap.splitCookies s) = s.
Proof.
  induction s as [| c s IH]; [reflexivity |].
  simpl Bootstrap.splitCookies.
  destruct (Ascii.eqb c ","%char && Bootstrap.cookieAhead false s) eqn:E.
  - apply andb_true_iff in E as [Hc _]. apply Ascii.eqb_eq in Hc. subst c.
    pose proof (splitCookies_nonempty s) as Hne.
    destruct (Bootstrap.splitCookies s) as [| piece pieces]; [congruence |].
    change (join "," ("" :: piece :: pieces))
      with (String ","%char (join "," (piece :: pieces))).
    now rewrite IH.
  - pose proof (splitCookies_nonempty s) as Hne.
    destruct (Bootstrap.splitCookies s) as [| piece pieces]; [congruence |].
    now rewrite join_cons_char, IH.
Qed.

Lemma splitCookies_boundary (a b : string) :
  Bootstrap.noChar ","%char a = true ->
  Bootstrap.cookieAhead false b = true ->
  Bootstrap.splitCookies (a ++ String ","%char b)%string
  = a :: Bootstrap.splitCookies b.
Proof.
  intros Ha Hb. induction a as [| c a IH].
  - simpl. now rewrite Hb.
  - simpl in Ha. apply andb_true_iff in Ha as [Hc Ha].
    apply negb_true_iff in Hc.
    change ((String c a ++ String ","%char b)%string)
      with (String c (a ++ String ","%char b)%string).
    simpl Bootstrap.splitCookies. rewrite Hc, (IH Ha). reflexivity.
Qed.

Lemma splitCookies_no_boundary (a b : string) :
  Bootstrap.noChar ","%char a = true ->
  Bootstrap.cookieAhead false b = false ->
  exists piece pieces,
    Bootstrap.splitCookies b = piece :: pieces /\
    Bootstrap.splitCookies (a ++ String ","%char b)%string
    = (a ++ String ","%char piece)%string :: pieces.
Proof.
  intros Ha Hb.
  pose proof (splitCookies_nonempty b) as Hne.
  destruct (Bootstrap.splitCookies b) as [| piece pieces] eqn:E;
    [congruence |].
  exists piece, pieces. split; [reflexivity |].
  induction a as [| c a IH].
  - simpl. now rewrite Hb, E.
  - simpl in Ha. apply andb_true_iff in Ha as [Hc Ha].
    apply negb_true_iff in Hc.
    change ((String c a ++ String ","%char b)%string)
      with (String c (a ++ String ","%char b)%string).
    simpl Bootstrap.splitCookies. rewrite Hc, (IH Ha). reflexivity.
Qed.

Lemma cookieAhead_attribute (seen : bool) (d rest : string) :
  Bootstrap.noChar "="%char d = true ->
  Bootstrap.cookieAhead seen (d ++ String ";"%char rest)%string = false.
Proof.
  revert seen. induction d as [| c d IH]; intros seen Hd; [reflexivity |].
  simpl in Hd. apply andb_true_iff in Hd as [Hc Hd].
  apply negb_true_iff in Hc.
  change ((String c d ++ String ";"%char rest)%string)
    with (String c (d ++ String ";"%char rest)%string).
  simpl. rewrite Hc, andb_false_r. simpl.
  destruct (Ascii.eqb c ";"%char); [reflexivity | now apply IH].
Qed.

Lemma cookieAhead_pair (seen : bool) (d : string) (x : ascii) (v : string) :
  Bootstrap.noChar ";"%char d = true ->
  x <> ";"%char ->
  seen = true \/ d <> "" ->
  Bootstrap.cookieAhead seen (d ++ String "="%char (String x v))%string = true.
Proof.
  intros Hd Hx. apply Ascii.eqb_neq in Hx.
  revert seen. induction d as [| c d IH]; intros seen Hseen.
  - destruct Hseen as [-> | H]; [| congruence]. simpl. now rewrite Hx.
  - simpl in Hd. apply andb_true_iff in Hd as [Hc Hd].
    apply negb_true_iff in Hc.
    change ((String c d ++ String "="%char (String x v))%string)
      with (String c (d ++ String "="%char (String x v))%string).
    simpl. rewrite Hc.
    destruct (seen && Ascii.eqb c "="%char && _); [reflexivity |].
    apply (IH Hd). now left.
Qed.

(** X15. Reading the [Set-Cookie] headers.  Where the platform has
    [getSetCookie] its array is taken as it is; otherwise a missing or
    empty header gives no cookie and a combined header is cut at commas:
    joining the pieces with commas gives the header back, and a comma is
    a cut exactly when the text after it reaches some [=] (after at least
    one character, followed by a character other than [;]) before any
    [;].  So a comma whose attribute ends with [;] stays inside its
    piece, while the comma of a date that is directly followed by
    [, name=value] is a cut as well. *)
Theorem X15_set_cookie_splitting :
  (forall arr single loc,
     Bootstrap.parseSetCookieHeaders
       {| Bootstrap.getSetCookie := Some arr;
          Bootstrap.get_set_cookie := single;
          Bootstrap.get_location := loc |} = arr) /\
  (forall loc,
     Bootstrap.parseSetCookieHeaders
       {| Bootstrap.getSetCookie := None;
          Bootstrap.get_set_cookie := None;
          Bootstrap.get_location := loc |} = [] /\
     Bootstrap.parseSetCookieHeaders
       {| Bootstrap.getSetCookie := None;
          Bootstrap.get_set_cookie := Some "";
          Bootstrap.get_location := loc |} = []) /\
  (forall single loc,
     single <> "" ->
     join ","
       (Bootstrap.parseSetCookieHeaders
          {| Bootstrap.getSetCookie := None;
             Bootstrap.get_set_cookie := Some single;
             Bootstrap.get_location := loc |}) = single) /\
  (forall a b,
     Bootstrap.noChar ","%char a = true ->
     Bootstrap.cookieAhead false b = true ->
     Bootstrap.splitCookies (a ++ "," ++ b)%string
     = a :: Bootstrap.splitCookies b) /\
  (forall a b,
     Bootstrap.noChar ","%char a = true ->
     Bootstrap.cookieAhead false b = false ->
     exists piece pieces,
       Bootstrap.splitCookies b = piece :: pieces /\
       Bootstrap.splitCookies (a ++ "," ++ b)%string
       = (a ++ "," ++ piece)%string :: pieces) /\
  (forall d rest,
     Bootstrap.noChar "="%char d = true ->
     Bootstrap.cookieAhead false (d ++ ";" ++ rest)%string = false) /\
  (forall date name x value,
     Bootstrap.noChar ";"%char date = true ->
     Bootstrap.noChar ";"%char name = true ->
     x <> ";"%char ->
     Bootstrap.cookieAhead false
       (date ++ "," ++ name ++ "=" ++ String x value)%string = true).
Proof.
  repeat match goal with |- _ /\ _ => split end.
  - reflexivity.
  - intros loc. split; reflexivity.
  - intros single loc Hne. unfold Bootstrap.parseSetCookieHeaders. simpl.
    destruct single; [congruence |]. apply join_splitCookies.
  - intros a b. apply splitCookies_boundary.
  - intros a b. apply splitCookies_no_boundary.
  - intros d rest. apply cookieAhead_attribute.
  - intros date name x value Hdate Hname Hx.
    replace (date ++ "," ++ name ++ "=" ++ String x value)%string
      with ((date ++ "," ++ name) ++ String "="%char (String x value))%string.
    2:{ now rewrite !str_app_assoc. }
    apply cookieAhead_pair; auto.
    + now rewrite !noChar_app, Hdate, Hname.
    + right. destruct date; discriminate.
Qed.

(** A combined header whose first cookie has a date followed by a path:
    the comma of the date stays, the comma before the second cookie
    cuts. *)
Lemma X15_set_cookie_splitting_witness :
  Bootstrap.splitCookies
    ("region=au; Expires=Wed, 21 Oct 2026 07:28:00 GMT; Path=/" ++ "," ++
     " seen=1")%string
  = [ "region=au; Expires=Wed, 21 Oct 2026 07:28:00 GMT; Path=/"; " seen=1" ].
Proof.
  destruct X15_set_cookie_splitting as (_ & _ & _ & _ & Hno & _).
  destruct (Hno "region=au; Expires=Wed"
              " 21 Oct 2026 07:28:00 GMT; Path=/, seen=1"
              eq_refl eq_refl) as (piece & pieces & Hb & Hsplit).
  etransitivity; [exact Hsplit |].
  vm_compute in Hb. injection Hb as <- <-. reflexivity.
Defined.

(** * The list of countries *)

Section CountryOrder.

Variable localeCompare : string -> string -> Z.
Hypothesis Hconsistent : Countries.consistent localeCompare.

Local Abbreviation compare := (Countries.compareCountries localeCompare).
Local Abbreviation le := (Countries.mayPrecede localeCompare).
Local Abbreviation index := Countries.priorityIndex.

Lemma compare_cases (a b : Countries.AusPostShippingCodes) :
  compare a b =
  if Countries.isPriority a
  then if Countries.isPriority b then index a - index b else -1
  else if Countries.isPriority b then 1
       else localeCompare (Countries.country_name a) (Countries.country_name b).
Proof.
  unfold Countries.compareCountries, Countries.isPriority, Countries.priorityIndex.
  cbv zeta.
  destruct (negb (_ =? -1)); destruct (negb (_ =? -1)); reflexivity.
Qed.

Lemma le_total (a b : Countries.AusPostShippingCodes) : le a b \/ le b a.
Proof.
  unfold Countries.mayPrecede. rewrite !compare_cases.
  destruct (Countries.isPriority a), (Countries.isPriority b); try lia.
  apply (proj1 Hconsistent).
Qed.

Lemma le_trans (a b c : Countries.AusPostShippingCodes) :
  le a b -> le b c -> le a c.
Proof.
  unfold Countries.mayPrecede. rewrite !compare_cases.
  destruct (Countries.isPriority a), (Countries.isPriority b),
    (Countries.isPriority c); try lia.
  apply (proj2 Hconsistent).
Qed.

Lemma Forall_insertSorted (P : Countries.AusPostShippingCodes -> Prop)
    (x : Countries.AusPostShippingCodes) (l : list Countries.AusPostShippingCodes) :
  P x -> Forall P l -> Forall P (Countries.insertSorted compare x l).
Proof.
  intros Hx Hl. induction Hl as [| y l Hy Hl IH]; simpl.
  - now constructor.
  - destruct (0 <? compare x y); repeat constructor; auto.
Qed.

Lemma insertSorted_sorted (x : Countries.AusPostShippingCodes)
    (l : list Countries.AusPostShippingCodes) :
  StronglySorted le l ->
  StronglySorted le (Countries.insertSorted compare x l).
Proof.
  intros Hl. induction Hl as [| y l Hl IH Hy]; simpl.
  - repeat constructor.
  - destruct (Z.ltb_spec 0 (compare x y)) as [Hgt | Hle].
    + constructor; [exact IH |].
      apply Forall_insertSorted; [| exact Hy].
      destruct (le_total y x) as [H | H]; [exact H | unfold Countries.mayPrecede in H; lia].
    + constructor; [now constructor |].
      constructor; [exact Hle |].
      rewrite Forall_forall in *. intros z Hz.
      apply (le_trans x y z); [exact Hle | now apply Hy].
Qed.

Lemma insertSorted_perm {A} (cmp : A -> A -> Z) (x : A) (l : list A) :
  Permutation (x :: l) (Countries.insertSorted cmp x l).
Proof.
  induction l as [| y l IH]; simpl; [reflexivity |].
  destruct (0 <? cmp x y); [| reflexivity].
  etransitivity; [apply perm_swap | now constructor].
Qed.

Lemma array_sort_perm {A} (cmp : A -> A -> Z) (l : list A) :
  Permutation l (Countries.array_sort cmp l).
Proof.
  induction l as [| x l IH]; simpl; [reflexivity |].
  etransitivity; [| apply insertSorted_perm]. now constructor.
Qed.

Lemma array_sort_sorted (l : list Countries.AusPostShippingCodes) :
  StronglySorted le (Countries.array_sort compare l).
Proof.
  induction l as [| x l IH]; simpl; [constructor |].
  now apply insertSorted_sorted.
Qed.

Lemma StronglySorted_before {A} (R : A -> A -> Prop) (front : list A) (a : A)
    (mid : list A) (b : A) (back : list A) :
  StronglySorted R (front ++ a :: mid ++ b :: back) -> R a b.
Proof.
  induction front as [| x front IH]; simpl; intros H.
  - apply StronglySorted_inv in H as [_ H].
    rewrite Forall_forall in H. apply H.
    apply in_or_app. right. now left.
  - apply StronglySorted_inv in H as [H _]. now apply IH.
Qed.

(** X16. The list of countries.  When the comparison of names is a
    consistent order, [getShippingCountries] returns the countries of the
    provider's answer, each as often as it was listed and none else,
    arranged so that wherever a country stands before another one: if
    the later one is a priority country (US, GB, CA, BR) the earlier one
    is too and comes no later in that list, and if the earlier one is no
    priority country neither is the later one and their names are in
    order.  So the priority countries lead in the order US, GB, CA, BR
    and the others follow by name. *)
Theorem X16_countries_in_order (data : Countries.ShippingCountryResponse) :
  exists sorted,
    Countries.getShippingCountries localeCompare (Returned data)
    = Returned sorted /\
    Permutation (Countries.countries_country data) sorted /\
    (forall front a mid b back,
       sorted = front ++ a :: mid ++ b :: back ->
       (Countries.isPriority b = true ->
        Countries.isPriority a = true /\
        Countries.array_indexOf (Countries.country_code a)
          Countries.priorityCountries
        <= Countries.array_indexOf (Countries.country_code b)
             Countries.priorityCountries) /\
       (Countries.isPriority a = false ->
        Countries.isPriority b = false /\
        localeCompare (Countries.country_name a) (Countries.country_name b)
        <= 0)).
Proof.
  eexists. split; [reflexivity |]. split; [apply array_sort_perm |].
  intros front a mid b back Hsorted.
  pose proof (array_sort_sorted (Countries.countries_country data)) as Hs.
  rewrite Hsorted in Hs.
  apply StronglySorted_before in Hs. unfold Countries.mayPrecede in Hs.
  rewrite compare_cases in Hs. unfold Countries.priorityIndex in Hs.
  destruct (Countries.isPriority a), (Countries.isPriority b);
    split; intros H; try discriminate; try lia; split; auto; lia.
Qed.

End CountryOrder.

Lemma byPrefix_consistent : Countries.consistent Countries.byPrefix.
Proof. unfold Countries.consistent, Countries.byPrefix. split; intros; lia. Qed.

(** Six countries, three of them priority countries. *)
Lemma X16_countries_in_order_witness :
  Countries.getShippingCountries Countries.byPrefix
    (Returned {| Countries.countries_country := Countries.listed |})
  = Returned
      [ Countries.country "US" "United States";
        Countries.country "GB" "United Kingdom";
        Countries.country "CA" "Canada";
        Countries.country "FR" "France";
        Countries.country "DE" "Germany";
        Countries.country "NZ" "New Zealand" ].
Proof.
  destruct (X16_countries_in_order Countries.byPrefix byPrefix_consistent
              {| Countries.countries_country := Countries.listed |})
    as (sorted & Hrun & _).
  rewrite Hrun. apply Returned_inj in Hrun. now rewrite <- Hrun.
Defined.

(** ** The checkout session *)

Section CheckoutProperties.
Import Checkout.

Lemma Resolved_inj {A} (a a' : A) : Resolved a = Resolved a' -> a = a'.
Proof. now intros [= ->]. Qed.

Lemma andThen_call_returned {A B} (c : Call) (a : A) (k : A -> T B) :
  andThen (call c (Resolved a)) k = (c :: fst (k a), snd (k a)).
Proof. unfold andThen, call. now destruct (k a). Qed.

Lemma andThen_call_threw {A B} (c : Call) (reason : Thrown) (k : A -> T B) :
  andThen (call c (RejectedWith reason)) k = ([c], RejectedWith reason).
Proof. reflexivity. Qed.

Lemma andThen_lift_returned {A B} (a : A) (k : A -> T B) :
  andThen (lift (Returned a)) k = k a.
Proof. unfold andThen, lift. now destruct (k a). Qed.

Lemma andThen_lift_threw {A B} (e : JsError) (k : A -> T B) :
  andThen (lift (Threw e)) k = ([], RejectedWith (AnError e)).
Proof. reflexivity. Qed.

Lemma andThen_eta {A B} (m : T A) (k : A -> T B) :
  andThen m k
  = match snd m with
    | Resolved a => (fst m ++ fst (k a), snd (k a))
    | RejectedWith reason => (fst m, RejectedWith reason)
    end.
Proof. destruct m as [l [a | e]]; simpl; [now destruct (k a) | reflexivity]. Qed.

Lemma writeOrderItems_written b items orderId pre rest :
  forallb (itemWritten b items orderId) pre = true ->
  writeOrderItems b items orderId (pre ++ rest)
  = (orderItemCalls b items orderId pre
       ++ fst (writeOrderItems b items orderId rest),
     snd (writeOrderItems b items orderId rest)).
Proof.
  induction pre as [| item pre IH]; intros Hall.
  - simpl. now destruct (writeOrderItems b items orderId rest).
  - simpl in Hall. apply andb_true_iff in Hall as [Hitem Hpre].
    specialize (IH Hpre). unfold itemWritten in Hitem.
    cbn [app writeOrderItems orderItemCalls flat_map].
    destruct (itemProvided items item) as [provided |]; [| discriminate].
    rewrite andThen_lift_returned.
    destruct (orderItem_create b _) as [orderItemId | e]; [| discriminate].
    rewrite andThen_call_returned.
    destruct (order_update b orderId orderItemId) as [[] | e]; [| discriminate].
    rewrite andThen_call_returned. rewrite IH. reflexivity.
Qed.

Lemma writeOrderItems_all b items orderId listings :
  forallb (itemWritten b items orderId) listings = true ->
  writeOrderItems b items orderId listings
  = (orderItemCalls b items orderId listings, Resolved tt).
Proof.
  intros Hall.
  rewrite <- (app_nil_r listings) at 1.
  rewrite (writeOrderItems_written _ _ _ _ [] Hall). simpl.
  now rewrite app_nil_r.
Qed.

Lemma writeOrderItems_returned b items orderId listings u :
  snd (writeOrderItems b items orderId listings) = Resolved u ->
  forallb (itemWritten b items orderId) listings = true.
Proof.
  induction listings as [| item rest IH]; [reflexivity |].
  cbn [writeOrderItems forallb]. unfold itemWritten.
  destruct (itemProvided items item) as [provided |];
    [rewrite andThen_lift_returned | discriminate].
  destruct (orderItem_create b _) as [orderItemId | e];
    [rewrite andThen_call_returned | discriminate].
  destruct (order_update b orderId orderItemId) as [[] | e];
    [rewrite andThen_call_returned | discriminate].
  simpl. exact IH.
Qed.

Lemma mapThrowing_length {A B} (f : A -> outcome B) xs ys :
  mapThrowing f xs = Returned ys -> List.length ys = List.length xs.
Proof.
  revert ys; induction xs as [| x xs IH]; intros ys H; simpl in H.
  - apply Returned_inj in H. now subst.
  - destruct (f x); [| discriminate].
    destruct (mapThrowing f xs); [| discriminate].
    apply Returned_inj in H. subst. simpl. f_equal. now apply IH.
Qed.

Lemma orderItemCalls_length b items orderId listings :
  forallb (itemWritten b items orderId) listings = true ->
  List.length (orderItemCalls b items orderId listings) = (2 * List.length listings)%nat.
Proof.
  induction listings as [| item rest IH]; [reflexivity |]. intros Hall.
  simpl in Hall. apply andb_true_iff in Hall as [Hitem Hrest].
  unfold orderItemCalls in *. cbn [flat_map]. rewrite length_app, (IH Hrest).
  unfold itemWritten in Hitem.
  destruct (itemProvided items item); [| discriminate].
  destruct (orderItem_create b _); [| discriminate]. simpl. lia.
Qed.

(** The stages of [createStripeSession], one at a time. *)
Lemma createStripeSession_stages b input :
  createStripeSession b input
  = logAndRethrow
      (let ids := map itemId (items input) in
       match listing_findMany b ids with
       | RejectedWith reason => ([ListingFindMany ids], RejectedWith reason)
       | Resolved listings =>
       let newCustomer := CustomersCreate (email input) (customerName input) in
       match customers_create b (email input) (customerName input) with
       | RejectedWith reason =>
           ([ListingFindMany ids; newCustomer], RejectedWith reason)
       | Resolved customer =>
       match mapThrowing (lineItemOf b (items input)) listings with
       | Threw e => ([ListingFindMany ids; newCustomer], RejectedWith (AnError e))
       | Returned lineItems =>
       let data := orderData input lineItems in
       match order_create b data with
       | RejectedWith reason =>
           ([ListingFindMany ids; newCustomer; OrderCreate data],
            RejectedWith reason)
       | Resolved order =>
       let written := writeOrderItems b (items input) order listings in
       match snd written with
       | RejectedWith reason =>
           (ListingFindMany ids :: newCustomer :: OrderCreate data :: fst written,
            RejectedWith reason)
       | Resolved _ =>
       let params := sessionParams b input customer order lineItems in
       (ListingFindMany ids :: newCustomer :: OrderCreate data
          :: fst written ++ [SessionsCreate params],
        sessions_create b params)
       end end end end end).
Proof.
  unfold createStripeSession. f_equal. cbv zeta.
  destruct (listing_findMany b _) as [listings | e]; [| reflexivity].
  rewrite andThen_call_returned.
  destruct (customers_create b _ _) as [customer | e]; [| reflexivity].
  rewrite andThen_call_returned.
  destruct (mapThrowing _ listings) as [lineItems | e]; [| reflexivity].
  rewrite andThen_lift_returned.
  destruct (order_create b _) as [order | e]; [| reflexivity].
  rewrite andThen_call_returned. rewrite andThen_eta.
  destruct (snd (writeOrderItems b (items input) order listings)); reflexivity.
Qed.


Lemma orderItems_not_logged b items orderId listings :
  forallb (fun c => negb (isLog c)) (fst (writeOrderItems b items orderId listings))
  = true.
Proof.
  induction listings as [| item rest IH]; [reflexivity |].
  cbn [writeOrderItems].
  destruct (itemProvided items item) as [provided |]; [| reflexivity].
  rewrite andThen_lift_returned.
  destruct (orderItem_create b _) as [orderItemId | e]; [| reflexivity].
  rewrite andThen_call_returned.
  destruct (order_update b orderId orderItemId) as [[] | e]; [| reflexivity].
  rewrite andThen_call_returned. exact IH.
Qed.

Lemma lineItemOf_threw b items item e :
  lineItemOf b items item = Threw e ->
  exists site, e = {| message := typeErrorMessage b site |}.
Proof.
  unfold lineItemOf. intros H.
  destruct (images item) as [| first others].
  - exists ReadImageUrl. congruence.
  - destruct (parts item) as [| part others'].
    + destruct (itemProvided items item); [discriminate |].
      exists ReadQuantity. congruence.
    + destruct (donor part).
      * destruct (itemProvided items item); [discriminate |].
        exists ReadQuantity. congruence.
      * exists ReadDonorVin. congruence.
Qed.

Lemma mapThrowing_threw {A B} (f : A -> outcome B) xs e :
  mapThrowing f xs = Threw e -> exists x, In x xs /\ f x = Threw e.
Proof.
  induction xs as [| x xs IH]; simpl; [discriminate |].
  destruct (f x) as [y | e'] eqn:Hx.
  - destruct (mapThrowing f xs) as [ys | e'']; [discriminate |].
    intros H. destruct IH as (x' & Hin & Hx'); [exact H |]. eauto.
  - intros H. exists x. split; [now left | congruence].
Qed.

Lemma mapThrowing_Exists {A B} (f : A -> outcome B) xs :
  Exists (fun x => exists e, f x = Threw e) xs ->
  exists e, mapThrowing f xs = Threw e.
Proof.
  induction 1 as [x xs [e He] | x xs _ [e IH]]; simpl.
  - rewrite He. eauto.
  - destruct (f x); [rewrite IH |]; eauto.
Qed.

Lemma find_app_first {A} (p : A -> bool) xs ys :
  find p (xs ++ ys)
  = match find p xs with Some x => Some x | None => find p ys end.
Proof.
  induction xs as [| x xs IH]; [reflexivity |]. simpl. now destruct (p x).
Qed.

Lemma itemProvided_app items extra item :
  Forall (fun entry => In (itemId entry) (map itemId items)) extra ->
  itemProvided (items ++ extra) item = itemProvided items item.
Proof.
  intros Hextra. unfold itemProvided. rewrite find_app_first.
  destruct (find _ items) as [found |] eqn:Hitems; [reflexivity |].
  induction Hextra as [| entry extra Hentry _ IH]; [reflexivity |].
  simpl. apply in_map_iff in Hentry as (q & Hq & Hin).
  apply (find_none _ _ Hitems) in Hin. rewrite <- Hq, Hin. exact IH.
Qed.

Lemma writeOrderItems_errors b items orderId listings :
  errorsOnly b ->
  snd (writeOrderItems b items orderId listings) <> RejectedWith NotAnError.
Proof.
  intros (_ & _ & _ & Hitem & Hupdate & _).
  induction listings as [| item rest IH]; [discriminate |].
  cbn [writeOrderItems].
  destruct (itemProvided items item) as [provided |]; [| discriminate].
  rewrite andThen_lift_returned.
  destruct (orderItem_create b _) as [orderItemId | reason] eqn:Hcreate.
  2:{ rewrite andThen_call_threw. simpl. intros [= ->].
      now apply Hitem in Hcreate. }
  rewrite andThen_call_returned.
  destruct (order_update b orderId orderItemId) as [[] | reason] eqn:Hconnect.
  2:{ rewrite andThen_call_threw. simpl. intros [= ->].
      now apply Hupdate in Hconnect. }
  rewrite andThen_call_returned. exact IH.
Qed.

(** X17. How a failure inside the [try] block of [createStripeSession]
    leaves the function.  (The two clients are constructed before the
    block; a throw there is not covered.)  Either the failure is written
    with [console.log], its message being the last thing the function
    does, and a new error with the same message is thrown; or nothing at
    all is logged and the error thrown has the message Unknown error.
    The first is what happens to every [Error]: when the calls of the
    backend reject with errors only, every failure is logged, a
    [TypeError] of the function's own included.  The second is what
    happens to a thrown value that is no [Error]: when the query for the
    listings rejects with one, the function fails with Unknown error
    after that one call and logs nothing.  When the function returns,
    nothing is logged, the last call is the creation of the checkout
    session and the result is the URL of that session. *)
Theorem X17_checkout_errors_logged (b : Backend) (input : StripeSessionRequest) :
  let run := createStripeSession b input in
  let quiet calls := forallb (fun c => negb (isLog c)) calls = true in
  (forall e, snd run = Threw e ->
     (exists calls, fst run = calls ++ [ConsoleLog (message e)] /\ quiet calls) \/
     (message e = "Unknown error" /\ quiet (fst run))) /\
  (errorsOnly b ->
   forall e, snd run = Threw e ->
     exists calls, fst run = calls ++ [ConsoleLog (message e)] /\ quiet calls) /\
  (listing_findMany b (map itemId (items input)) = RejectedWith NotAnError ->
   run = ([ListingFindMany (map itemId (items input))],
          Threw {| message := "Unknown error" |})) /\
  (forall sessionUrl, snd run = Returned sessionUrl ->
     quiet (fst run) /\
     exists calls params,
       fst run = calls ++ [SessionsCreate params] /\
       sessions_create b params = Resolved sessionUrl).
Proof.
  cbv zeta.
  assert (Hshape : exists calls settled,
            createStripeSession b input = logAndRethrow (calls, settled) /\
            forallb (fun c => negb (isLog c)) calls = true /\
            (errorsOnly b -> settled <> RejectedWith NotAnError) /\
            (forall u, settled = Resolved u ->
               exists calls' params,
                 calls = calls' ++ [SessionsCreate params] /\
                 sessions_create b params = Resolved u)).
  { rewrite createStripeSession_stages. cbv zeta.
    pose proof (orderItems_not_logged b (items input)) as Hquiet.
    destruct (listing_findMany b _) as [listings | reason] eqn:Hfound.
    2:{ eexists _, _. split; [reflexivity |]. split; [reflexivity |].
        split; [| discriminate]. intros Herrors [= ->].
        now apply (proj1 Herrors) in Hfound. }
    destruct (customers_create b _ _) as [customer | reason] eqn:Hcustomer.
    2:{ eexists _, _. split; [reflexivity |]. split; [reflexivity |].
        split; [| discriminate]. intros Herrors [= ->].
        now apply (proj1 (proj2 Herrors)) in Hcustomer. }
    destruct (mapThrowing _ listings) as [lineItems | e0].
    2:{ eexists _, _. split; [reflexivity |]. split; [reflexivity |].
        split; discriminate. }
    destruct (order_create b _) as [order | reason] eqn:Horder.
    2:{ eexists _, _. split; [reflexivity |]. split; [reflexivity |].
        split; [| discriminate]. intros Herrors [= ->].
        now apply (proj1 (proj2 (proj2 Herrors))) in Horder. }
    specialize (Hquiet order listings).
    destruct (snd (writeOrderItems b (items input) order listings))
      as [[] | reason] eqn:Hwritten.
    2:{ eexists _, _. split; [reflexivity |]. split; [exact Hquiet |].
        split; [| discriminate]. intros Herrors [= ->].
        now apply (writeOrderItems_errors b (items input) order listings Herrors)
          in Hwritten. }
    eexists _, _. split; [reflexivity |].
    split; [simpl; now rewrite forallb_app, Hquiet |].
    split.
    - intros Herrors Hodd.
      now apply (proj2 (proj2 (proj2 (proj2 (proj2 Herrors))))) in Hodd.
    - intros u Hu. eexists (_ :: _ :: _ :: _), _. split; [reflexivity | exact Hu]. }
  destruct Hshape as (calls & settled & Hrun & Hquiet & Herrors & Hlast).
  split; [| split; [| split]].
  - rewrite Hrun. intros e.
    destruct settled as [u | [err |]]; simpl; try discriminate.
    + intros [= <-]. left. now exists calls.
    + intros [= <-]. now right.
  - rewrite Hrun. intros Honly e. specialize (Herrors Honly).
    destruct settled as [u | [err |]]; simpl; try discriminate.
    + intros [= <-]. now exists calls.
    + now destruct Herrors.
  - intros Hodd. rewrite createStripeSession_stages. cbv zeta.
    now rewrite Hodd.
  - rewrite Hrun. intros sessionUrl.
    destruct settled as [u | [err |]]; simpl; try discriminate.
    intros Hu. apply Returned_inj in Hu. subst u.
    split; [exact Hquiet | now apply Hlast].
Qed.

Lemma shop_errorsOnly listings : errorsOnly (shop listings).
Proof. repeat split; intros; discriminate. Qed.

Lemma X17_checkout_errors_logged_witness :
  (exists calls,
     fst (createStripeSession (shop [strut; badge]) (request None))
     = calls ++ [ConsoleLog "undefined is not an object"] /\
     forallb (fun c => negb (isLog c)) calls = true) /\
  createStripeSession (oddDatabase [strut]) (request None)
  = ([ListingFindMany ["l1"; "l3"; "l1"]],
     Threw {| message := "Unknown error" |}).
Proof.
  split.
  - exact (proj1 (proj2 (X17_checkout_errors_logged (shop [strut; badge])
                           (request None)))
             (shop_errorsOnly [strut; badge])
             {| message := "undefined is not an object" |} eq_refl).
  - exact (proj1 (proj2 (proj2 (X17_checkout_errors_logged (oddDatabase [strut])
                                  (request None))))
             eq_refl).
Defined.

(** X18. A call of [createStripeSession] that returns has done, in this
    order: one query for the listings of the cart, the creation of one
    customer, the creation of one order, for every listing found (in the
    order of the query result) the creation of an order item followed by
    its connection to the order, and last the creation of the checkout
    session, whose URL is returned: four calls and two per listing, with
    one line item per listing. *)
Theorem X18_checkout_success_trace (b : Backend) (input : StripeSessionRequest)
    (sessionUrl : option string) :
  snd (createStripeSession b input) = Returned sessionUrl ->
  exists listings customer lineItems order,
    listing_findMany b (map itemId (items input)) = Resolved listings /\
    customers_create b (email input) (customerName input) = Resolved customer /\
    mapThrowing (lineItemOf b (items input)) listings = Returned lineItems /\
    List.length lineItems = List.length listings /\
    order_create b (orderData input lineItems) = Resolved order /\
    forallb (itemWritten b (items input) order) listings = true /\
    sessions_create b (sessionParams b input customer order lineItems)
    = Resolved sessionUrl /\
    fst (createStripeSession b input)
    = ListingFindMany (map itemId (items input))
        :: CustomersCreate (email input) (customerName input)
        :: OrderCreate (orderData input lineItems)
        :: orderItemCalls b (items input) order listings
        ++ [SessionsCreate (sessionParams b input customer order lineItems)] /\
    List.length (fst (createStripeSession b input))
    = (4 + 2 * List.length listings)%nat.
Proof.
  rewrite createStripeSession_stages. cbv zeta.
  destruct (listing_findMany b _) as [listings | [e0 |]]; [| discriminate ..].
  destruct (customers_create b _ _) as [customer | [e0 |]]; [| discriminate ..].
  destruct (mapThrowing _ listings) as [lineItems | e0] eqn:Hlines; [| discriminate].
  destruct (order_create b _) as [order | [e0 |]] eqn:Horder; [| discriminate ..].
  destruct (snd (writeOrderItems b (items input) order listings))
    as [[] | [e0 |]] eqn:Hwritten; [| discriminate ..].
  destruct (sessions_create b _) as [u | [e0 |]] eqn:Hsession; [| discriminate ..].
  simpl. intros Hu. apply Returned_inj in Hu. subst u.
  pose proof (writeOrderItems_returned _ _ _ _ _ Hwritten) as Hall.
  exists listings, customer, lineItems, order.
  rewrite (writeOrderItems_all _ _ _ _ Hall). simpl.
  repeat split; try reflexivity; try assumption.
  - exact (mapThrowing_length _ _ _ Hlines).
  - rewrite length_app, (orderItemCalls_length _ _ _ _ Hall). simpl. lia.
Qed.

Lemma X18_checkout_success_trace_witness :
  List.length (fst (createStripeSession (shop [strut; mirror]) (request None)))
  = 8%nat.
Proof.
  destruct (X18_checkout_success_trace (shop [strut; mirror]) (request None)
              (Some "https://checkout.stripe.com/s1") eq_refl)
    as (listings & customer & lineItems & order & Hfound & _ & _ & _ & _ & _ & _ & _ & Hcount).
  apply Resolved_inj in Hfound. subst listings. exact Hcount.
Defined.

(** X19. When a listing that was found has no image, or its first part has
    no donor, [createStripeSession] fails with a [TypeError] after the
    customer was created with the payment provider: the calls made are the
    query and the creation of the customer, no order is written and no
    checkout session is created. *)
Theorem X19_listing_without_image (b : Backend) (input : StripeSessionRequest)
    (listings : list Listing) (customer : string) :
  listing_findMany b (map itemId (items input)) = Resolved listings ->
  customers_create b (email input) (customerName input) = Resolved customer ->
  Exists (fun item =>
            images item = [] \/
            exists part others, parts item = part :: others /\ donor part = None)
         listings ->
  exists site,
    createStripeSession b input
    = ([ListingFindMany (map itemId (items input));
        CustomersCreate (email input) (customerName input);
        ConsoleLog (typeErrorMessage b site)],
       Threw {| message := typeErrorMessage b site |}).
Proof.
  intros Hfound Hcustomer Hbad.
  rewrite createStripeSession_stages. cbv zeta. rewrite Hfound, Hcustomer.
  destruct (mapThrowing_Exists (lineItemOf b (items input)) listings) as [e He].
  { eapply Exists_impl; [| exact Hbad]. intros item [Himages | (part & others & Hparts & Hdonor)];
      unfold lineItemOf.
    - rewrite Himages. eauto.
    - destruct (images item); [eauto |]. rewrite Hparts, Hdonor. eauto. }
  rewrite He. apply mapThrowing_threw in He as (item & _ & He).
  apply lineItemOf_threw in He as [site ->]. now exists site.
Qed.

Lemma X19_listing_without_image_witness :
  exists site,
    createStripeSession (shop [strut; badge]) (request None)
    = ([ListingFindMany ["l1"; "l3"; "l1"];
        CustomersCreate "a@example.com" "Ada";
        ConsoleLog (typeErrorMessage (shop [strut; badge]) site)],
       Threw {| message := typeErrorMessage (shop [strut; badge]) site |}).
Proof.
  apply (X19_listing_without_image (shop [strut; badge]) (request None)
           [strut; badge] "cus_1" eq_refl eq_refl).
  apply Exists_cons_tl, Exists_cons_hd. now left.
Defined.


(** X20. Nothing is undone when a later step fails.  When the creation of
    the order item of some listing fails, the customer, the order and the
    order items of the listings before it (each connected to the order)
    have been written and stay; the failure is logged and thrown, and no
    checkout session is created. *)
Theorem X20_order_item_failure_leaves_order (b : Backend)
    (input : StripeSessionRequest) (done : list Listing) (item : Listing)
    (rest : list Listing) (customer order : string) (lineItems : list LineItem)
    (provided : CheckoutItem) (e : JsError) :
  listing_findMany b (map itemId (items input)) = Resolved (done ++ item :: rest) ->
  customers_create b (email input) (customerName input) = Resolved customer ->
  mapThrowing (lineItemOf b (items input)) (done ++ item :: rest)
  = Returned lineItems ->
  order_create b (orderData input lineItems) = Resolved order ->
  forallb (itemWritten b (items input) order) done = true ->
  itemProvided (items input) item = Some provided ->
  orderItem_create b {| oi_listingId := id item;
                        oi_quantity := quantity provided;
                        oi_orderId := order |} = RejectedWith (AnError e) ->
  createStripeSession b input
  = (ListingFindMany (map itemId (items input))
       :: CustomersCreate (email input) (customerName input)
       :: OrderCreate (orderData input lineItems)
       :: orderItemCalls b (items input) order done
       ++ [OrderItemCreate {| oi_listingId := id item;
                              oi_quantity := quantity provided;
                              oi_orderId := order |};
           ConsoleLog (message e)],
     Threw {| message := message e |}).
Proof.
  intros Hfound Hcustomer Hlines Horder Hdone Hprovided Hfails.
  rewrite createStripeSession_stages. cbv zeta.
  rewrite Hfound, Hcustomer, Hlines, Horder.
  rewrite (writeOrderItems_written _ _ _ _ (item :: rest) Hdone).
  cbn [writeOrderItems]. rewrite Hprovided, andThen_lift_returned, Hfails.
  rewrite andThen_call_threw. simpl.
  now rewrite <- app_assoc.
Qed.

(** X21. Only the first entry of the cart for a listing counts.  Entries
    added at the end of the cart for listings that are already in it
    change neither the line items, nor the quantities of the order items,
    nor the subtotal of the order, nor the result: as long as the query
    finds the same listings, the same calls are made apart from the
    identifiers in the query. *)
Theorem X21_first_cart_entry_decides (b : Backend) (input : StripeSessionRequest)
    (extra : list CheckoutItem) :
  let more := {| shippingOptions := shippingOptions input;
                 email := email input;
                 customerName := customerName input;
                 items := items input ++ extra;
                 countryCode := countryCode input;
                 adminCreated := adminCreated input |} in
  Forall (fun entry => In (itemId entry) (map itemId (items input))) extra ->
  listing_findMany b (map itemId (items input ++ extra))
  = listing_findMany b (map itemId (items input)) ->
  snd (createStripeSession b more) = snd (createStripeSession b input) /\
  tl (fst (createStripeSession b more)) = tl (fst (createStripeSession b input)).
Proof.
  intros more Hextra Hsame.
  assert (Hline : forall listings,
            mapThrowing (lineItemOf b (items input ++ extra)) listings
            = mapThrowing (lineItemOf b (items input)) listings).
  { induction listings as [| item listings IH]; [reflexivity |]. simpl.
    rewrite IH. unfold lineItemOf. now rewrite itemProvided_app. }
  assert (Hwrite : forall order listings,
            writeOrderItems b (items input ++ extra) order listings
            = writeOrderItems b (items input) order listings).
  { intros order. induction listings as [| item listings IH]; [reflexivity |].
    cbn [writeOrderItems]. rewrite itemProvided_app by exact Hextra.
    destruct (itemProvided (items input) item); [| reflexivity].
    rewrite !andThen_lift_returned.
    destruct (orderItem_create b _) as [orderItemId | e0]; [| reflexivity].
    rewrite !andThen_call_returned.
    destruct (order_update b order orderItemId) as [[] | e0]; [| reflexivity].
    rewrite !andThen_call_returned. now rewrite IH. }
  rewrite !createStripeSession_stages. cbv zeta. subst more. cbn [items email customerName].
  rewrite Hsame.
  destruct (listing_findMany b (map itemId (items input))) as [listings | e0];
    [| destruct e0; now split].
  destruct (customers_create b _ _) as [customer | e0];
    [| destruct e0; now split].
  rewrite Hline.
  destruct (mapThrowing _ listings) as [lineItems | e0]; [| now split].
  change (orderData _ lineItems) with (orderData input lineItems).
  destruct (order_create b _) as [order | e0]; [| destruct e0; now split].
  rewrite Hwrite.
  destruct (snd (writeOrderItems b (items input) order listings)) as [[] | e0];
    [| destruct e0; now split].
  change (sessionParams b _ customer order lineItems)
    with (sessionParams b input customer order lineItems).
  destruct (sessions_create b _) as [u | e0]; [| destruct e0]; now split.
Qed.


Lemma X20_order_item_failure_leaves_order_witness :
  createStripeSession (outOfStock [strut; mirror]) (request None)
  = ([ListingFindMany ["l1"; "l3"; "l1"];
      CustomersCreate "a@example.com" "Ada";
      OrderCreate {| od_email := "a@example.com"; od_name := "Ada";
                     od_status := "PENDING"; od_subtotal := num 32000 |};
      OrderItemCreate {| oi_listingId := "l1"; oi_quantity := num 2;
                         oi_orderId := "ord_1" |};
      OrderUpdate "ord_1" "oi_l1";
      OrderItemCreate {| oi_listingId := "l3"; oi_quantity := num 1;
                         oi_orderId := "ord_1" |};
      ConsoleLog "Foreign key constraint failed"],
     Threw {| message := "Foreign key constraint failed" |}).
Proof.
  exact (X20_order_item_failure_leaves_order (outOfStock [strut; mirror])
           (request None) [strut] mirror [] "cus_1" "ord_1" _
           {| itemId := "l3"; quantity := num 1 |}
           {| message := "Foreign key constraint failed" |}
           eq_refl eq_refl eq_refl eq_refl eq_refl eq_refl eq_refl).
Defined.

Lemma X21_first_cart_entry_decides_witness :
  snd (createStripeSession (shop [strut; mirror]) (request None))
  = snd (createStripeSession (shop [strut; mirror]) (requestOf cartOnce None)) /\
  tl (fst (createStripeSession (shop [strut; mirror]) (request None)))
  = tl (fst (createStripeSession (shop [strut; mirror]) (requestOf cartOnce None))).
Proof.
  apply (X21_first_cart_entry_decides (shop [strut; mirror]) (requestOf cartOnce None)
           [ {| itemId := "l1"; quantity := num 5 |} ]).
  - repeat constructor.
  - reflexivity.
Defined.

Lemma orderItems_calls b items orderId listings :
  forallb (fun c => match c with
                    | OrderItemCreate _ | OrderUpdate _ _ => true
                    | _ => false
                    end)
          (fst (writeOrderItems b items orderId listings)) = true.
Proof.
  induction listings as [| item rest IH]; [reflexivity |].
  cbn [writeOrderItems].
  destruct (itemProvided items item) as [provided |]; [| reflexivity].
  rewrite andThen_lift_returned.
  destruct (orderItem_create b _) as [orderItemId | e]; [| reflexivity].
  rewrite andThen_call_returned.
  destruct (order_update b orderId orderItemId) as [[] | e]; [| reflexivity].
  rewrite andThen_call_returned. exact IH.
Qed.

Lemma fst_logAndRethrow {A} (m : T A) c :
  In c (fst (logAndRethrow m)) -> In c (fst m) \/ isLog c = true.
Proof.
  destruct m as [l [a | [e |]]]; simpl; [now left | | now left].
  rewrite in_app_iff. intros [H | [<- | []]]; [now left | now right].
Qed.

(** X22. The order that the procedure [getStripeCheckout] creates always
    has the status PENDING, the e-mail address and the name of the
    request, and a subtotal computed from the prices of the listings as
    the database returned them (times one hundred) and the quantities of
    the cart: the sum, from zero, of unit amount times quantity over the
    line items.  [createStripeSession] gives the order the status
    Pending payment only when [adminCreated] is true. *)
Theorem X22_order_of_checkout (b : Backend) (input : StripeSessionRequest)
    (data : OrderData) :
  In (OrderCreate data) (fst (createStripeSession b input)) ->
  od_email data = email input /\
  od_name data = customerName input /\
  (od_status data = "Pending payment" <-> adminCreated input = Some true) /\
  (od_status data = "PENDING" <-> adminCreated input <> Some true) /\
  (forall cart name mail country options,
     input = {| shippingOptions := options; email := mail; customerName := name;
                items := cart; countryCode := country; adminCreated := None |} ->
     createStripeSession b input = getStripeCheckout b cart name mail country options /\
     od_status data = "PENDING") /\
  exists listings lineItems,
    listing_findMany b (map itemId (items input)) = Resolved listings /\
    mapThrowing (lineItemOf b (items input)) listings = Returned lineItems /\
    Forall2 (fun item line =>
               unit_amount (price_data line) = mul (price item) (num 100) /\
               option_map quantity (itemProvided (items input) item)
               = Some (li_quantity line))
            listings lineItems /\
    od_subtotal data
    = fold_left (fun acc line =>
                   add acc (mul (unit_amount (price_data line)) (li_quantity line)))
                lineItems (num 0).
Proof.
  intros Hin.
  assert (Hdata : exists listings lineItems,
            listing_findMany b (map itemId (items input)) = Resolved listings /\
            mapThrowing (lineItemOf b (items input)) listings = Returned lineItems /\
            data = orderData input lineItems).
  { rewrite createStripeSession_stages in Hin. cbv zeta in Hin.
    apply fst_logAndRethrow in Hin as [Hin | Hlog]; [| discriminate].
    destruct (listing_findMany b _) as [listings | e0].
    2:{ destruct Hin as [H | []]. discriminate. }
    destruct (customers_create b _ _) as [customer | e0].
    2:{ destruct Hin as [H | [H | []]]; discriminate. }
    destruct (mapThrowing _ listings) as [lineItems | e0] eqn:Hlines.
    2:{ destruct Hin as [H | [H | []]]; discriminate. }
    exists listings, lineItems. split; [reflexivity |]. split; [exact Hlines |].
    assert (Hnot : forall order,
              ~ In (OrderCreate data)
                  (fst (writeOrderItems b (items input) order listings))).
    { intros order H.
      pose proof (orderItems_calls b (items input) order listings) as Hall.
      rewrite forallb_forall in Hall. now apply Hall in H. }
    destruct (order_create b _) as [order | e0].
    2:{ destruct Hin as [H | [H | [H | []]]]; congruence. }
    destruct (snd (writeOrderItems b (items input) order listings)) as [[] | e0].
    - destruct Hin as [H | [H | [H | H]]]; try congruence.
      apply in_app_iff in H as [H | [H | []]]; [now apply Hnot in H | discriminate].
    - destruct Hin as [H | [H | [H | H]]]; try congruence. now apply Hnot in H. }
  destruct Hdata as (listings & lineItems & Hfound & Hlines & ->).
  cbn [orderData od_email od_name od_status od_subtotal].
  split; [reflexivity |]. split; [reflexivity |].
  split; [destruct (adminCreated input) as [[|] |]; split; congruence |].
  split; [destruct (adminCreated input) as [[|] |]; split; congruence |].
  split.
  { intros cart name mail country options ->. split; reflexivity. }
  exists listings, lineItems. split; [exact Hfound |]. split; [exact Hlines |].
  split; [| reflexivity].
  clear Hfound Hin. revert lineItems Hlines.
  induction listings as [| item listings IH]; intros lineItems Hlines; simpl in Hlines.
  - apply Returned_inj in Hlines. subst. constructor.
  - destruct (lineItemOf b (items input) item) as [line | e0] eqn:Hline; [| discriminate].
    destruct (mapThrowing _ listings) as [lines | e0]; [| discriminate].
    apply Returned_inj in Hlines. subst lineItems. constructor; [| now apply IH].
    unfold lineItemOf in Hline.
    destruct (images item); [discriminate |].
    destruct (parts item) as [| part others].
    + destruct (itemProvided (items input) item); [| discriminate].
      apply Returned_inj in Hline. subst line. now split.
    + destruct (donor part); [| discriminate].
      destruct (itemProvided (items input) item); [| discriminate].
      apply Returned_inj in Hline. subst line. now split.
Qed.

Lemma X22_order_of_checkout_witness :
  createStripeSession (shop [strut; mirror]) (request None)
  = getStripeCheckout (shop [strut; mirror]) cart "Ada" "a@example.com" "AU"
      [pickupShippingOption] /\
  od_status {| od_email := "a@example.com"; od_name := "Ada";
               od_status := "PENDING"; od_subtotal := num 32000 |} = "PENDING".
Proof.
  destruct (X22_order_of_checkout (shop [strut; mirror]) (request None)
              {| od_email := "a@example.com"; od_name := "Ada";
                 od_status := "PENDING"; od_subtotal := num 32000 |})
    as (_ & _ & _ & _ & Hpublic & _).
  { right. right. left. reflexivity. }
  exact (Hpublic cart "Ada" "a@example.com" "AU" [pickupShippingOption] eq_refl).
Defined.

End CheckoutProperties.
